(** * QMLify: dependency resolution and build orchestration

    A shallow embedding of [qmlify.py], the build tool of Quickly, and the
    properties of its dependency graph, cache and resolver.

    Conventions.  Python dictionaries are [gmap]s, Python sets are [gset]s,
    Python lists are [list]s and Python [str] values are [string]s (ASCII
    text).  The order in which Python iterates a set is given by the
    environment of the run.  A method that mutates the session takes the state and returns
    the new one together with its outcome.  Recursion that Python performs
    on its call stack is driven here by a [fuel] argument; running out of
    fuel is the outcome [RecursionError] (what CPython reports when the
    stack is exhausted), so that "the call returns" or "the call raises
    [DependencyCycle]" is always stated for some sufficient amount of fuel.

    The file has two parts: the embedding of the program, then the
    properties proved of it. *)

From stdpp Require Import base option list relations gmap strings fin_maps fin_sets sets sorting.
From Stdlib Require Import ZArith Lia Ascii.

Open Scope string_scope.
Open Scope list_scope.
Open Scope nat_scope.

(** * Part I: the program *)

(** ** The dependency graph and its cycle detector *)

Module Graph.

(** [QMLify.dependency_map]: output path of a file to the ordered list of
    what it requires. *)
Abbreviation dependency_map := (gmap string (list string)).

(** What a call of [check_dependency] can do: return [None], raise
    [DependencyCycle(chain)], or exhaust the interpreter's stack. *)
Inductive outcome :=
| Returned
| DependencyCycle (chain : list string)
| RecursionError.

(** The body of the [for dep in dependencies] loop is [body]; the loop
    stops at the first iteration that does not return normally. *)
Fixpoint for_each (deps : list string) (body : string → outcome) : outcome :=
  match deps with
  | [] => Returned
  | dep :: rest =>
      match body dep with
      | Returned => for_each rest body
      | stop => stop
      end
  end.

(** [QMLify.check_dependency(name, target, chain=None)]. *)
Fixpoint check_dependency (fuel : nat) (m : dependency_map)
    (name target : string) (chain : option (list string)) : outcome :=
  match fuel with
  | O => RecursionError
  | S fuel' =>
      match m !! name with
      | None => Returned
      | Some dependencies =>
          let chain := default [target; name] chain in
          for_each dependencies (λ dep,
            let new_chain := chain ++ [dep] in
            if decide (dep = target) then DependencyCycle new_chain
            else check_dependency fuel' m dep target (Some new_chain))
      end
  end.

(** The mutation performed by [register_dependency] before the check:
    create the adjacency list when absent, then append. *)
Definition add_edge (m : dependency_map) (filename dependency : string)
    : dependency_map :=
  let m1 := match m !! filename with
            | None => <[filename := []]> m
            | Some _ => m
            end in
  <[filename := default [] (m1 !! filename) ++ [dependency]]> m1.

(** [QMLify.register_dependency(filename, dependency)]: the map is
    mutated first, the check runs on the mutated map, and the mutation
    stays whatever the check does. *)
Definition register_dependency (fuel : nat) (m : dependency_map)
    (filename dependency : string) : dependency_map * outcome :=
  let m' := add_edge m filename dependency in
  (m', check_dependency fuel m' dependency filename None).

(** *** Paths of the map *)

(** [edge m a b]: [b] is listed among the dependencies of [a]. *)
Definition edge (m : dependency_map) (a b : string) : Prop :=
  ∃ deps, m !! a = Some deps ∧ b ∈ deps.

(** A path of one or more edges, the "direct or transitive" dependency. *)
Definition path (m : dependency_map) : relation string := tc (edge m).

(** Everything the traversal can get to from a node, the node included. *)
Definition reachable (m : dependency_map) : relation string := rtc (edge m).

(** No cycle can be reached from [start]. *)
Definition no_cycle_from (m : dependency_map) (start : string) : Prop :=
  ∀ x, reachable m start x → ¬ path m x x.

(** The edges the traversal itself follows: it never descends into the
    target, it raises there. *)
Definition descend (m : dependency_map) (target : string) (a b : string) : Prop :=
  edge m a b ∧ b ≠ target.

(** A list of files in which each one requires the next. *)
Fixpoint walk (m : dependency_map) (l : list string) : Prop :=
  match l with
  | a :: (b :: _) as rest => edge m a b ∧ walk m rest
  | _ => True
  end.

(** A certificate of acyclicity that can be checked by evaluation: a rank
    that strictly decreases along every edge. *)
Definition ranked (rank : string → nat) (m : dependency_map) : Prop :=
  map_Forall (λ a deps, Forall (λ b, rank b < rank a) deps) m.

#[global] Instance ranked_dec rank m : Decision (ranked rank m).
Proof. unfold ranked. apply _. Defined.

(** The outcome, independent of the fuel: the call is observed to raise
    [DependencyCycle] when some amount of fuel shows it. *)
Definition raises_cycle (m : dependency_map) (filename dependency : string)
    (chain : list string) : Prop :=
  ∃ fuel, (register_dependency fuel m filename dependency).2 = DependencyCycle chain.

Definition terminates (m : dependency_map) (name target : string)
    (chain : option (list string)) : Prop :=
  ∃ fuel : nat, ∀ fuel' : nat, (fuel ≤ fuel')%nat →
    check_dependency fuel' m name target chain ≠ RecursionError.

(** *** Two maps used as examples *)

(** [b] requires [c], which requires [a]. *)
Definition chain_map : dependency_map :=
  <["b" := ["c"]]> (<["c" := ["a"]]> ∅).

Definition chain_rank (s : string) : nat :=
  if decide (s = "b") then 2 else if decide (s = "c") then 1 else 0.

(** A map that already holds a cycle: [b] requires itself, then [a]. *)
Definition looping_map : dependency_map := <["b" := ["b"; "a"]]> ∅.

End Graph.

(** ** Python strings *)

(** The [str] methods the program uses, on ASCII text. *)
Module Str.

(** [s.startswith(p)]. *)
Fixpoint startswith (s p : string) : bool :=
  match p, s with
  | EmptyString, _ => true
  | String c p', String d s' => bool_decide (c = d) && startswith s' p'
  | String _ _, EmptyString => false
  end.

(** [s[n:]]. *)
Fixpoint slice_from (n : nat) (s : string) : string :=
  match n, s with
  | S n', String _ s' => slice_from n' s'
  | _, _ => s
  end.

(** [s[:n]]. *)
Fixpoint slice_to (n : nat) (s : string) : string :=
  match n, s with
  | S n', String c s' => String c (slice_to n' s')
  | _, _ => EmptyString
  end.

(** [sub in s]. *)
Fixpoint contains (s sub : string) : bool :=
  startswith s sub ||
  match s with
  | EmptyString => false
  | String _ s' => contains s' sub
  end.

(** [s.endswith(suffix)]. *)
Definition endswith (s suffix : string) : bool :=
  bool_decide (String.length suffix ≤ String.length s) &&
  bool_decide (slice_from (String.length s - String.length suffix) s = suffix).

(** [s.replace(old, new)] for one-character [old] and [new]. *)
Fixpoint replace (s : string) (old new : ascii) : string :=
  match s with
  | EmptyString => EmptyString
  | String c s' => String (if decide (c = old) then new else c) (replace s' old new)
  end.

(** [sep.join(parts)]. *)
Fixpoint join (sep : string) (parts : list string) : string :=
  match parts with
  | [] => EmptyString
  | [p] => p
  | p :: rest => p +:+ sep +:+ join sep rest
  end.

(** [s.split(sep)] for a one-character separator: the fields between the
    separators, empty fields included. *)
Fixpoint split (s : string) (sep : ascii) : list string :=
  match s with
  | EmptyString => [EmptyString]
  | String c s' =>
      if decide (c = sep) then EmptyString :: split s' sep
      else match split s' sep with
           | field :: fields => String c field :: fields
           | [] => [String c EmptyString]
           end
  end.

(** The characters [str.strip()] removes and the class [\s] matches. *)
Definition isspace (c : ascii) : bool :=
  let n := nat_of_ascii c in
  bool_decide (n = 32) || bool_decide (9 ≤ n ≤ 13) || bool_decide (28 ≤ n ≤ 31).

Fixpoint lstrip (s : string) : string :=
  match s with
  | String c s' => if isspace c then lstrip s' else s
  | EmptyString => EmptyString
  end.

Fixpoint rstrip (s : string) : string :=
  match s with
  | EmptyString => EmptyString
  | String c s' =>
      match rstrip s' with
      | EmptyString => if isspace c then EmptyString else String c EmptyString
      | rest => String c rest
      end
  end.

(** [s.strip()]. *)
Definition strip (s : string) : string := rstrip (lstrip s).

(** [s.rstrip('/')]. *)
Fixpoint rstrip_char (s : string) (ch : ascii) : string :=
  match s with
  | EmptyString => EmptyString
  | String c s' =>
      match rstrip_char s' ch with
      | EmptyString => if decide (c = ch) then EmptyString else String c EmptyString
      | rest => String c rest
      end
  end.

(** [s.rfind(ch) + 1]: the length of the shortest prefix that holds every
    occurrence of [ch], 0 when there is none. *)
Fixpoint after_last (s : string) (ch : ascii) : nat :=
  match s with
  | EmptyString => 0
  | String c s' =>
      match after_last s' ch with
      | 0 => if decide (c = ch) then 1 else 0
      | S n => S (S n)
      end
  end.

(** The last character, if any. *)
Fixpoint last_char (s : string) : option ascii :=
  match s with
  | EmptyString => None
  | String c EmptyString => Some c
  | String _ s' => last_char s'
  end.

(** [ch in s]. *)
Fixpoint mem (ch : ascii) (s : string) : bool :=
  match s with
  | EmptyString => false
  | String c s' => bool_decide (c = ch) || mem ch s'
  end.

End Str.

(** ** Generated namespace identifiers *)

(** The loop [while import_path.startswith('../'): import_path = '_' +
    import_path[2:]]; every iteration makes the string one character
    shorter, so [fuel] never needs to exceed its length. *)
Fixpoint module_var_loop (fuel : nat) (import_path : string) : string :=
  match fuel with
  | O => import_path
  | S fuel' =>
      if Str.startswith import_path "../"
      then module_var_loop fuel' ("_" +:+ Str.slice_from 2 import_path)
      else import_path
  end.

(** [QMLifyFile.module_var(import_path)]. *)
Definition module_var (import_path : string) : string :=
  let import_path :=
    if Str.startswith import_path "./" then Str.slice_from 2 import_path
    else import_path in
  let import_path := module_var_loop (String.length import_path) import_path in
  "QML_" +:+ Str.replace (Str.replace (Str.replace import_path "/" "_") "." "_") "-" "_".

(** The identifier as the design describes it: a leading [./] is stripped,
    each leading [../] becomes a [_] segment, then separators, dots and
    hyphens become underscores and the marker [QML_] is put in front. *)
Fixpoint parents_to_underscores (fuel : nat) (import_path : string) : string :=
  match fuel with
  | O => import_path
  | S fuel' =>
      if Str.startswith import_path "../"
      then "_/" +:+ parents_to_underscores fuel' (Str.slice_from 3 import_path)
      else import_path
  end.

Definition module_var_described (import_path : string) : string :=
  let import_path :=
    if Str.startswith import_path "./" then Str.slice_from 2 import_path
    else import_path in
  let import_path := parents_to_underscores (String.length import_path) import_path in
  "QML_" +:+ Str.replace (Str.replace (Str.replace import_path "/" "_") "." "_") "-" "_".

(** ** Path names *)

(** The functions of Python's [os.path] (POSIX flavour) that the program
    calls, as CPython defines them.  The current directory, which Python
    reads from the process, is the explicit argument [cwd]. *)
Module posixpath.

Definition isabs (s : string) : bool := Str.startswith s "/".

(** One round of the loop of [join(a, *p)]. *)
Definition join_step (path b : string) : string :=
  if Str.startswith b "/" then b
  else if bool_decide (path = "") || Str.endswith path "/" then path +:+ b
  else path +:+ "/" +:+ b.

(** [os.path.join(a, *p)]. *)
Definition join (a : string) (p : list string) : string := foldl join_step a p.

(** POSIX keeps exactly two leading slashes apart from one or from three
    and more. *)
Definition initial_slashes (path : string) : nat :=
  if Str.startswith path "/" then
    if Str.startswith path "//" && negb (Str.startswith path "///") then 2 else 1
  else 0.

(** One round of the loop over the components in [normpath]. *)
Definition normpath_step (slashes : nat) (new_comps : list string) (comp : string)
    : list string :=
  if bool_decide (comp = "") || bool_decide (comp = ".") then new_comps
  else if bool_decide (comp ≠ "..")
          || (bool_decide (slashes = 0) && bool_decide (new_comps = []))
          || (bool_decide (new_comps ≠ []) && bool_decide (last new_comps = Some ".."))
       then new_comps ++ [comp]
  else if bool_decide (new_comps ≠ []) then removelast new_comps
  else new_comps.

Fixpoint slashes_string (n : nat) : string :=
  match n with
  | O => ""
  | S n' => "/" +:+ slashes_string n'
  end.

(** [os.path.normpath(path)]. *)
Definition normpath (path : string) : string :=
  if bool_decide (path = "") then "."
  else
    let slashes := initial_slashes path in
    let comps := foldl (normpath_step slashes) [] (Str.split path "/") in
    let path := slashes_string slashes +:+ Str.join "/" comps in
    if bool_decide (path = "") then "." else path.

(** [os.path.abspath(path)]. *)
Definition abspath (cwd path : string) : string :=
  normpath (if isabs path then path else join cwd [path]).

(** [os.path.commonprefix] on two lists of components. *)
Fixpoint commonprefix (l1 l2 : list string) : list string :=
  match l1, l2 with
  | a :: l1', b :: l2' => if decide (a = b) then a :: commonprefix l1' l2' else []
  | _, _ => []
  end.

(** The non-empty components of the absolute form of a path. *)
Definition components (cwd path : string) : list string :=
  filter (λ x, x ≠ "") (Str.split (abspath cwd path) "/").

(** [os.path.relpath(path, start)]; [None] stands for the [ValueError]
    raised on an empty [path]. *)
Definition relpath (cwd path start : string) : option string :=
  if bool_decide (path = "") then None
  else
    let start_list := components cwd start in
    let path_list := components cwd path in
    let i := length (commonprefix start_list path_list) in
    let rel_list := replicate (length start_list - i) ".." ++ drop i path_list in
    match rel_list with
    | [] => Some "."
    | a :: p => Some (join a p)
    end.

(** [os.path.dirname(p)]. *)
Definition dirname (p : string) : string :=
  let head := Str.slice_to (Str.after_last p "/") p in
  if bool_decide (head ≠ "")
     && bool_decide (head ≠ slashes_string (String.length head))
  then Str.rstrip_char head "/" else head.

(** [os.path.basename(p)]. *)
Definition basename (p : string) : string :=
  Str.slice_from (Str.after_last p "/") p.

(** *** Notions for the properties of path names *)


(** The loop of [normpath] over a list of components. *)
Definition norm (slashes : nat) (comps acc : list string) : list string :=
  foldl (normpath_step slashes) acc comps.



(** Components that [join] puts together with a separator between them. *)
Definition joinable (x : string) : Prop := x ≠ "" ∧ Str.mem "/" x = false.

End posixpath.

(** ** Regular expressions *)

(** The fragment of Python's [re] that the patterns of the program use:
    literals, character classes, greedy repetition with backtracking,
    numbered groups and back-references.  None of the program's patterns
    matches the empty string, and the scanning functions rely on it. *)
Module Re.

Inductive regex :=
| Lit (s : string)
| Class (p : ascii → bool)
| Cat (r1 r2 : regex)
| Star (r : regex)
| Group (n : nat) (r : regex)
| Backref (n : nat).

(** [r+] is [r] followed by [r*]. *)
Definition Plus (r : regex) : regex := Cat r (Star r).

Fixpoint seq_of (rs : list regex) : regex :=
  match rs with
  | [] => Lit ""
  | [r] => r
  | r :: rs' => Cat r (seq_of rs')
  end.

Abbreviation captures := (gmap nat string).

(** Backtracking matcher in continuation-passing style: [k] is what is
    left to match, and a failure of [k] makes the repetition give back
    what it took. *)
Fixpoint step {R} (r : regex) (s : string) (caps : captures)
    (k : string → captures → option R) {struct r} : option R :=
  match r with
  | Lit l =>
      if Str.startswith s l then k (Str.slice_from (String.length l) s) caps else None
  | Class p =>
      match s with
      | String c s' => if p c then k s' caps else None
      | EmptyString => None
      end
  | Cat r1 r2 => step r1 s caps (λ s' caps', step r2 s' caps' k)
  | Star r1 =>
      (fix iter (n : nat) (s : string) (caps : captures) {struct n} : option R :=
         match n with
         | O => k s caps
         | S n' =>
             match step r1 s caps (λ s' caps',
                     if decide (String.length s' < String.length s)
                     then iter n' s' caps' else None) with
             | Some res => Some res
             | None => k s caps
             end
         end) (String.length s) s caps
  | Group n r1 =>
      step r1 s caps (λ s' caps',
        k s' (<[n := Str.slice_to (String.length s - String.length s') s]> caps'))
  | Backref n =>
      match caps !! n with
      | Some g =>
          if Str.startswith s g then k (Str.slice_from (String.length g) s) caps
          else None
      | None => None
      end
  end.

(** A compiled pattern and the number of its groups. *)
Record pattern := { re : regex; ngroups : nat }.

(** A match object: [group(0)] and [groups()]. *)
Record rmatch := { whole : string; groups : list string }.

(** [pattern.match(s)]: the match and the text after it. *)
Definition match_here (p : pattern) (s : string) : option (rmatch * string) :=
  step (re p) s ∅ (λ s' caps,
    Some ({| whole := Str.slice_to (String.length s - String.length s') s;
             groups := (λ i, default "" (caps !! i)) <$> seq 1 (ngroups p) |}, s')).

(** The text cut at the non-overlapping matches, leftmost first: each
    match with the text between it and the previous one, then the text
    after the last match. *)
Fixpoint scan (fuel : nat) (p : pattern) (s : string)
    : list (string * rmatch) * string :=
  match fuel with
  | O => ([], s)
  | S fuel' =>
      match match_here p s with
      | Some (m, rest) =>
          if bool_decide (whole m = "") then
            match s with
            | EmptyString => ([], "")
            | String c s' =>
                match scan fuel' p s' with
                | ((pre, m') :: segs, tail) => ((String c pre, m') :: segs, tail)
                | ([], tail) => ([], String c tail)
                end
            end
          else
            let '(segs, tail) := scan fuel' p rest in (("", m) :: segs, tail)
      | None =>
          match s with
          | EmptyString => ([], "")
          | String c s' =>
              match scan fuel' p s' with
              | ((pre, m') :: segs, tail) => ((String c pre, m') :: segs, tail)
              | ([], tail) => ([], String c tail)
              end
          end
      end
  end.

Definition segments (p : pattern) (s : string) : list (string * rmatch) * string :=
  scan (S (String.length s)) p s.

(** [re.finditer(p, s)]. *)
Definition finditer (p : pattern) (s : string) : list rmatch :=
  snd <$> (segments p s).1.

(** [re.findall(p, s)] for a pattern with one group. *)
Definition findall (p : pattern) (s : string) : list string :=
  (λ m, default "" (head (groups m))) <$> finditer p s.

(** A replacement template: literal text and [\n] references. *)
Inductive piece := Text (s : string) | Ref (n : nat).

Definition expand (template : list piece) (m : rmatch) : string :=
  foldr (λ pc acc,
    match pc with
    | Text s => s +:+ acc
    | Ref n => default "" (groups m !! (n - 1)) +:+ acc
    end) "" template.

(** [re.sub(p, template, s)]. *)
Definition sub (p : pattern) (template : list piece) (s : string) : string :=
  let '(segs, tail) := segments p s in
  foldr (λ '(pre, m) acc, pre +:+ expand template m +:+ acc) tail segs.

(** The character classes of the patterns. *)
Definition is_word (c : ascii) : bool :=
  let n := nat_of_ascii c in
  bool_decide (48 ≤ n ≤ 57) || bool_decide (65 ≤ n ≤ 90)
  || bool_decide (97 ≤ n ≤ 122) || bool_decide (n = 95).

Definition is_quote (c : ascii) : bool :=
  bool_decide (c = "'"%char) || bool_decide (c = ascii_of_nat 34).

Definition not_newline (c : ascii) : bool := negb (bool_decide (nat_of_ascii c = 10)).

Definition newline : string := String (ascii_of_nat 10) EmptyString.

End Re.

(** ** The build session *)

(** *** Exceptions *)

(** The exceptions that end a run.  [DependencyCycle] and the bare
    [Exception] with a message are raised by the program itself, the
    others by the interpreter or the library when the program trips.
    [OSError] stands for the class with its subclasses
    ([FileNotFoundError], [IsADirectoryError], [shutil.SameFileError]),
    and carries the path that was asked for. *)
Inductive exn :=
| DependencyCycle (chain : list string)
| Exception (message : string)
| NameError (name : string)
| UnboundLocalError (name : string)
| KeyError (key : string)
| ValueError
| AttributeError
| OSError (path : string)
| CalledProcessError
| YAMLError
| JSONDecodeError
| RecursionError.

Inductive result (A : Type) :=
| Ok (a : A)
| Raise (e : exn).
Arguments Ok {A} a.
Arguments Raise {A} e.

(** *** The persisted cache *)

(** One entry of the cache: the keys [dependencies] and [globals]. *)
Record cache_entry := {
  entry_dependencies : list string;
  entry_globals : list string
}.

Abbreviation cache_map := (gmap string cache_entry).

(** What [yaml.load] makes of the cache file: a parse error, a document
    that is no mapping (an empty file loads as [None]), or a mapping with
    or without the key [files]. *)
Inductive yaml_doc :=
| YamlInvalid
| YamlNull
| YamlMapping (files : option cache_map).

(** *** The environment of a run *)

Inductive node :=
| RegularFile (mtime : Z) (content : string)
| Directory (mtime : Z).

Definition node_mtime (n : node) : Z :=
  match n with
  | RegularFile t _ => t
  | Directory t => t
  end.

(** The file system is keyed by absolute normalised path.  Modification
    times are integers (the program only compares them).  [now] is the
    time stamped on what the run writes, [script_mtime] the modification
    time of [qmlify.py] itself.  [babel] and [json_main] stand for the
    external compiler (from the text of a file to its lowered text, [None]
    for a non-zero exit) and for reading the key [main] of a [package.json]
    ([None] for a text that does not parse).  [cache_yaml] is the file
    [.qmlify_cache], [available_modules] the registry filled at start-up.
    [str_hash] ranks the strings as the hash tables of this run do: a set
    is iterated by increasing rank (Python salts the hash of a string anew
    in each process, so that the order differs from run to run). *)
Record World := {
  cwd : string;
  nodes : gmap string node;
  now : Z;
  script_mtime : Z;
  babel : string → option string;
  json_main : string → option (option string);
  cache_yaml : option yaml_doc;
  available_modules : gmap string string;
  str_hash : string → nat;
  stdout : list string
}.

Definition set_nodes (v : gmap string node) (w : World) : World :=
  {| cwd := cwd w; nodes := v; now := now w; script_mtime := script_mtime w;
     babel := babel w; json_main := json_main w; cache_yaml := cache_yaml w;
     available_modules := available_modules w; str_hash := str_hash w;
     stdout := stdout w |}.

Definition set_cache_yaml (v : option yaml_doc) (w : World) : World :=
  {| cwd := cwd w; nodes := nodes w; now := now w; script_mtime := script_mtime w;
     babel := babel w; json_main := json_main w; cache_yaml := v;
     available_modules := available_modules w; str_hash := str_hash w;
     stdout := stdout w |}.

Definition set_stdout (v : list string) (w : World) : World :=
  {| cwd := cwd w; nodes := nodes w; now := now w; script_mtime := script_mtime w;
     babel := babel w; json_main := json_main w; cache_yaml := cache_yaml w;
     available_modules := available_modules w; str_hash := str_hash w;
     stdout := v |}.

(** What [os.stat(p)] finds: the empty path names nothing. *)
Definition stat (w : World) (p : string) : option node :=
  if bool_decide (p = "") then None
  else nodes w !! posixpath.abspath (cwd w) p.

(** [os.path.exists(p)]. *)
Definition path_exists (w : World) (p : string) : bool :=
  bool_decide (is_Some (stat w p)).

(** [os.path.getmtime(p)]. *)
Definition getmtime (w : World) (p : string) : result Z :=
  match stat w p with
  | Some n => Ok (node_mtime n)
  | None => Raise (OSError p)
  end.

(** [open(p).read()]. *)
Definition read_text (w : World) (p : string) : result string :=
  match stat w p with
  | Some (RegularFile _ content) => Ok content
  | _ => Raise (OSError p)
  end.

(** [os.path.isdir(p)] and [os.path.isfile(p)]. *)
Definition isdir (w : World) (p : string) : bool :=
  match stat w p with
  | Some (Directory _) => true
  | _ => false
  end.

Definition isfile (w : World) (p : string) : bool :=
  match stat w p with
  | Some (RegularFile _ _) => true
  | _ => false
  end.

(** [os.path.samefile(a, b)] as [shutil] uses it: a path that cannot be
    examined is the same file as nothing. *)
Definition samefile (w : World) (a b : string) : bool :=
  path_exists w a && path_exists w b &&
  bool_decide (posixpath.abspath (cwd w) a = posixpath.abspath (cwd w) b).

(** The order in which a set is iterated: by increasing rank. *)
Definition rank_le (w : World) (a b : string) : Prop := str_hash w a ≤ str_hash w b.

#[global] Instance rank_le_dec w a b : Decision (rank_le w a b).
Proof. unfold rank_le. apply _. Defined.

Definition iterate (w : World) (s : gset string) : list string :=
  merge_sort (rank_le w) (elements s).

(** [open(p, 'w').write(text)]. *)
Definition write_text (p text : string) (w : World) : World :=
  set_nodes (<[posixpath.abspath (cwd w) p := RegularFile (now w) text]> (nodes w)) w.

(** The directory [p] and those above it, as [os.makedirs] creates them. *)
Definition ancestors (w : World) (p : string) : list string :=
  let comps := posixpath.components (cwd w) p in
  (λ n, "/" +:+ Str.join "/" (take n comps)) <$> seq 1 (length comps).

Definition makedirs_nodes (w : World) (p : string) : gmap string node :=
  foldr (λ d fs, match fs !! d with
                 | Some _ => fs
                 | None => <[d := Directory (now w)]> fs
                 end) (nodes w) (ancestors w p).

(** *** The objects of a session *)

(** A [QMLifyFile] object.  [text], [header], [post_header] and [footer]
    are the attributes that [build] creates, each before it is read; an
    object that has not been rewritten has them empty here. *)
Module QMLifyFile.
Record t := {
  filename : string;
  base_dir : string;
  dependencies : list string;
  globals : gset string;
  imported_globals : gset string;
  dirname : string;
  basename : string;
  rel_filename : string;
  use_babel : bool;
  build_dir : string;
  out_filename : string;
  out_dirname : string;
  text : string;
  header : string;
  post_header : string;
  footer : string
}.

Definition set_dependencies (v : list string) (f : t) : t :=
  {| filename := filename f; base_dir := base_dir f; dependencies := v;
     globals := globals f; imported_globals := imported_globals f;
     dirname := dirname f; basename := basename f; rel_filename := rel_filename f;
     use_babel := use_babel f; build_dir := build_dir f;
     out_filename := out_filename f; out_dirname := out_dirname f;
     text := text f; header := header f; post_header := post_header f;
     footer := footer f |}.

Definition set_globals (v : gset string) (f : t) : t :=
  {| filename := filename f; base_dir := base_dir f; dependencies := dependencies f;
     globals := v; imported_globals := imported_globals f;
     dirname := dirname f; basename := basename f; rel_filename := rel_filename f;
     use_babel := use_babel f; build_dir := build_dir f;
     out_filename := out_filename f; out_dirname := out_dirname f;
     text := text f; header := header f; post_header := post_header f;
     footer := footer f |}.

Definition set_imported_globals (v : gset string) (f : t) : t :=
  {| filename := filename f; base_dir := base_dir f; dependencies := dependencies f;
     globals := globals f; imported_globals := v;
     dirname := dirname f; basename := basename f; rel_filename := rel_filename f;
     use_babel := use_babel f; build_dir := build_dir f;
     out_filename := out_filename f; out_dirname := out_dirname f;
     text := text f; header := header f; post_header := post_header f;
     footer := footer f |}.

Definition set_text (v : string) (f : t) : t :=
  {| filename := filename f; base_dir := base_dir f; dependencies := dependencies f;
     globals := globals f; imported_globals := imported_globals f;
     dirname := dirname f; basename := basename f; rel_filename := rel_filename f;
     use_babel := use_babel f; build_dir := build_dir f;
     out_filename := out_filename f; out_dirname := out_dirname f;
     text := v; header := header f; post_header := post_header f;
     footer := footer f |}.

Definition set_header (v : string) (f : t) : t :=
  {| filename := filename f; base_dir := base_dir f; dependencies := dependencies f;
     globals := globals f; imported_globals := imported_globals f;
     dirname := dirname f; basename := basename f; rel_filename := rel_filename f;
     use_babel := use_babel f; build_dir := build_dir f;
     out_filename := out_filename f; out_dirname := out_dirname f;
     text := text f; header := v; post_header := post_header f;
     footer := footer f |}.

Definition set_post_header (v : string) (f : t) : t :=
  {| filename := filename f; base_dir := base_dir f; dependencies := dependencies f;
     globals := globals f; imported_globals := imported_globals f;
     dirname := dirname f; basename := basename f; rel_filename := rel_filename f;
     use_babel := use_babel f; build_dir := build_dir f;
     out_filename := out_filename f; out_dirname := out_dirname f;
     text := text f; header := header f; post_header := v;
     footer := footer f |}.

Definition set_footer (v : string) (f : t) : t :=
  {| filename := filename f; base_dir := base_dir f; dependencies := dependencies f;
     globals := globals f; imported_globals := imported_globals f;
     dirname := dirname f; basename := basename f; rel_filename := rel_filename f;
     use_babel := use_babel f; build_dir := build_dir f;
     out_filename := out_filename f; out_dirname := out_dirname f;
     text := text f; header := header f; post_header := post_header f;
     footer := v |}.

#[global] Instance inhabited : Inhabited t :=
  populate {| filename := ""; base_dir := ""; dependencies := [];
              globals := ∅; imported_globals := ∅; dirname := ""; basename := "";
              rel_filename := ""; use_babel := false; build_dir := "";
              out_filename := ""; out_dirname := ""; text := ""; header := "";
              post_header := ""; footer := "" |}.
End QMLifyFile.

(** An [NPMModule] object; [package_info] is set only when the package
    exists, and holds the key [main] of its [package.json] when present. *)
Module NPMModule.
Record t := {
  name : string;
  package_info : option (option string)
}.
End NPMModule.

(** The [QMLify] object.  [files] holds references (object identities) to
    the [QMLifyFile] objects; [package_info] is the mapping under the key
    [dependencies] of the project manifest, from a name to its version
    ([None] for a version that is null). *)
Module QMLify.
Record t := {
  build_dir : string;
  use_polyfills : bool;
  use_babel : bool;
  dependency_map : gmap string (list string);
  modules : gmap string NPMModule.t;
  base_dir : string;
  files : gmap string nat;
  package_info : gmap string (option string);
  cache : cache_map
}.

Definition set_dependency_map (v : gmap string (list string)) (q : t) : t :=
  {| build_dir := build_dir q; use_polyfills := use_polyfills q;
     use_babel := use_babel q; dependency_map := v; modules := modules q;
     base_dir := base_dir q; files := files q; package_info := package_info q;
     cache := cache q |}.

Definition set_modules (v : gmap string NPMModule.t) (q : t) : t :=
  {| build_dir := build_dir q; use_polyfills := use_polyfills q;
     use_babel := use_babel q; dependency_map := dependency_map q; modules := v;
     base_dir := base_dir q; files := files q; package_info := package_info q;
     cache := cache q |}.

Definition set_files (v : gmap string nat) (q : t) : t :=
  {| build_dir := build_dir q; use_polyfills := use_polyfills q;
     use_babel := use_babel q; dependency_map := dependency_map q;
     modules := modules q; base_dir := base_dir q; files := v;
     package_info := package_info q; cache := cache q |}.

Definition set_cache (v : cache_map) (q : t) : t :=
  {| build_dir := build_dir q; use_polyfills := use_polyfills q;
     use_babel := use_babel q; dependency_map := dependency_map q;
     modules := modules q; base_dir := base_dir q; files := files q;
     package_info := package_info q; cache := v |}.
End QMLify.

(** The state of a run: the session object, the [QMLifyFile] objects
    allocated so far (an object is its index in [heap]; objects are never
    freed) and the environment. *)
Record state := {
  qmlify : QMLify.t;
  heap : list QMLifyFile.t;
  world : World
}.

Definition set_qmlify (v : QMLify.t) (st : state) : state :=
  {| qmlify := v; heap := heap st; world := world st |}.
Definition set_heap (v : list QMLifyFile.t) (st : state) : state :=
  {| qmlify := qmlify st; heap := v; world := world st |}.
Definition set_world (v : World) (st : state) : state :=
  {| qmlify := qmlify st; heap := heap st; world := v |}.

(** *** Computations on the state *)

Definition M (A : Type) : Type := state → result A * state.

Definition ret {A} (a : A) : M A := λ st, (Ok a, st).
Definition raise {A} (e : exn) : M A := λ st, (Raise e, st).
Definition bind {A B} (m : M A) (k : A → M B) : M B :=
  λ st, match m st with
        | (Ok a, st') => k a st'
        | (Raise e, st') => (Raise e, st')
        end.

Notation "'let*' x ':=' m 'in' k" := (bind m (λ x, k))
  (at level 10, x pattern, m at level 100, k at level 200).

Definition lift {A} (r : result A) : M A := λ st, (r, st).
Definition get_world : M World := λ st, (Ok (world st), st).
Definition get_qmlify : M QMLify.t := λ st, (Ok (qmlify st), st).
Definition modify_world (g : World → World) : M unit :=
  λ st, (Ok tt, set_world (g (world st)) st).
Definition modify_qmlify (g : QMLify.t → QMLify.t) : M unit :=
  λ st, (Ok tt, set_qmlify (g (qmlify st)) st).

(** Reading and updating the object [self] refers to. *)
Definition get_file (self : nat) : M QMLifyFile.t :=
  λ st, (Ok (heap st !!! self), st).
Definition modify_file (self : nat) (g : QMLifyFile.t → QMLifyFile.t) : M unit :=
  λ st, (Ok tt, set_heap (alter g self (heap st)) st).
(** Creating an object. *)
Definition alloc (f : QMLifyFile.t) : M nat :=
  λ st, (Ok (length (heap st)), set_heap (heap st ++ [f]) st).

(** [print(line)]. *)
Definition print (line : string) : M unit :=
  modify_world (λ w, set_stdout (stdout w ++ [line]) w).

(** A loop whose body is run for its effects. *)
Fixpoint for_each {A} (l : list A) (body : A → M unit) : M unit :=
  match l with
  | [] => ret tt
  | x :: rest => let* _ := body x in for_each rest body
  end.

(** *** Constants of the program *)

Definition nl : string := Re.newline.
Definition dquote : string := String (ascii_of_nat 34) EmptyString.

(** [polyfills]. *)
Definition polyfills : list string :=
  ["WeakMap"; "Map"; "WeakSet"; "Set"; "Symbol"; "Reflect";
   "Promise"; "fetch"; "Request"; "Response"; "Headers"].

(** [post_header.format(basename)]. *)
Definition post_header_format (basename : string) : string :=
  nl +:+ "var __filename = Qt.resolvedUrl('" +:+ basename +:+ "').substring(7);" +:+ nl
  +:+ "var __dirname = __filename.substring(0, __filename.lastIndexOf('/'));" +:+ nl
  +:+ nl
  +:+ "var module = { exports: {} };" +:+ nl
  +:+ "var exports = module.exports;" +:+ nl
  +:+ "var global = {};" +:+ nl.

(** The quoted specifier, common to the three import patterns; the group
    has the number [n]. *)
Definition quoted_specifier (n : nat) : list Re.regex :=
  [Re.Class Re.is_quote;
   Re.Group n (Re.Plus (Re.Class (λ c, negb (Re.is_quote c))));
   Re.Class Re.is_quote].

(** [require_as]. *)
Definition require_as : Re.pattern :=
  {| Re.re := Re.seq_of ([Re.Lit "var "; Re.Group 1 (Re.Plus (Re.Class Re.is_word));
                          Re.Lit " = require("] ++ quoted_specifier 2
                         ++ [Re.Lit (");" +:+ nl)]);
     Re.ngroups := 2 |}.

(** [require]. *)
Definition require_re : Re.pattern :=
  {| Re.re := Re.seq_of ([Re.Lit "require("] ++ quoted_specifier 1 ++ [Re.Lit ")"]);
     Re.ngroups := 1 |}.

(** [require_effects], with the text the program puts in front of it and
    behind it when it removes the statement. *)
Definition require_effects_between (before after : string) : Re.pattern :=
  {| Re.re := Re.seq_of ([Re.Lit (before +:+ nl +:+ "require(")] ++ quoted_specifier 1
                         ++ [Re.Lit (");" +:+ nl +:+ after)]);
     Re.ngroups := 1 |}.

Definition require_effects : Re.pattern := require_effects_between "" "".

Definition spaces : Re.regex := Re.Star (Re.Class Str.isspace).
Definition any : Re.regex := Re.Class Re.not_newline.

(** [export_import]. *)
Definition export_import : Re.pattern :=
  {| Re.re := Re.seq_of
       [Re.Lit "Object"; any; Re.Lit "defineProperty(exports, '";
        Re.Group 1 (Re.Plus any); Re.Lit ("', {" +:+ nl); spaces;
        Re.Lit ("enumerable: true," +:+ nl); spaces;
        Re.Lit ("get: function get() {" +:+ nl); spaces;
        Re.Lit "return "; Re.Group 2 (Re.Star any); any; Re.Backref 1;
        Re.Lit (";" +:+ nl); spaces; Re.Lit ("}" +:+ nl); spaces; Re.Lit "});"];
     Re.ngroups := 2 |}.

(** [export_default_import]. *)
Definition export_default_import : Re.pattern :=
  {| Re.re := Re.seq_of
       [Re.Lit "exports."; Re.Group 1 (Re.Star any); Re.Lit " = ";
        Re.Group 2 (Re.Star any); Re.Lit (".default;" +:+ nl)];
     Re.ngroups := 2 |}.

(** The pattern of [build] that finds reads of the [global] object. *)
Definition global_read : Re.pattern :=
  {| Re.re := Re.seq_of
       [Re.Lit "global.";
        Re.Group 1 (Re.Plus (Re.Class (λ c, Re.is_word c || bool_decide (c = "-"%char))))];
     Re.ngroups := 1 |}.

(** *** Methods *)

(** [QMLifyFile.__init__(qmlify, filename, base_dir, build_dir, use_babel)];
    [None] is the default of the two optional arguments. *)
Definition QMLifyFile_init (filename base_dir : string)
    (build_dir : option string) (use_babel : option bool) : M nat :=
  let* w := get_world in
  let* q := get_qmlify in
  match posixpath.relpath (cwd w) filename (cwd w),
        posixpath.relpath (cwd w) filename base_dir with
  | Some self_filename, Some rel_filename =>
      let build_dir := default (QMLify.build_dir q) build_dir in
      let out_filename := posixpath.join build_dir [rel_filename] in
      alloc {| QMLifyFile.filename := self_filename;
               QMLifyFile.base_dir := base_dir;
               QMLifyFile.dependencies := [];
               QMLifyFile.globals := ∅;
               QMLifyFile.imported_globals := ∅;
               QMLifyFile.dirname := posixpath.dirname filename;
               QMLifyFile.basename := posixpath.basename filename;
               QMLifyFile.rel_filename := rel_filename;
               QMLifyFile.use_babel := default (QMLify.use_babel q) use_babel;
               QMLifyFile.build_dir := build_dir;
               QMLifyFile.out_filename := out_filename;
               QMLifyFile.out_dirname := posixpath.dirname out_filename;
               QMLifyFile.text := "";
               QMLifyFile.header := "";
               QMLifyFile.post_header := "";
               QMLifyFile.footer := "" |}
  | _, _ => raise ValueError
  end.

(** [QMLifyFile.needs_build]: the three tests in the order Python
    evaluates them, each [getmtime] raising when its file is missing. *)
Definition needs_build (w : World) (f : QMLifyFile.t) : result bool :=
  if negb (path_exists w (QMLifyFile.out_filename f)) then Ok true
  else
    match getmtime w (QMLifyFile.filename f) with
    | Raise e => Raise e
    | Ok input_mtime =>
        match getmtime w (QMLifyFile.out_filename f) with
        | Raise e => Raise e
        | Ok output_mtime =>
            if (input_mtime >? output_mtime)%Z then Ok true
            else
              match getmtime w (QMLifyFile.out_filename f) with
              | Raise e => Raise e
              | Ok output_mtime' => Ok (script_mtime w >? output_mtime')%Z
              end
        end
    end.

(** [shutil.copy(src, dst)]: into [dst] when it is a directory; the bytes
    are read before the destination is opened. *)
Definition copy (src dst : string) : M unit :=
  let* w := get_world in
  let dst :=
    if isdir w dst then posixpath.join dst [posixpath.basename src] else dst in
  if samefile w src dst then raise (OSError src)
  else
    let* content := lift (read_text w src) in
    modify_world (write_text dst content).

(** [QMLifyFile.babelify()]. *)
Definition babelify (self : nat) : M string :=
  let* f := get_file self in
  let* w := get_world in
  match read_text w (QMLifyFile.filename f) with
  | Ok source =>
      match babel w source with
      | Some lowered => ret lowered
      | None => raise CalledProcessError
      end
  | Raise _ => raise CalledProcessError
  end.

(** The value [save_cache] stores for a file; [None] when [relpath]
    raises [ValueError]. *)
Definition cache_entry_of (w : World) (f : QMLifyFile.t) : option cache_entry :=
  deps ← mapM (λ dep, posixpath.relpath (cwd w) dep (QMLifyFile.dirname f))
              (QMLifyFile.dependencies f);
  Some {| entry_dependencies := deps;
          entry_globals := iterate w (QMLifyFile.globals f) |}.


(** [QMLifyFile.save_cache()]. *)
Definition QMLifyFile_save_cache (self : nat) : M unit :=
  let* f := get_file self in
  let* w := get_world in
  match cache_entry_of w f with
  | Some entry =>
      modify_qmlify (λ q,
        QMLify.set_cache (<[QMLifyFile.filename f := entry]> (QMLify.cache q)) q)
  | None => raise ValueError
  end.

(** The two assignments of [load_cache]. *)
Definition restore_entry (cwd : string) (info : cache_entry) (f : QMLifyFile.t)
    : QMLifyFile.t :=
  QMLifyFile.set_globals (list_to_set (entry_globals info))
    (QMLifyFile.set_dependencies
       ((λ dep, posixpath.abspath cwd (posixpath.join (QMLifyFile.dirname f) [dep]))
          <$> entry_dependencies info) f).

(** [QMLifyFile.load_cache()]. *)
Definition QMLifyFile_load_cache (self : nat) : M unit :=
  let* f := get_file self in
  let* q := get_qmlify in
  let* w := get_world in
  match QMLify.cache q !! QMLifyFile.filename f with
  | Some info => modify_file self (restore_entry (cwd w) info)
  | None => raise (KeyError (QMLifyFile.filename f))
  end.

(** [QMLify.save_cache()]. *)
Definition QMLify_save_cache : M unit :=
  let* q := get_qmlify in
  modify_world (set_cache_yaml (Some (YamlMapping (Some (QMLify.cache q))))).

(** [QMLify.load_cache()]. *)
Definition QMLify_load_cache : M unit :=
  let* w := get_world in
  match cache_yaml w with
  | Some YamlInvalid => raise YAMLError
  | Some YamlNull => raise AttributeError
  | Some (YamlMapping files) =>
      modify_qmlify (QMLify.set_cache (default ∅ files))
  | None => modify_qmlify (QMLify.set_cache ∅)
  end.

(** [QMLifyFile.add_polyfills()]. *)
Definition add_polyfills (self : nat) : M unit :=
  let* _ := modify_file self (λ f,
    QMLifyFile.set_header
      (QMLifyFile.header f +:+ ".import Quickly 0.1 as QML_Quickly" +:+ nl) f) in
  let* _ := modify_file self (λ f,
    QMLifyFile.set_post_header
      (QMLifyFile.post_header f
       +:+ "var _Polyfills = QML_Quickly.Polyfills.global" +:+ nl) f) in
  for_each polyfills (λ polyfill,
    modify_file self (λ f,
      QMLifyFile.set_post_header
        (QMLifyFile.post_header f
         +:+ "var " +:+ polyfill +:+ " = _Polyfills." +:+ polyfill +:+ nl) f)).

(** The line [export_globals] adds for a name. *)
Definition global_declaration (name : string) : string :=
  "var " +:+ name +:+ " = global." +:+ name +:+ ";" +:+ nl.

(** The names [export_globals] declares, in the order of its loop. *)
Definition exported_names (w : World) (f : QMLifyFile.t) : list string :=
  filter (λ name, name ∉ QMLifyFile.imported_globals f)
         (iterate w (QMLifyFile.globals f)).

(** The text of the declarations of a list of names. *)
Definition declarations (names : list string) : string :=
  foldr (λ name acc, global_declaration name +:+ acc) "" names.

(** [QMLifyFile.export_globals()]. *)
Definition export_globals (self : nat) : M unit :=
  let* w := get_world in
  let* names := (let* f := get_file self in ret (iterate w (QMLifyFile.globals f))) in
  for_each names (λ name,
    let* f := get_file self in
    if bool_decide (name ∉ QMLifyFile.imported_globals f) then
      modify_file self (λ f,
        QMLifyFile.set_footer (QMLifyFile.footer f +:+ global_declaration name) f)
    else ret tt).

(** [QMLifyFile.replace(regex, replacement)] with a template. *)
Definition replace_template (self : nat) (p : Re.pattern) (template : list Re.piece)
    : M unit :=
  modify_file self (λ f, QMLifyFile.set_text (Re.sub p template (QMLifyFile.text f)) f).

(** [re.sub] with a function: it is called at each match, leftmost first. *)
Fixpoint sub_with (segs : list (string * Re.rmatch)) (tail : string)
    (replacement : Re.rmatch → M string) : M string :=
  match segs with
  | [] => ret tail
  | (pre, m) :: rest =>
      let* r := replacement m in
      let* acc := sub_with rest tail replacement in
      ret (pre +:+ r +:+ acc)
  end.

(** [QMLifyFile.replace(regex, replacement)] with a function. *)
Definition replace_with (self : nat) (p : Re.pattern)
    (replacement : Re.rmatch → M string) : M unit :=
  let* f := get_file self in
  let '(segs, tail) := Re.segments p (QMLifyFile.text f) in
  let* new_text := sub_with segs tail replacement in
  modify_file self (QMLifyFile.set_text new_text).

(** [QMLifyFile.fix_exports()]. *)
Definition fix_exports (self : nat) : M unit :=
  let* _ := replace_template self export_import
    [Re.Text "var "; Re.Ref 1; Re.Text " = exports."; Re.Ref 1; Re.Text " = ";
     Re.Ref 2; Re.Text "."; Re.Ref 1; Re.Text ";"] in
  replace_template self export_default_import
    [Re.Text "var "; Re.Ref 1; Re.Text " = exports."; Re.Ref 1; Re.Text " = ";
     Re.Ref 2; Re.Text ".default;"].

(** What [add_dependency] is given: a [QMLifyFile] object or a name. *)
Inductive dependency :=
| DepFile (object : nat)
| DepName (name : string).

(** The split of [import_path.split('/', 1)]. *)
Fixpoint split_first (s : string) (ch : ascii) : string * string :=
  match s with
  | EmptyString => (EmptyString, EmptyString)
  | String c s' =>
      if decide (c = ch) then (EmptyString, s')
      else let '(a, b) := split_first s' ch in (String c a, b)
  end.

Section Methods.

(** [fuel] bounds the stack left to the cycle check and [build_rec] is
    [QMLifyFile.build] on the stack that is left. *)
Context (fuel : nat) (build_rec : nat → M unit).

(** [QMLify.register_dependency(filename, dependency)]. *)
Definition QMLify_register_dependency (filename dependency : string) : M unit :=
  λ st,
    let '(m, outcome) :=
      Graph.register_dependency fuel (QMLify.dependency_map (qmlify st))
        filename dependency in
    (match outcome with
     | Graph.Returned => Ok tt
     | Graph.DependencyCycle chain => Raise (DependencyCycle chain)
     | Graph.RecursionError => Raise RecursionError
     end,
     set_qmlify (QMLify.set_dependency_map m (qmlify st)) st).

(** The line [add_dependency] adds to the prologue for a global of the
    dependency. *)
Definition global_import (name import_as : string) : string :=
  "var " +:+ name +:+ " = global." +:+ name +:+ " = " +:+ import_as
  +:+ ".global." +:+ name +:+ ";" +:+ nl.

(** The lines for a list of names. *)
Definition global_imports (import_as : string) (names : list string) : string :=
  foldr (λ name acc, global_import name import_as +:+ acc) "" names.

(** What [add_dependency] does to the requiring object [f] when given the
    object [d]: lines in the prologue for the globals of [d] not imported
    yet, both sets of names enlarged, one more dependency. *)
Definition with_dependency (w : World) (d : QMLifyFile.t) (import_as : string)
    (f : QMLifyFile.t) : QMLifyFile.t :=
  QMLifyFile.set_dependencies (QMLifyFile.dependencies f ++ [QMLifyFile.filename d])
    (QMLifyFile.set_imported_globals
       (QMLifyFile.imported_globals f ∪ QMLifyFile.globals d)
       (QMLifyFile.set_globals (QMLifyFile.globals f ∪ QMLifyFile.globals d)
          (QMLifyFile.set_post_header
             (QMLifyFile.post_header f +:+
              global_imports import_as
                (filter (λ name, name ∉ QMLifyFile.imported_globals f)
                   (iterate w (QMLifyFile.globals d)))) f))).

(** [QMLifyFile.add_dependency(dependency, import_as)]. *)
Definition add_dependency (self : nat) (dep : dependency) (import_as : string)
    : M unit :=
  let* filename :=
    match dep with
    | DepFile object =>
        let* d := get_file object in
        let* w := get_world in
        let* _ := for_each (iterate w (QMLifyFile.globals d)) (λ name,
          let* f := get_file self in
          if bool_decide (name ∉ QMLifyFile.imported_globals f) then
            modify_file self (λ f,
              QMLifyFile.set_post_header
                (QMLifyFile.post_header f +:+ global_import name import_as) f)
          else ret tt) in
        let* _ := modify_file self (λ f,
          QMLifyFile.set_globals (QMLifyFile.globals f ∪ QMLifyFile.globals d) f) in
        let* _ := modify_file self (λ f,
          QMLifyFile.set_imported_globals
            (QMLifyFile.imported_globals f ∪ QMLifyFile.globals d) f) in
        ret (QMLifyFile.filename d)
    | DepName name => ret name
    end in
  let* _ := modify_file self (λ f,
    QMLifyFile.set_dependencies (QMLifyFile.dependencies f ++ [filename]) f) in
  let* f := get_file self in
  QMLify_register_dependency (QMLifyFile.out_filename f) filename.

(** [QMLifyFile.require_local(filename, import_as)]. *)
Definition require_local (self : nat) (filename import_as : string) : M string :=
  if Str.contains filename ".js" then
    raise (Exception
      ("Don't include the .js file extension when importing/requiring: " +:+ filename))
  else
    let filename := filename +:+ ".js" in
    let* f := get_file self in
    let* w := get_world in
    let dependency :=
      posixpath.abspath (cwd w) (posixpath.join (QMLifyFile.dirname f) [filename]) in
    let* qmlified_file :=
      QMLifyFile_init dependency (QMLifyFile.base_dir f)
        (Some (QMLifyFile.build_dir f)) (Some (QMLifyFile.use_babel f)) in
    let* _ := build_rec qmlified_file in
    let* _ := add_dependency self (DepFile qmlified_file) import_as in
    let* _ := modify_file self (λ f,
      QMLifyFile.set_header
        (QMLifyFile.header f +:+ ".import " +:+ dquote +:+ filename +:+ dquote
         +:+ " as " +:+ import_as +:+ nl) f) in
    ret (import_as +:+ ".module.exports").

(** [NPMModule.src_dirname], [dirname], [exists], [main] and
    [main_filename]. *)
Definition NPMModule_src_dirname (w : World) (q : QMLify.t) (name : string) : string :=
  posixpath.abspath (cwd w) (posixpath.join (QMLify.base_dir q) ["node_modules"; name]).

Definition NPMModule_dirname (w : World) (q : QMLify.t) (name : string) : string :=
  posixpath.abspath (cwd w) (posixpath.join (QMLify.build_dir q) ["dependencies"; name]).

Definition NPMModule_exists (w : World) (q : QMLify.t) (name : string) : bool :=
  path_exists w (NPMModule_src_dirname w q name).

Definition NPMModule_main (module : NPMModule.t) : result string :=
  match NPMModule.package_info module with
  | Some main => Ok (default "index.js" main)
  | None => Raise AttributeError
  end.

(** [NPMModule.__init__(qmlify, name)]. *)
Definition NPMModule_init (name : string) : M NPMModule.t :=
  let* w := get_world in
  let* q := get_qmlify in
  if NPMModule_exists w q name then
    let package_file := posixpath.join (NPMModule_src_dirname w q name) ["package.json"] in
    let* source := lift (read_text w package_file) in
    match json_main w source with
    | Some main => ret {| NPMModule.name := name; NPMModule.package_info := Some main |}
    | None => raise JSONDecodeError
    end
  else ret {| NPMModule.name := name; NPMModule.package_info := None |}.

(** [NPMModule.require(filename=None)]. *)
Definition NPMModule_require (module : NPMModule.t) (filename : option string) : M nat :=
  let* w := get_world in
  let* q := get_qmlify in
  let* filename :=
    match filename with
    | Some filename => ret filename
    | None => lift (NPMModule_main module)
    end in
  let src_dirname := NPMModule_src_dirname w q (NPMModule.name module) in
  let filename := posixpath.abspath (cwd w) (posixpath.join src_dirname [filename]) in
  let* file := QMLifyFile_init filename src_dirname
                 (Some (NPMModule_dirname w q (NPMModule.name module))) (Some false) in
  let* _ := build_rec file in
  ret file.

(** [QMLifyFile.require_npm(import_path, import_as)]. *)
Definition require_npm (self : nat) (import_path import_as : string)
    : M (option string) :=
  let '(module_name, filename) :=
    if Str.contains import_path "/" then
      let '(module_name, filename) := split_first import_path "/" in
      (module_name, Some (filename +:+ ".js"))
    else (import_path, None) in
  let* q := get_qmlify in
  let* found :=
    match QMLify.modules q !! module_name with
    | Some module => ret (Some module)
    | None =>
        let* module := NPMModule_init module_name in
        let* w := get_world in
        if negb (NPMModule_exists w q module_name) then ret None
        else
          let* _ := modify_qmlify (λ q,
            QMLify.set_modules (<[module_name := module]> (QMLify.modules q)) q) in
          ret (Some module)
    end in
  match found with
  | None => ret None
  | Some module =>
      let* w := get_world in
      let* (filename, qmlified_file) :=
        match filename with
        | None =>
            let* main := lift (NPMModule_main module) in
            let filename :=
              posixpath.abspath (cwd w)
                (posixpath.join (NPMModule_dirname w q (NPMModule.name module)) [main]) in
            let* qmlified_file := NPMModule_require module None in
            ret (filename, qmlified_file)
        | Some filename =>
            let* qmlified_file := NPMModule_require module (Some filename) in
            ret (filename, qmlified_file)
        end in
      let* _ := add_dependency self (DepFile qmlified_file) import_as in
      let* f := get_file self in
      let* w := get_world in
      match posixpath.relpath (cwd w) filename (QMLifyFile.out_dirname f) with
      | None => raise ValueError
      | Some rel_filename =>
          let* _ := modify_file self (λ f,
            QMLifyFile.set_header
              (QMLifyFile.header f +:+ ".import " +:+ dquote +:+ rel_filename +:+ dquote
               +:+ " as " +:+ import_as +:+ nl) f) in
          ret (Some (import_as +:+ ".module.exports"))
      end
  end.

(** [QMLifyFile.require_qpm(import_path, import_as)]. *)
Definition require_qpm (self : nat) (import_path import_as : string)
    : M (option string) :=
  ret None.

(** [QMLifyFile.parse_import(import_path)].  The local [version] is bound
    only by the two conditional assignments; once bound it may be [None],
    the null version of the manifest. *)
Definition parse_import (import_path : string)
    : M (string * string * option string) :=
  let* w := get_world in
  let* q := get_qmlify in
  match available_modules w !! import_path with
  | None => raise (KeyError import_path)
  | Some module =>
      let* (module, version) :=
        if Str.contains module " " then
          match Str.split module " " with
          | [module; version] => ret (module, Some (Some version))
          | _ => raise ValueError
          end
        else ret (module, None) in
      let version :=
        match QMLify.package_info q !! import_path with
        | Some version => Some version
        | None => version
        end in
      match version with
      | None => raise (UnboundLocalError "version")
      | Some version =>
          let* _ :=
            match version with
            | None =>
                print ("No version specified and latest version not specified: "
                       +:+ import_path)
            | Some _ => ret tt
            end in
          match Str.split module "/" with
          | [qml_module; qml_type] => ret (qml_module, qml_type, version)
          | _ => raise ValueError
          end
      end
  end.

(** [str.format] of a version. *)
Definition format_version (version : option string) : string :=
  default "None" version.

(** [QMLifyFile.require_qml(import_path, import_as)]. *)
Definition require_qml (self : nat) (import_path import_as : string)
    : M (option string) :=
  let* w := get_world in
  if bool_decide (is_Some (available_modules w !! import_path)) then
    let* (qml_module, qml_type, version) := parse_import import_path in
    let* _ := add_dependency self (DepName import_path) import_as in
    let* _ := modify_file self (λ f,
      QMLifyFile.set_header
        (QMLifyFile.header f +:+ ".import " +:+ qml_module +:+ " "
         +:+ format_version version +:+ " as " +:+ import_as +:+ nl) f) in
    let type := import_as +:+ "." +:+ qml_type in
    ret (Some ("(" +:+ type +:+ ".module ? " +:+ type +:+ ".module.exports : "
               +:+ type +:+ ")"))
  else ret None.

(** [QMLifyFile.require(import_path, import_as)].  The three messages of
    the last two branches are built from [module_name], a name that is
    bound nowhere in the method or the module. *)
Definition require (self : nat) (import_path import_as : string) : M string :=
  if Str.startswith import_path "./" || Str.startswith import_path "../" then
    require_local self import_path import_as
  else if Str.contains import_path ".js" then
    raise (NameError "module_name")
  else
    let* require := require_npm self import_path import_as in
    let* require :=
      match require with
      | None => require_qpm self import_path import_as
      | Some _ => ret require
      end in
    let* require :=
      match require with
      | None => require_qml self import_path import_as
      | Some _ => ret require
      end in
    match require with
    | Some require => ret require
    | None =>
        let* f := get_file self in
        let* w := get_world in
        if path_exists w (posixpath.join (QMLifyFile.dirname f) [import_path +:+ ".js"])
        then raise (NameError "module_name")
        else raise (NameError "module_name")
    end.

(** [QMLifyFile.replace_require(match)]. *)
Definition replace_require (self : nat) (m : Re.rmatch) : M string :=
  let require_as := bool_decide (length (Re.groups m) = 2) in
  let name := default "" (Re.groups m !! 0) in
  let '(import_path, import_as) :=
    if require_as then
      (default "" (Re.groups m !! 1),
       if Str.startswith name "_" then "QML" +:+ name else "QML_" +:+ name)
    else (name, module_var name) in
  let* require := require self import_path import_as in
  if require_as then ret ("var " +:+ name +:+ " = " +:+ require +:+ ";" +:+ nl)
  else ret require.

(** [QMLifyFile.build_imports()]. *)
Definition build_imports (self : nat) : M unit :=
  let* _ := replace_with self require_as (replace_require self) in
  let* f := get_file self in
  let* _ := for_each (Re.finditer require_effects (QMLifyFile.text f)) (λ m,
    let* _ := replace_require self m in ret tt) in
  let* _ := replace_template self (require_effects_between nl nl) [Re.Text (nl +:+ nl)] in
  let* _ := replace_template self (require_effects_between "" nl) [Re.Text nl] in
  let* _ := replace_template self (require_effects_between nl "") [Re.Text nl] in
  let* _ := replace_template self require_effects [Re.Text nl] in
  replace_with self require_re (replace_require self).

(** [QMLifyFile.build()]. *)
Definition QMLifyFile_build (self : nat) : M unit :=
  let* f := get_file self in
  let* w := get_world in
  let* stale := lift (needs_build w f) in
  if negb stale then
    if Str.endswith (QMLifyFile.filename f) ".js" then QMLifyFile_load_cache self
    else ret tt
  else
    let* _ := print (" - " +:+ QMLifyFile.filename f) in
    let* _ :=
      if negb (path_exists w (QMLifyFile.out_dirname f)) then
        if bool_decide (QMLifyFile.out_dirname f = "") then raise (OSError "")
        else modify_world (λ w, set_nodes (makedirs_nodes w (QMLifyFile.out_dirname f)) w)
      else ret tt in
    if negb (Str.endswith (QMLifyFile.filename f) ".js") then
      copy (QMLifyFile.filename f) (QMLifyFile.out_filename f)
    else
      let* text :=
        if QMLifyFile.use_babel f then babelify self
        else let* w := get_world in lift (read_text w (QMLifyFile.filename f)) in
      let* _ := modify_file self (QMLifyFile.set_text text) in
      let* _ := modify_file self (λ f,
        QMLifyFile.set_globals
          (QMLifyFile.globals f ∪ list_to_set (Re.findall global_read text)) f) in
      let* _ := modify_file self (QMLifyFile.set_header (".pragma library" +:+ nl)) in
      let* _ := modify_file self
        (QMLifyFile.set_post_header (post_header_format (QMLifyFile.basename f) +:+ nl)) in
      let* _ := modify_file self (QMLifyFile.set_footer "") in
      let* q := get_qmlify in
      let* _ := if QMLify.use_polyfills q then add_polyfills self else ret tt in
      let* _ := build_imports self in
      let* _ := fix_exports self in
      let* _ := export_globals self in
      let* _ := modify_file self (λ f,
        QMLifyFile.set_header
          (QMLifyFile.header f +:+ nl +:+ Str.strip (QMLifyFile.post_header f) +:+ nl) f) in
      let* _ := modify_file self (λ f,
        QMLifyFile.set_text
          (QMLifyFile.header f +:+ nl +:+ QMLifyFile.text f +:+ QMLifyFile.footer f) f) in
      let* _ := modify_file self (λ f,
        QMLifyFile.set_text (Str.strip (QMLifyFile.text f) +:+ nl) f) in
      let* f := get_file self in
      let* _ := modify_world (write_text (QMLifyFile.out_filename f) (QMLifyFile.text f)) in
      let* _ := modify_qmlify (λ q,
        QMLify.set_files (<[QMLifyFile.filename f := self]> (QMLify.files q)) q) in
      let* _ := QMLifyFile_save_cache self in
      QMLify_save_cache.

End Methods.

(** [QMLifyFile.build()], with [fuel] for the stack: a nested build gets
    what is left. *)
Fixpoint build (fuel : nat) (self : nat) : M unit :=
  match fuel with
  | O => raise RecursionError
  | S fuel' => QMLifyFile_build fuel' (build fuel') self
  end.

(** [QMLify.__init__(build_dir, package_info, use_polyfills, use_babel)],
    with the manifest already read; it runs in an environment [w]. *)
Definition QMLify_init (build_dir : string) (package_info : gmap string (option string))
    (use_polyfills use_babel : bool) (w : World) : result unit * state :=
  QMLify_load_cache
    {| qmlify := {| QMLify.build_dir := build_dir;
                    QMLify.use_polyfills := use_polyfills;
                    QMLify.use_babel := use_babel;
                    QMLify.dependency_map := ∅;
                    QMLify.modules := ∅;
                    QMLify.base_dir := cwd w;
                    QMLify.files := ∅;
                    QMLify.package_info := package_info;
                    QMLify.cache := ∅ |};
       heap := [];
       world := w |}.

(** [QMLify.build(path, base_dir)] for a [path] that is a file; the walk
    over a directory calls it for each file found. *)
Definition QMLify_build (fuel : nat) (path : string) (base_dir : option string)
    : M nat :=
  let base_dir := default (posixpath.dirname path) base_dir in
  let* file := QMLifyFile_init path base_dir None None in
  let* _ := build fuel file in
  ret file.

(** ** Places to write to *)

(** A place [p] where a file can be written once the directory [dir] has
    been made: [p] is no directory and none of the directories to make,
    and no regular file lies where one of these is to be. *)
Definition writable (w : World) (dir p : string) : Prop :=
  isdir w p = false ∧
  (posixpath.abspath (cwd w) p ∉ ancestors w dir) ∧
  Forall (λ d, isfile w d = false) (ancestors w dir).

#[global] Instance writable_dec w dir p : Decision (writable w dir p).
Proof. unfold writable. apply _. Defined.

(** ** The names of the dependency map *)

(** The map is keyed by output paths and lists file names: in a session
    whose build directory is absolute the keys are absolute, while the
    names of the files, as [relpath] gives them, and the names of the
    registered modules are not. *)
Definition separated (st : state) : Prop :=
  map_Forall (λ k _, posixpath.isabs k = true) (QMLify.dependency_map (qmlify st)) ∧
  Forall (λ f, posixpath.isabs (QMLifyFile.filename f) = false ∧
               posixpath.isabs (QMLifyFile.build_dir f) = true ∧
               posixpath.isabs (QMLifyFile.out_filename f) = true) (heap st) ∧
  posixpath.isabs (QMLify.build_dir (qmlify st)) = true ∧
  map_Forall (λ k _, posixpath.isabs k = false) (available_modules (world st)).

#[global] Instance separated_dec st : Decision (separated st).
Proof. unfold separated. apply _. Defined.

(** ... with at least [n] objects allocated. *)
Definition within (n : nat) (st : state) : Prop :=
  separated st ∧ n ≤ length (heap st).

(** From a state in [P] the computation [m] returns in a state in [Q], or
    raises something that is no [DependencyCycle]. *)
Definition tr {A} (P : state → Prop) (m : M A) (Q : A → state → Prop) : Prop :=
  ∀ st, P st →
    match m st with
    | (Ok a, st') => Q a st'
    | (Raise e, _) => ∀ chain, e ≠ DependencyCycle chain
    end.

(** ** What a method touches *)

(** With at least [n] objects allocated before, they are still there
    after; those below [n] other than [i] are as they were, and the
    object [i] is related to what it was by [φ]. *)
Definition frame (n i : nat) (φ : QMLifyFile.t → QMLifyFile.t → Prop)
    (st st' : state) : Prop :=
  n ≤ length (heap st) →
  n ≤ length (heap st') ∧
  (∀ j, j < n → j ≠ i → heap st' !! j = heap st !! j) ∧
  (i < n → φ (heap st !!! i) (heap st' !!! i)).

(** A computation that, whether it returns or raises, touches no object
    below [n] but [i], and that one within [φ]. *)
Definition touches {A} (n i : nat) (φ : QMLifyFile.t → QMLifyFile.t → Prop)
    (m : M A) : Prop :=
  ∀ st, frame n i φ st (m st).2.

(** Two relations on an object: any change, and a change that leaves the
    footer alone. *)
Definition any_change (f f' : QMLifyFile.t) : Prop := True.

Definition keeps_footer (f f' : QMLifyFile.t) : Prop :=
  QMLifyFile.footer f' = QMLifyFile.footer f.

(** A change that leaves alone what the footer is made of and from. *)
Definition keeps_exports (f f' : QMLifyFile.t) : Prop :=
  QMLifyFile.footer f' = QMLifyFile.footer f ∧
  QMLifyFile.globals f' = QMLifyFile.globals f ∧
  QMLifyFile.imported_globals f' = QMLifyFile.imported_globals f.

(** ** Example projects *)

Module Scenario.

(** A project in [/w]: nothing is installed, nothing is registered, there
    is no cache file yet, and what the run writes is newer than the
    sources and than the script. *)
Definition project (sources : gmap string node) (cache_file : option yaml_doc) : World :=
  {| cwd := "/w";
     nodes := sources;
     now := 100;
     script_mtime := 5;
     babel := λ source, Some source;
     json_main := λ _, Some None;
     cache_yaml := cache_file;
     available_modules := ∅;
     str_hash := String.length;
     stdout := [] |}.

(** The session [qmlify build <path> build --no-polyfills --no-babel]
    creates, and its build of [path]. *)
Definition run (w : World) (path : string) : result nat * state :=
  match QMLify_init "/w/build" ∅ false false w with
  | (Ok _, st) => QMLify_build 5 path None st
  | (Raise e, st) => (Raise e, st)
  end.

(** [src/a.js] requires [./foo] twice; [src/foo.js] requires nothing. *)
Definition a_js : string :=
  "var x = require('./foo').x;" +:+ nl +:+
  "var y = require('./foo').y;" +:+ nl +:+
  "global.shared = x + y + global.own;" +:+ nl.

Definition foo_js : string :=
  "global.shared = 1;" +:+ nl +:+ "exports.x = 1;" +:+ nl.

Definition twice : World :=
  project (<["/w/src/a.js" := RegularFile 10 a_js]>
             (<["/w/src/foo.js" := RegularFile 10 foo_js]> ∅)) None.

(** [src/main.js] requires [lodash], which is nowhere; in the second
    project a file [lodash.js] lies next to it. *)
Definition main_js : string := "var _ = require('lodash');" +:+ nl.

Definition unresolved : World :=
  project (<["/w/src/main.js" := RegularFile 10 main_js]> ∅) None.

Definition unresolved_sibling : World :=
  project (<["/w/src/main.js" := RegularFile 10 main_js]>
             (<["/w/src/lodash.js" := RegularFile 10 foo_js]> ∅)) None.

(** The output of [src/foo.js] is up to date, and the cache file is there
    but has no entry for it. *)
Definition fresh_without_entry : World :=
  project (<["/w/src/foo.js" := RegularFile 10 foo_js]>
             (<["/w/build/foo.js" := RegularFile 50 foo_js]> ∅))
          (Some (YamlMapping (Some ∅))).

(** The same with no cache file at all. *)
Definition fresh_without_cache : World :=
  project (<["/w/src/foo.js" := RegularFile 10 foo_js]>
             (<["/w/build/foo.js" := RegularFile 50 foo_js]> ∅)) None.

(** The same with an entry. *)
Definition foo_entry : cache_entry :=
  {| entry_dependencies := ["bar.js"]; entry_globals := ["shared"] |}.

Definition fresh_with_entry : World :=
  project (<["/w/src/foo.js" := RegularFile 10 foo_js]>
             (<["/w/build/foo.js" := RegularFile 50 foo_js]> ∅))
          (Some (YamlMapping (Some (<["src/foo.js" := foo_entry]> ∅)))).

(** The output of [src/foo.js] and its cache entry are there, the file
    itself is gone, and [qmlify.py] is newer than the output. *)
Definition orphan : World :=
  {| cwd := "/w";
     nodes := <["/w/build/foo.js" := RegularFile 50 foo_js]> ∅;
     now := 100;
     script_mtime := 60;
     babel := λ source, Some source;
     json_main := λ _, Some None;
     cache_yaml := Some (YamlMapping (Some (<["src/foo.js" := foo_entry]> ∅)));
     available_modules := ∅;
     str_hash := String.length;
     stdout := [] |}.

(** The cache file does not parse. *)
Definition corrupt_cache : World :=
  project (<["/w/src/foo.js" := RegularFile 10 foo_js]> ∅) (Some YamlInvalid).


(** An asset that was never built. *)
Definition asset : World :=
  project (<["/w/src/logo.png" := RegularFile 10 "PNG"]> ∅) None.

(** The same asset, with a [qmlify.py] that is newer than it. *)
Definition asset_new_script : World :=
  {| cwd := "/w";
     nodes := <["/w/src/logo.png" := RegularFile 10 "PNG"]> ∅;
     now := 100;
     script_mtime := 50;
     babel := λ source, Some source;
     json_main := λ _, Some None;
     cache_yaml := None;
     available_modules := ∅;
     str_hash := String.length;
     stdout := [] |}.

(** A project without the file that is to be built. *)
Definition nothing : World := project ∅ None.

(** The modules two installed [quickly.yml] files export: one with a
    version, one without. *)
Definition exporting : World :=
  {| cwd := "/w";
     nodes := <["/w/src/main.js" := RegularFile 10 main_js]> ∅;
     now := 100;
     script_mtime := 5;
     babel := λ source, Some source;
     json_main := λ _, Some None;
     cache_yaml := None;
     available_modules :=
       <["material" := "Material/MaterialJS 0.1"]> (<["lodash" := "Lodash/Lodash"]> ∅);
     str_hash := String.length;
     stdout := [] |}.

(** [src/ping.js] and [src/pong.js] require each other. *)
Definition ping_js : string := "var pong = require('./pong');" +:+ nl.
Definition pong_js : string := "var ping = require('./ping');" +:+ nl.

Definition mutual : World :=
  project (<["/w/src/ping.js" := RegularFile 10 ping_js]>
             (<["/w/src/pong.js" := RegularFile 10 pong_js]> ∅)) None.

(** The session of [run] before its build. *)
Definition session (w : World) : state := (QMLify_init "/w/build" ∅ false false w).2.

(** [src/app.js] reads three globals of its own and requires two files
    that both set [shared], one of which also sets [extra]. *)
Definition app_js : string :=
  "var a = require('./one');" +:+ nl +:+
  "var b = require('./two');" +:+ nl +:+
  "global.first = global.shared + global.second + global.third-one;" +:+ nl.

Definition one_js : string := "global.shared = 1;" +:+ nl.
Definition two_js : string := "global.shared = 2; global.extra = 3;" +:+ nl.

Definition sharing : World :=
  project (<["/w/src/app.js" := RegularFile 10 app_js]>
             (<["/w/src/one.js" := RegularFile 10 one_js]>
                (<["/w/src/two.js" := RegularFile 10 two_js]> ∅))) None.

(** How often [dependency] is listed under [filename] in the map. *)
Definition edge_count (st : state) (filename dependency : string) : nat :=
  length (filter (λ d, d = dependency)
            (default [] (QMLify.dependency_map (qmlify st) !! filename))).

(** How many [QMLifyFile] objects were created for [filename]. *)
Definition records_of (st : state) (filename : string) : nat :=
  length (filter (λ f, QMLifyFile.filename f = filename) (heap st)).

(** The state in which [QMLify.build] calls [build] on the object it has
    created for [path], the object 0. *)
Definition opened (w : World) (path : string) : state :=
  match QMLify_init "/w/build" ∅ false false w with
  | (Ok _, st) => (QMLifyFile_init path (posixpath.dirname path) None None st).2
  | (Raise _, st) => st
  end.

End Scenario.

(** * Part II: properties *)

(** ** The cycle detector *)

Module GraphFacts.
Import Graph.

Section Loop.
Context (body : string → outcome).

Lemma for_each_returned deps :
  for_each deps body = Returned ↔ ∀ d, d ∈ deps → body d = Returned.
Proof.
  induction deps as [|d deps IH]; simpl.
  - split; [intros _ d Hd; inversion Hd | done].
  - destruct (body d) eqn:Hd.
    + rewrite IH. split.
      * intros H x Hx. apply elem_of_cons in Hx as [->|Hx]; auto.
      * intros H x Hx. apply H. by right.
    + split; [done|]. intros H. specialize (H d (list_elem_of_here _ _)). congruence.
    + split; [done|]. intros H. specialize (H d (list_elem_of_here _ _)). congruence.
Qed.

Lemma for_each_cycle deps chain :
  for_each deps body = DependencyCycle chain →
  ∃ d, d ∈ deps ∧ body d = DependencyCycle chain.
Proof.
  induction deps as [|d deps IH]; simpl; [done|].
  destruct (body d) eqn:Hd.
  - intros H. destruct (IH H) as (x & Hx & Hb). exists x. split; [by right|done].
  - intros [= <-]. exists d. split; [by left|done].
  - done.
Qed.

Lemma for_each_no_overflow deps :
  (∀ d, d ∈ deps → body d ≠ RecursionError) →
  for_each deps body ≠ RecursionError.
Proof.
  induction deps as [|d deps IH]; simpl; [done|].
  intros H. pose proof (H d (list_elem_of_here _ _)) as Hd.
  destruct (body d); [|done|done].
  apply IH. intros x Hx. apply H. by right.
Qed.

End Loop.

Lemma for_each_ext deps body1 body2 :
  (∀ d, d ∈ deps → body1 d = body2 d) → for_each deps body1 = for_each deps body2.
Proof.
  induction deps as [|d deps IH]; simpl; [done|].
  intros H. rewrite <- (H d (list_elem_of_here _ _)).
  destruct (body1 d); [|done|done].
  apply IH. intros x Hx. apply H. by right.
Qed.

(** More fuel never changes an outcome that was reached. *)
Lemma check_dependency_mono m target fuel :
  ∀ fuel' name chain, fuel ≤ fuel' →
    check_dependency fuel m name target chain ≠ RecursionError →
    check_dependency fuel' m name target chain = check_dependency fuel m name target chain.
Proof.
  induction fuel as [|fuel IH]; intros fuel' name chain Hle; simpl; [done|].
  destruct fuel' as [|fuel']; [lia|]. simpl.
  destruct (m !! name) as [deps|]; [|done].
  generalize (default [target; name] chain). intros ch.
  induction deps as [|d deps IHd]; simpl; [done|].
  destruct (decide (d = target)); [done|].
  destruct (check_dependency fuel m d target (Some (ch ++ [d]))) eqn:Hd.
  - rewrite IH, Hd; [|lia|congruence]. done.
  - rewrite IH, Hd; [|lia|congruence]. done.
  - done.
Qed.

(** Soundness: a raised chain extends the chain so far, ends at the target,
    and witnesses a path from the node where the traversal started. *)
Lemma check_dependency_cycle m target fuel :
  ∀ name chain c,
    check_dependency fuel m name target chain = DependencyCycle c →
    path m name target ∧
    ∃ mid, c = default [target; name] chain ++ mid ++ [target].
Proof.
  induction fuel as [|fuel IH]; intros name chain c; simpl; [done|].
  destruct (m !! name) as [deps|] eqn:Hm; [|done].
  intros H. apply for_each_cycle in H as (d & Hd & H).
  destruct (decide (d = target)) as [->|Hne].
  - injection H as <-. split.
    + apply tc_once. by exists deps.
    + by exists [].
  - apply IH in H as [Hp [mid ->]]. split.
    + eapply tc_l; [|exact Hp]. by exists deps.
    + exists (d :: mid). simpl. by rewrite <- app_assoc.
Qed.

(** The part of a raised chain past the first entry is a walk of the map. *)
Lemma walk_snoc m l a b :
  walk m (l ++ [a]) → last (l ++ [a]) = Some a → edge m a b → walk m ((l ++ [a]) ++ [b]).
Proof.
  intros Hw _ He. induction l as [|x l IH]; simpl in *.
  - done.
  - destruct l as [|y l]; simpl in *.
    + destruct Hw as [Hxa _]. done.
    + destruct Hw as [Hxy Hw]. split; [done|]. by apply IH.
Qed.

Lemma check_dependency_walk m target fuel :
  ∀ name pre c,
    walk m (pre ++ [name]) →
    check_dependency fuel m name target (Some (target :: pre ++ [name])) = DependencyCycle c →
    ∃ w, c = target :: w ∧ walk m w ∧ last w = Some target.
Proof.
  induction fuel as [|fuel IH]; intros name pre c Hw; simpl; [done|].
  destruct (m !! name) as [deps|] eqn:Hm; [|done].
  intros H. apply for_each_cycle in H as (d & Hd & H).
  assert (walk m ((pre ++ [name]) ++ [d])) as Hw'.
  { apply walk_snoc; [done|by rewrite last_snoc|by exists deps]. }
  destruct (decide (d = target)) as [->|Hne].
  - injection H as <-. exists ((pre ++ [name]) ++ [target]).
    split; [done|]. split; [done|]. by rewrite last_snoc.
  - change (target :: pre ++ [name]) with ((target :: pre) ++ [name]) in H.
    rewrite <- app_assoc in H. simpl in H.
    specialize (IH d (pre ++ [name]) c). apply IH; [done|].
    by rewrite <- app_assoc.
Qed.

(** Completeness: a traversal that returns has found no path to the target. *)
Lemma check_dependency_returned m target fuel :
  ∀ name chain,
    check_dependency fuel m name target chain = Returned → ¬ path m name target.
Proof.
  induction fuel as [|fuel IH]; intros name chain; simpl; [done|].
  destruct (m !! name) as [deps|] eqn:Hm.
  - intros H Hp. rewrite for_each_returned in H.
    assert (∃ d, d ∈ deps ∧ (d = target ∨ path m d target)) as (d & Hd & Hcase).
    { inversion Hp as [? ? [ds [Hds Hin]]|? y ? [ds [Hds Hin]] Hrest]; subst;
        rewrite Hm in Hds; injection Hds as <-; eauto. }
    specialize (H d Hd). simpl in H.
    destruct (decide (d = target)) as [->|Hne]; [done|].
    destruct Hcase as [?|Hp']; [done|]. by eapply IH.
  - intros _ Hp.
    inversion Hp as [? ? [ds [Hds _]]|? ? ? [ds [Hds _]] _]; congruence.
Qed.

(** A list without repetition drawn from the keys of a map is no longer
    than the map is large. *)
Lemma NoDup_keys_length {V} (m : gmap string V) (l : list string) :
  NoDup l → (∀ a, a ∈ l → is_Some (m !! a)) → length l ≤ size m.
Proof.
  intros Hnd Hin.
  rewrite <- (size_dom m). unfold size, set_size. simpl.
  apply submseteq_length, NoDup_submseteq; [done|].
  intros a Ha. apply elem_of_elements, elem_of_dom. auto.
Qed.

(** Termination: with the ancestors [anc] on the call stack, the traversal
    needs a stack no deeper than the number of keys not yet on it. *)
Lemma check_dependency_depth m target n :
  ∀ anc name chain,
    NoDup anc →
    (∀ a, a ∈ anc → is_Some (m !! a)) →
    (∀ a, a ∈ anc → tc (descend m target) a name) →
    (∀ x, rtc (descend m target) name x → ¬ tc (descend m target) x x) →
    size m ≤ n + length anc →
    check_dependency (S n) m name target chain ≠ RecursionError.
Proof.
  induction n as [|n IH]; intros anc name chain Hnd Hdom Hanc Hacyc Hsize.
  - simpl. destruct (m !! name) as [deps|] eqn:Hm; [|done].
    exfalso.
    assert (name ∉ anc) as Hfresh.
    { intros Hin. by apply (Hacyc name), Hanc. }
    assert (length (name :: anc) ≤ size m) as Hlen.
    { apply NoDup_keys_length; [by constructor|].
      intros a Ha. apply elem_of_cons in Ha as [->|Ha]; eauto. }
    simpl in Hlen. lia.
  - change (check_dependency (S (S n)) m name target chain) with
      (match m !! name with
       | None => Returned
       | Some dependencies =>
           for_each dependencies (λ dep,
             if decide (dep = target)
             then DependencyCycle (default [target; name] chain ++ [dep])
             else check_dependency (S n) m dep target
                    (Some (default [target; name] chain ++ [dep])))
       end).
    destruct (m !! name) as [deps|] eqn:Hm; [|done].
    apply for_each_no_overflow. intros d Hd.
    destruct (decide (d = target)) as [->|Hne]; [done|].
    assert (descend m target name d) as Hstep by (split; [by exists deps|done]).
    assert (name ∉ anc) as Hfresh.
    { intros Hin. by apply (Hacyc name), Hanc. }
    apply (IH (name :: anc)).
    + by constructor.
    + intros a Ha. apply elem_of_cons in Ha as [->|Ha]; eauto.
    + intros a Ha. apply elem_of_cons in Ha as [->|Ha].
      * by apply tc_once.
      * eapply tc_r; [by apply Hanc|done].
    + intros x Hx. apply Hacyc. by eapply rtc_l.
    + simpl. lia.
Qed.

Lemma descend_edge m target a b : descend m target a b → edge m a b.
Proof. by intros [? _]. Qed.

Lemma tc_descend_path m target a b : tc (descend m target) a b → path m a b.
Proof.
  induction 1 as [a b H|a b c H _ IH].
  - apply tc_once. by eapply descend_edge.
  - eapply tc_l; [by eapply descend_edge|done].
Qed.

Lemma rtc_descend_reachable m target a b :
  rtc (descend m target) a b → reachable m a b.
Proof. apply rtc_subrel. intros ? ?. apply descend_edge. Qed.

Lemma check_dependency_terminates_from m target name chain :
  (∀ x, rtc (descend m target) name x → ¬ tc (descend m target) x x) →
  ∀ fuel, size m < fuel → check_dependency fuel m name target chain ≠ RecursionError.
Proof.
  intros Hacyc fuel Hfuel.
  assert (check_dependency (S (size m)) m name target chain ≠ RecursionError) as H.
  { apply (check_dependency_depth m target (size m) []); try done.
    - constructor.
    - intros a Ha. inversion Ha.
    - intros a Ha. inversion Ha.
    - simpl. lia. }
  rewrite (check_dependency_mono m target (S (size m))); [done|lia|done].
Qed.

(** C10: on a (finite) dependency map from which no cycle can be reached
    from the starting node, [check_dependency] terminates: a stack one
    deeper than the number of keys of the map is always enough, whatever
    the target and the chain, although no node is ever marked as visited. *)
Theorem check_dependency_terminates m name target chain :
  no_cycle_from m name →
  terminates m name target chain ∧
  ∀ fuel, size m < fuel → check_dependency fuel m name target chain ≠ RecursionError.
Proof.
  intros Hacyc.
  assert (∀ fuel, size m < fuel →
            check_dependency fuel m name target chain ≠ RecursionError) as H.
  { apply check_dependency_terminates_from.
    intros x Hx Hc. apply (Hacyc x).
    - by eapply rtc_descend_reachable.
    - by eapply tc_descend_path. }
  split; [|done].
  exists (S (size m)). intros fuel' Hle. apply H. lia.
Qed.

(** A rank that decreases along every edge rules out cycles. *)
Lemma ranked_edge rank m a b : ranked rank m → edge m a b → rank b < rank a.
Proof.
  intros Hr (deps & Hm & Hin). specialize (Hr a deps Hm). simpl in Hr.
  rewrite Forall_forall in Hr. by apply Hr.
Qed.

Lemma ranked_path rank m a b : ranked rank m → path m a b → rank b < rank a.
Proof.
  intros Hr Hp. induction Hp as [a b He|a b c He _ IH].
  - by eapply ranked_edge.
  - pose proof (ranked_edge rank m a b Hr He). lia.
Qed.

Lemma ranked_no_cycle rank m start : ranked rank m → no_cycle_from m start.
Proof.
  intros Hr x _ Hp. pose proof (ranked_path rank m x x Hr Hp). lia.
Qed.


(** *** Registering an edge *)

Lemma lookup_add_edge_eq m filename dependency :
  add_edge m filename dependency !! filename
  = Some (default [] (m !! filename) ++ [dependency]).
Proof.
  unfold add_edge. rewrite lookup_insert_eq.
  destruct (m !! filename) eqn:Hm; simpl.
  - by rewrite Hm.
  - by rewrite lookup_insert_eq.
Qed.

Lemma lookup_add_edge_ne m filename dependency x :
  x ≠ filename → add_edge m filename dependency !! x = m !! x.
Proof.
  intros Hne. unfold add_edge. rewrite lookup_insert_ne by done.
  destruct (m !! filename); [done|]. by rewrite lookup_insert_ne.
Qed.

Lemma edge_add_edge m filename dependency a b :
  edge (add_edge m filename dependency) a b
  ↔ edge m a b ∨ (a = filename ∧ b = dependency).
Proof.
  unfold edge. destruct (decide (a = filename)) as [->|Hne].
  - rewrite lookup_add_edge_eq. split.
    + intros (deps & [= <-] & Hin). apply elem_of_app in Hin as [Hin|Hin].
      * left. destruct (m !! filename) as [old|]; simpl in Hin; [eauto|].
        inversion Hin.
      * right. apply list_elem_of_singleton in Hin. done.
    + intros [(deps & Hm & Hin)|[_ ->]].
      * eexists. split; [done|]. rewrite Hm. simpl. apply elem_of_app. by left.
      * eexists. split; [done|]. apply elem_of_app. right. by left.
  - rewrite lookup_add_edge_ne by done. split; [by left|].
    intros [?|[? _]]; done.
Qed.

(** The default chain of the outermost call, spelled out. *)
Lemma check_dependency_default m fuel name target :
  check_dependency fuel m name target None
  = check_dependency fuel m name target (Some [target; name]).
Proof. by destruct fuel. Qed.

Section Register.
Context (m : dependency_map) (filename dependency : string).
Let m' := add_edge m filename dependency.

(** The traversal only follows edges that were there before the insertion:
    the new edge leaves [filename], which the traversal never expands
    unless it starts there, and then the new edge ends at the target. *)
Lemma descend_old a b :
  descend m' filename a b → (a = filename → dependency = filename) → edge m a b.
Proof.
  intros [He Hb] Ha. apply edge_add_edge in He as [He|[-> ->]]; [done|].
  by destruct Hb, Ha.
Qed.

Lemma descend_reach_old x :
  rtc (descend m' filename) dependency x →
  reachable m dependency x ∧ (x = filename → dependency = filename).
Proof.
  intros H. revert x H. apply rtc_ind_r.
  - split; [apply rtc_refl|done].
  - intros y z Hy Hyz [IH1 IH2]. split.
    + eapply rtc_r; [done|]. by apply descend_old.
    + intros ->. by destruct Hyz as [_ ?].
Qed.

Lemma descend_path_old a b :
  tc (descend m' filename) a b → (a = filename → dependency = filename) → path m a b.
Proof.
  induction 1 as [a b H|a b c H _ IH]; intros Ha.
  - apply tc_once. by apply descend_old.
  - eapply tc_l; [by apply descend_old|]. apply IH. intros ->. by destruct H as [_ ?].
Qed.

Lemma register_dependency_no_overflow :
  no_cycle_from m dependency →
  ∀ fuel chain, size m' < fuel →
    check_dependency fuel m' dependency filename chain ≠ RecursionError.
Proof.
  intros Hacyc fuel chain. apply check_dependency_terminates_from.
  intros x Hx Hc. apply descend_reach_old in Hx as [Hx Hxf].
  apply (Hacyc x Hx). by apply descend_path_old.
Qed.

End Register.

(** C1, as the code has it: when no cycle can be reached from [dependency]
    in the map as it is before the call, [register_dependency(filename,
    dependency)] terminates; it raises [DependencyCycle] if and only if the
    map with the new edge appended has a path from [dependency] back to
    [filename]; and every chain it raises begins and ends at [filename] and
    is a walk of the new map. *)
Theorem register_dependency_cycle_iff m filename dependency :
  no_cycle_from m dependency →
  terminates (add_edge m filename dependency) dependency filename None ∧
  ((∃ chain, raises_cycle m filename dependency chain)
   ↔ path (add_edge m filename dependency) dependency filename) ∧
  (∀ chain, raises_cycle m filename dependency chain →
     head chain = Some filename ∧ last chain = Some filename ∧
     walk (add_edge m filename dependency) chain).
Proof.
  intros Hacyc. set (m' := add_edge m filename dependency).
  pose proof (register_dependency_no_overflow m filename dependency Hacyc) as Hterm.
  fold m' in Hterm.
  split; [|split].
  - exists (S (size m')). intros fuel' Hle. apply Hterm. lia.
  - split.
    + intros (chain & fuel & H). simpl in H.
      by apply check_dependency_cycle in H as [Hp _].
    + intros Hp. specialize (Hterm (S (size m')) None (Nat.lt_succ_diag_r _)).
      destruct (check_dependency (S (size m')) m' dependency filename None) as [|c|] eqn:Hc.
      * by apply check_dependency_returned in Hc.
      * exists c, (S (size m')). done.
      * done.
  - intros chain (fuel & H). simpl in H. fold m' in H.
    rewrite check_dependency_default in H.
    pose proof (check_dependency_walk m' filename fuel dependency [] chain I H)
      as (w & -> & Hw & Hlast).
    apply check_dependency_cycle in H as [_ [mid Hmid]]. simpl in Hmid.
    injection Hmid as ->.
    split; [done|]. split.
    + by rewrite last_cons, Hlast.
    + simpl. split; [|done]. apply edge_add_edge. by right.
Qed.

(** *** Concrete maps *)

Lemma chain_map_ranked : ranked chain_rank chain_map.
Proof. compute_done. Qed.

Example register_closes_cycle :
  register_dependency 5 chain_map "a" "b"
  = (<["a" := ["b"]]> chain_map, DependencyCycle ["a"; "b"; "c"; "a"]).
Proof.
  by vm_compute.
Qed.

Lemma check_dependency_terminates_witness :
  no_cycle_from chain_map "b" ∧
  (terminates chain_map "b" "a" None ∧
   ∀ fuel, size chain_map < fuel →
     check_dependency fuel chain_map "b" "a" None ≠ RecursionError).
Proof.
  split.
  - exact (ranked_no_cycle chain_rank chain_map "b" chain_map_ranked).
  - apply (check_dependency_terminates chain_map "b" "a" None).
    exact (ranked_no_cycle chain_rank chain_map "b" chain_map_ranked).
Defined.

Lemma register_dependency_cycle_iff_witness :
  no_cycle_from chain_map "b" ∧
  (terminates (add_edge chain_map "a" "b") "b" "a" None ∧
   ((∃ chain, raises_cycle chain_map "a" "b" chain)
    ↔ path (add_edge chain_map "a" "b") "b" "a") ∧
   (∀ chain, raises_cycle chain_map "a" "b" chain →
      head chain = Some "a" ∧ last chain = Some "a" ∧
      walk (add_edge chain_map "a" "b") chain)).
Proof.
  split.
  - exact (ranked_no_cycle chain_rank chain_map "b" chain_map_ranked).
  - apply (register_dependency_cycle_iff chain_map "a" "b").
    exact (ranked_no_cycle chain_rank chain_map "b" chain_map_ranked).
Defined.

Lemma looping_map_overflows fuel chain :
  check_dependency fuel (add_edge looping_map "a" "b") "b" "a" chain = RecursionError.
Proof.
  revert chain. induction fuel as [|fuel IH]; intros chain; [done|].
  simpl. rewrite lookup_add_edge_ne by done.
  change (looping_map !! "b") with (Some ["b"; "a"]).
  simpl. destruct (decide ("b" = "a")) as [?|_]; [done|]. by rewrite IH.
Qed.

(** C1 as stated, for every dependency map, fails on [looping_map]: after
    [register_dependency("a", "b")] the map has the path [b], [a], yet the
    traversal first follows the loop at [b] for ever and no
    [DependencyCycle] is raised. *)
Lemma register_dependency_looping_counterexample :
  ¬ ((∃ chain, raises_cycle looping_map "a" "b" chain)
     ↔ path (add_edge looping_map "a" "b") "b" "a").
Proof.
  intros [_ H]. destruct H as (chain & fuel & H).
  - apply tc_once. apply edge_add_edge. left.
    exists ["b"; "a"]. split; [done|]. right. left.
  - simpl in H. by rewrite looping_map_overflows in H.
Qed.

End GraphFacts.
(** ** Strings *)

Module StringFacts.

Lemma append_cons (x : ascii) (a b : string) : String x a +:+ b = String x (a +:+ b).
Proof. reflexivity. Qed.

Lemma append_assoc (a b c : string) : (a +:+ b) +:+ c = a +:+ (b +:+ c).
Proof. induction a as [|x a IH]; [done|]. by rewrite !append_cons, IH. Qed.

Lemma append_empty_r (a : string) : a +:+ "" = a.
Proof. induction a as [|x a IH]; [done|]. by rewrite append_cons, IH. Qed.

Lemma startswith_refl s : Str.startswith s s = true.
Proof.
  induction s as [|c s IH]; [done|]. simpl. by rewrite bool_decide_eq_true_2.
Qed.

Lemma contains_slice s sub n :
  Str.startswith (Str.slice_from n s) sub = true → Str.contains s sub = true.
Proof.
  revert s. induction n as [|n IH]; intros s H.
  - change (Str.slice_from 0 s) with s in H.
    destruct s; cbn [Str.contains]; by rewrite H.
  - destruct s as [|c s]; cbn [Str.slice_from] in H.
    + cbn [Str.contains]. by rewrite H.
    + cbn [Str.contains]. rewrite (IH s H). apply orb_true_r.
Qed.

(** A string that ends in a suffix contains it. *)
Lemma endswith_contains s suffix :
  Str.endswith s suffix = true → Str.contains s suffix = true.
Proof.
  unfold Str.endswith. intros [_ H]%andb_true_iff.
  apply bool_decide_eq_true_1 in H.
  apply (contains_slice _ _ (String.length s - String.length suffix)).
  rewrite H. apply startswith_refl.
Qed.

Section Split.
Context (ch : ascii).

Lemma split_not_nil s : Str.split s ch ≠ [].
Proof.
  destruct s as [|c s]; [done|]. cbn [Str.split].
  destruct (decide (c = ch)); [done|]. by destruct (Str.split s ch).
Qed.

Lemma split_app_sep a b :
  Str.split (a +:+ String ch b) ch = Str.split a ch ++ Str.split b ch.
Proof.
  induction a as [|c a IH].
  - change ("" +:+ String ch b) with (String ch b). cbn [Str.split].
    by rewrite decide_True.
  - rewrite append_cons. cbn [Str.split]. rewrite IH.
    destruct (decide (c = ch)); [done|].
    pose proof (split_not_nil a). by destruct (Str.split a ch).
Qed.

Lemma split_free s : Str.mem ch s = false → Str.split s ch = [s].
Proof.
  induction s as [|c s IH]; [done|]. cbn [Str.mem Str.split].
  intros [Hc Hs]%orb_false_iff. apply bool_decide_eq_false_1 in Hc.
  rewrite decide_False by done. by rewrite (IH Hs).
Qed.


Lemma split_Forall_free s : Forall (λ x, Str.mem ch x = false) (Str.split s ch).
Proof.
  induction s as [|c s IH]; [by repeat constructor|]. cbn [Str.split].
  destruct (decide (c = ch)) as [->|Hne].
  - by constructor.
  - pose proof (split_not_nil s).
    destruct (Str.split s ch) as [|x l]; [done|].
    apply Forall_cons in IH as [Hx Hl]. constructor; [|done].
    cbn [Str.mem]. by rewrite bool_decide_eq_false_2.
Qed.

End Split.


Lemma length_append (a b : string) :
  String.length (a +:+ b) = String.length a + String.length b.
Proof. induction a as [|c a IH]; [done|]. rewrite append_cons. simpl. by rewrite IH. Qed.

Lemma endswith_char s ch :
  Str.endswith s (String ch "") = bool_decide (Str.last_char s = Some ch).
Proof.
  unfold Str.endswith. induction s as [|c s IH].
  - rewrite (bool_decide_eq_false_2 (_ ≤ _)) by (simpl; lia).
    by rewrite (bool_decide_eq_false_2 (_ = Some _)).
  - destruct s as [|c' s].
    + cbn [String.length Str.last_char Str.slice_from Nat.sub].
      rewrite bool_decide_eq_true_2 by done. cbn [andb].
      apply bool_decide_ext. split; [by intros [= ->]|by intros [= ->]].
    + change (Str.last_char (String c (String c' s))) with (Str.last_char (String c' s)).
      rewrite <- IH.
      cbn [String.length]. rewrite !bool_decide_eq_true_2 by lia. cbn [andb].
      replace (S (S (String.length s)) - 1) with (S (S (String.length s) - 1)) by lia.
      done.
Qed.

Lemma last_char_append a b : b ≠ "" → Str.last_char (a +:+ b) = Str.last_char b.
Proof.
  intros Hb. induction a as [|c a IH]; [done|].
  rewrite append_cons. cbn [Str.last_char]. rewrite IH.
  destruct (a +:+ b) eqn:E; [|done].
  destruct a; [|done]. by destruct b.
Qed.

Lemma last_char_mem s ch : Str.last_char s = Some ch → Str.mem ch s = true.
Proof.
  induction s as [|c s IH]; [done|]. cbn [Str.last_char Str.mem].
  destruct s as [|c' s].
  - intros [= ->]. by rewrite bool_decide_eq_true_2.
  - intros H. rewrite (IH H). apply orb_true_r.
Qed.


Lemma startswith_cons c s d p :
  Str.startswith (String c s) (String d p) = bool_decide (d = c) && Str.startswith s p.
Proof. reflexivity. Qed.

Lemma startswith_append a b p :
  Str.startswith a p = true → Str.startswith (a +:+ b) p = true.
Proof.
  revert a. induction p as [|d p IH]; intros a; [by destruct (a +:+ b)|].
  destruct a as [|c a]; [done|]. rewrite append_cons, !startswith_cons.
  intros [-> H]%andb_true_iff. by rewrite (IH a H).
Qed.

Lemma startswith_nil s : Str.startswith s "" = true.
Proof. by destruct s. Qed.

Lemma startswith_sep_append a b :
  a ≠ "" → Str.startswith (a +:+ b) "/" = Str.startswith a "/".
Proof.
  destruct a as [|c a]; [done|]. intros _.
  by rewrite append_cons, !startswith_cons, !startswith_nil.
Qed.

End StringFacts.

(** ** Generated namespace identifiers *)

Module IdentifierFacts.

Lemma startswith_underscore_parent s :
  Str.startswith ("_" +:+ s) "../" = false.
Proof. reflexivity. Qed.

(** The loop of [module_var] runs once at most: what an iteration leaves
    starts with an underscore, so the test of the loop fails on it. *)
Lemma module_var_loop_once fuel import_path :
  module_var_loop (S fuel) import_path
  = if Str.startswith import_path "../"
    then "_" +:+ Str.slice_from 2 import_path else import_path.
Proof.
  cbn [module_var_loop]. destruct (Str.startswith import_path "../"); [|done].
  destruct fuel; [done|]. cbn [module_var_loop].
  by rewrite startswith_underscore_parent.
Qed.

(** The fuel given to the loop is enough: when it stops, the test of the
    [while] is false. *)
Lemma module_var_loop_exit import_path :
  Str.startswith (module_var_loop (String.length import_path) import_path) "../" = false.
Proof.
  destruct import_path as [|c s]; [done|].
  change (String.length (String c s)) with (S (String.length s)).
  rewrite module_var_loop_once.
  destruct (Str.startswith (String c s) "../") eqn:H; [done|exact H].
Qed.

(** On a specifier with one leading [../] at most, the identifier is the
    described one. *)
Lemma module_var_one_parent import_path :
  let stripped := if Str.startswith import_path "./"
                  then Str.slice_from 2 import_path else import_path in
  Str.startswith (Str.slice_from 3 stripped) "../" = false →
  module_var import_path = module_var_described import_path.
Proof.
  intros stripped H. unfold module_var, module_var_described. fold stripped.
  f_equal. f_equal. f_equal. f_equal.
  destruct stripped as [|c s] eqn:Hs; [done|].
  change (String.length (String c s)) with (S (String.length s)).
  rewrite module_var_loop_once. cbn [parents_to_underscores].
  destruct (Str.startswith (String c s) "../") eqn:Hp; [|done].
  destruct c as [[] [] [] [] [] [] [] []]; try discriminate Hp.
  destruct s as [|c1 s]; [discriminate Hp|].
  destruct c1 as [[] [] [] [] [] [] [] []]; try discriminate Hp.
  destruct s as [|c2 s]; [discriminate Hp|].
  destruct c2 as [[] [] [] [] [] [] [] []]; try discriminate Hp.
  cbn [Str.slice_from] in *.
  change (String.length (String "." (String "/" s)))
    with (S (S (String.length s))).
  cbn [parents_to_underscores]. by rewrite H.
Qed.

(** C8 at a specifier with two leading [../]: the loop converts the first
    one only and the second reaches the character replacement whole, so
    the identifier has one underscore more than the described one. *)
Theorem module_var_second_parent :
  module_var "../../x" = "QML______x" ∧
  module_var_described "../../x" = "QML_____x" ∧
  module_var "../../x" ≠ module_var_described "../../x".
Proof. split; [done|]. split; done. Qed.

Example module_var_sibling : module_var "./foo" = "QML_foo".
Proof. reflexivity. Qed.

Example module_var_parent : module_var "../lib/my-util.min" = "QML___lib_my_util_min".
Proof. reflexivity. Qed.

Example module_var_described_parent :
  module_var_described "../lib/my-util.min" = "QML___lib_my_util_min".
Proof. reflexivity. Qed.

End IdentifierFacts.

(** ** Path names *)

Module PathFacts.
Import StringFacts posixpath.







Lemma norm_app slashes l1 l2 acc :
  norm slashes (l1 ++ l2) acc = norm slashes l2 (norm slashes l1 acc).
Proof. apply foldl_app. Qed.








Lemma isabs_initial_slashes a : initial_slashes a = 1 → isabs a = true.
Proof. unfold initial_slashes, isabs. by destruct (Str.startswith a "/"). Qed.

(** join_step with a relative second argument *)
Lemma join_step_relative a r :
  Str.startswith r "/" = false →
  join_step a r = if bool_decide (a = "") || Str.endswith a "/" then a +:+ r
                  else a +:+ "/" +:+ r.
Proof. intros H. unfold join_step. by rewrite H. Qed.



Lemma norm_snoc_empty slashes l acc :
  norm slashes (l ++ [""]) acc = norm slashes l acc.
Proof. by rewrite norm_app. Qed.








(** The absolute form of a join. *)
Lemma endswith_append a x :
  x ≠ "" → Str.endswith (a +:+ x) "/" = Str.endswith x "/".
Proof. intros Hx. by rewrite !endswith_char, last_char_append. Qed.

Lemma append_nonempty_r a b : b ≠ "" → a +:+ b ≠ "".
Proof. destruct a; [done|]. by rewrite append_cons. Qed.



(** Components that can be joined with a separator. *)
Lemma joinable_startswith x : joinable x → Str.startswith x "/" = false.
Proof.
  intros [Hne Hm]. destruct x as [|c x]; [done|].
  rewrite startswith_cons, startswith_nil, andb_true_r.
  cbn [Str.mem] in Hm. apply orb_false_iff in Hm as [Hc _].
  apply bool_decide_eq_false_1 in Hc. by rewrite bool_decide_eq_false_2.
Qed.

Lemma joinable_endswith x : joinable x → Str.endswith x "/" = false.
Proof.
  intros [Hne Hm]. rewrite endswith_char. apply bool_decide_eq_false_2.
  intros H%last_char_mem. congruence.
Qed.

Lemma join_components pre a p :
  joinable a → Forall joinable p →
  foldl join_step (pre +:+ a) p = pre +:+ Str.join "/" (a :: p).
Proof.
  revert pre a. induction p as [|b p IH]; intros pre a Ha Hp; [done|].
  apply Forall_cons in Hp as [Hb Hp]. cbn [foldl].
  rewrite (join_step_relative _ b (joinable_startswith b Hb)).
  rewrite (bool_decide_eq_false_2 (_ = "")) by (apply append_nonempty_r, Ha).
  rewrite endswith_append by apply Ha. rewrite (joinable_endswith a Ha). cbn [orb].
  replace ((pre +:+ a) +:+ "/" +:+ b) with ((pre +:+ a +:+ "/") +:+ b)
    by (by rewrite !append_assoc).
  rewrite (IH (pre +:+ a +:+ "/") b Hb Hp).
  change (Str.join "/" (a :: b :: p)) with (a +:+ "/" +:+ Str.join "/" (b :: p)).
  by rewrite !append_assoc.
Qed.

Lemma join_joinable a p :
  joinable a → Forall joinable p → join a p = Str.join "/" (a :: p).
Proof. intros Ha Hp. apply (join_components "" a p Ha Hp). Qed.

Lemma join_startswith l :
  l ≠ [] → Forall joinable l → Str.startswith (Str.join "/" l) "/" = false.
Proof.
  destruct l as [|a l]; [done|]. intros _ [Ha Hl]%Forall_cons.
  destruct l as [|b l]; [by apply joinable_startswith|].
  change (Str.join "/" (a :: b :: l)) with (a +:+ "/" +:+ Str.join "/" (b :: l)).
  rewrite startswith_sep_append by apply Ha. by apply joinable_startswith.
Qed.



Section RoundTrip.
Context (cwd start path : string).
Context (Hcwd : initial_slashes cwd = 1).
Context (Hstart : initial_slashes start ≠ 2).
Context (Hpath : initial_slashes path ≠ 2).
Context (Hne : path ≠ "").

Let S := components cwd start.
Let P := components cwd path.
Let i := length (commonprefix S P).
Let rel_list := replicate (length S - i) ".." ++ drop i P.





End RoundTrip.

End PathFacts.

(** ** The build session *)

Module SessionFacts.
Import StringFacts.

(** *** Objects *)

Lemma heap_alter_lookup (g : QMLifyFile.t → QMLifyFile.t) (l : list QMLifyFile.t) i :
  alter g i l !!! i = if decide (i < length l) then g (l !!! i) else l !!! i.
Proof.
  rewrite list_lookup_total_alter.
  destruct (decide (i < length l)) as [Hlt|Hge].
  - by rewrite decide_True.
  - rewrite decide_False; [done|]. by intros [_ ?].
Qed.

Lemma heap_alter_alter (g h : QMLifyFile.t → QMLifyFile.t) (l : list QMLifyFile.t) i :
  alter g i (alter h i l) = alter (g ∘ h) i l.
Proof. apply list_alter_alter_eq. Qed.

Lemma heap_alter_ext (g h : QMLifyFile.t → QMLifyFile.t) (l : list QMLifyFile.t) i :
  g (l !!! i) = h (l !!! i) → alter g i l = alter h i l.
Proof.
  intros H. apply list_alter_ext; [|done]. intros x Hx.
  by rewrite (list_lookup_total_correct l i x Hx) in H.
Qed.

Lemma heap_alter_id (l : list QMLifyFile.t) i (g : QMLifyFile.t → QMLifyFile.t) :
  g (l !!! i) = l !!! i → alter g i l = l.
Proof.
  intros H. rewrite <- (list_alter_id id l i) at 2 by done.
  by apply heap_alter_ext.
Qed.

Lemma set_heap_same st : set_heap (heap st) st = st.
Proof. by destruct st. Qed.

(** *** The footer *)

Lemma export_globals_loop self names : ∀ st,
  for_each names (λ name,
    let* f := get_file self in
    if bool_decide (name ∉ QMLifyFile.imported_globals f) then
      modify_file self (λ f,
        QMLifyFile.set_footer (QMLifyFile.footer f +:+ global_declaration name) f)
    else ret tt) st
  = (Ok tt,
     set_heap
       (alter (λ f, QMLifyFile.set_footer
                 (QMLifyFile.footer f +:+
                  declarations
                    (filter (λ name, name ∉ QMLifyFile.imported_globals (heap st !!! self))
                       names)) f)
          self (heap st)) st).
Proof.
  induction names as [|name names IH]; intros st.
  - simpl. unfold ret. f_equal. rewrite heap_alter_id; [by rewrite set_heap_same|].
    simpl. rewrite append_empty_r. by destruct (heap st !!! self).
  - cbn [for_each]. unfold bind at 1. unfold bind at 1. unfold get_file at 1.
    rewrite filter_cons.
    destruct (decide (name ∉ QMLifyFile.imported_globals (heap st !!! self))) as [Hin|Hin].
    + rewrite bool_decide_eq_true_2 by done.
      unfold modify_file at 1. rewrite IH. cbn [heap set_heap qmlify world].
      f_equal. unfold set_heap. cbn [heap qmlify world]. f_equal.
      rewrite heap_alter_alter. rewrite heap_alter_lookup.
      apply heap_alter_ext. unfold compose. cbn [declarations foldr].
      fold (declarations
              (filter (λ name0, name0 ∉ QMLifyFile.imported_globals (heap st !!! self)) names)).
      case_decide; cbn [QMLifyFile.imported_globals QMLifyFile.set_footer QMLifyFile.footer];
        by rewrite append_assoc.
    + rewrite bool_decide_eq_false_2 by done. unfold ret at 1. by rewrite IH.
Qed.

Lemma NoDup_count_name (l : list string) name :
  NoDup l → length (filter (λ n, n = name) l) = if decide (name ∈ l) then 1 else 0.
Proof.
  induction 1 as [|x l Hx Hnd IH]; [done|].
  rewrite filter_cons. destruct (decide (x = name)) as [->|Hne].
  - rewrite decide_True by left. simpl. rewrite IH. by rewrite decide_False.
  - rewrite IH. destruct (decide (name ∈ l)) as [Hl|Hl].
    + rewrite decide_True; [done|by right].
    + rewrite decide_False; [done|].
      intros [->|?]%elem_of_cons; done.
Qed.

(** Python iterates a set without repetition and without omission. *)
Lemma iterate_Permutation w (s : gset string) : iterate w s ≡ₚ elements s.
Proof. apply merge_sort_Permutation. Qed.

Lemma NoDup_iterate w (s : gset string) : NoDup (iterate w s).
Proof. rewrite iterate_Permutation. apply NoDup_elements. Qed.

Lemma elem_of_iterate w (s : gset string) name : name ∈ iterate w s ↔ name ∈ s.
Proof. by rewrite iterate_Permutation, elem_of_elements. Qed.


(** One call of [export_globals]: the footer grows by the declarations of
    [exported_names], and nothing else changes. *)
Lemma export_globals_appends self st :
  export_globals self st
  = (Ok tt,
     set_heap (alter (λ f', QMLifyFile.set_footer
                        (QMLifyFile.footer f' +:+
                         declarations (exported_names (world st) (heap st !!! self))) f')
                 self (heap st)) st).
Proof.
  unfold export_globals. unfold bind at 1. unfold get_world at 1.
  unfold bind at 1. unfold bind at 1.
  unfold get_file at 1. unfold ret at 1.
  by rewrite export_globals_loop.
Qed.

Lemma exported_names_NoDup w f : NoDup (exported_names w f).
Proof. apply NoDup_filter, NoDup_iterate. Qed.

Lemma elem_of_exported_names w f name :
  name ∈ exported_names w f
  ↔ name ∈ QMLifyFile.globals f ∧ name ∉ QMLifyFile.imported_globals f.
Proof. unfold exported_names. rewrite list_elem_of_filter, elem_of_iterate. tauto. Qed.

(** The footer of the file that requires [./foo] twice: [shared] comes
    from the dependency and is left out, [own] is declared once. *)
Example footer_of_a_js :
  QMLifyFile.footer (heap (Scenario.run Scenario.twice "src/a.js").2 !!! 0)
  = "var own = global.own;" +:+ nl.
Proof. by vm_compute. Qed.

(** *** Resolution of a specifier *)

(** C4: a relative specifier that contains [.js] makes [require] raise the
    error of the invalid import form and leaves the whole state as it was:
    the dependency map has no new edge, no object was created, nothing was
    printed or written, and the nested build, whatever it would do, was not
    called. *)
Theorem require_extension_rejected fuel build_rec self import_path import_as st :
  Str.startswith import_path "./" = true ∨ Str.startswith import_path "../" = true →
  Str.contains import_path ".js" = true →
  require fuel build_rec self import_path import_as st
  = (Raise (Exception
       ("Don't include the .js file extension when importing/requiring: "
        +:+ import_path)), st).
Proof.
  intros Hrel Hjs. unfold require.
  assert (Str.startswith import_path "./" || Str.startswith import_path "../" = true)
    as -> by (apply orb_true_iff; exact Hrel).
  unfold require_local. by rewrite Hjs.
Qed.

Lemma require_extension_rejected_witness :
  (Str.startswith "./foo.js" "./" = true ∨ Str.startswith "./foo.js" "../" = true) ∧
  Str.contains "./foo.js" ".js" = true ∧
  ∀ fuel build_rec self import_as st,
    require fuel build_rec self "./foo.js" import_as st
    = (Raise (Exception
         "Don't include the .js file extension when importing/requiring: ./foo.js"), st).
Proof.
  split; [by left|]. split; [done|].
  intros fuel build_rec self import_as st.
  apply (require_extension_rejected fuel build_rec self "./foo.js" import_as st);
    [by left|done].
Defined.

(** The package a non-relative specifier names, as [require_npm] splits it. *)
Definition package_of (import_path : string) : string :=
  if Str.contains import_path "/" then (split_first import_path "/").1
  else import_path.

Lemma require_npm_absent fuel build_rec self import_path import_as st :
  QMLify.modules (qmlify st) !! package_of import_path = None →
  NPMModule_exists (world st) (qmlify st) (package_of import_path) = false →
  require_npm fuel build_rec self import_path import_as st = (Ok None, st).
Proof.
  intros Hmod Hex. unfold require_npm, package_of in *.
  destruct (Str.contains import_path "/").
  - destruct (split_first import_path "/") as [module_name filename].
    cbn [fst] in *.
    unfold bind at 1. unfold get_qmlify at 1.
    unfold bind at 1. rewrite Hmod.
    unfold bind at 1. unfold NPMModule_init.
    unfold bind at 1. unfold get_world at 1.
    unfold bind at 1. unfold get_qmlify at 1.
    rewrite Hex. unfold ret at 1.
    unfold bind at 1. unfold get_world at 1. rewrite Hex. done.
  - unfold bind at 1. unfold get_qmlify at 1.
    unfold bind at 1. rewrite Hmod.
    unfold bind at 1. unfold NPMModule_init.
    unfold bind at 1. unfold get_world at 1.
    unfold bind at 1. unfold get_qmlify at 1.
    rewrite Hex. unfold ret at 1.
    unfold bind at 1. unfold get_world at 1. rewrite Hex. done.
Qed.

Lemma require_qml_absent fuel self import_path import_as st :
  available_modules (world st) !! import_path = None →
  require_qml fuel self import_path import_as st = (Ok None, st).
Proof.
  intros Hav. unfold require_qml. unfold bind at 1. unfold get_world at 1.
  rewrite bool_decide_eq_false_2; [done|]. rewrite Hav. by intros [? ?].
Qed.

(** A specifier that no strategy resolves ends in a [NameError]: both
    messages of the last branch read the unbound [module_name]. *)
Lemma require_unresolved fuel build_rec self import_path import_as st :
  Str.startswith import_path "./" = false →
  Str.startswith import_path "../" = false →
  Str.contains import_path ".js" = false →
  QMLify.modules (qmlify st) !! package_of import_path = None →
  NPMModule_exists (world st) (qmlify st) (package_of import_path) = false →
  available_modules (world st) !! import_path = None →
  require fuel build_rec self import_path import_as st
  = (Raise (NameError "module_name"), st).
Proof.
  intros H1 H2 H3 Hmod Hex Hav. unfold require. rewrite H1, H2, H3.
  cbn [orb]. unfold bind at 1. rewrite require_npm_absent by done.
  unfold bind at 1. unfold require_qpm at 1. unfold ret at 1.
  unfold bind at 1. rewrite require_qml_absent by done.
  unfold bind at 1. unfold get_file at 1.
  unfold bind at 1. unfold get_world at 1.
  by destruct (path_exists _ _).
Qed.

(** C7 at a specifier that nothing resolves: the run ends in the
    [NameError] of the unbound name [module_name], whose message names
    neither the specifier nor the relative form, whether or not a file
    [lodash.js] lies next to the importing file. *)
Theorem require_unresolved_name_error :
  (Scenario.run Scenario.unresolved "src/main.js").1 = Raise (NameError "module_name") ∧
  (Scenario.run Scenario.unresolved_sibling "src/main.js").1
  = Raise (NameError "module_name").
Proof. split; by vm_compute. Qed.

(** *** Staleness and the cache *)

Lemma path_exists_getmtime w p :
  path_exists w p = true → ∃ t, getmtime w p = Ok t.
Proof.
  unfold path_exists, getmtime. intros [n Hn]%bool_decide_eq_true_1.
  rewrite Hn. eauto.
Qed.

Lemma path_exists_false w p : path_exists w p = false → stat w p = None.
Proof.
  unfold path_exists. intros H%bool_decide_eq_false_1.
  destruct (stat w p); [|done]. exfalso. eauto.
Qed.

Lemma getmtime_path_exists w p t : getmtime w p = Ok t → path_exists w p = true.
Proof.
  unfold path_exists, getmtime. intros H. apply bool_decide_eq_true_2.
  destruct (stat w p); [eauto|done].
Qed.

Lemma getmtime_missing w p : path_exists w p = false → getmtime w p = Raise (OSError p).
Proof. intros H%path_exists_false. unfold getmtime. by rewrite H. Qed.

(** [needs_build] in its three cases: the output is missing; the output
    is there and the input is not; both are there. *)
Lemma needs_build_cases w f :
  (path_exists w (QMLifyFile.out_filename f) = false → needs_build w f = Ok true) ∧
  (path_exists w (QMLifyFile.out_filename f) = true →
   path_exists w (QMLifyFile.filename f) = false →
   needs_build w f = Raise (OSError (QMLifyFile.filename f))) ∧
  (∀ input_mtime output_mtime,
     getmtime w (QMLifyFile.filename f) = Ok input_mtime →
     getmtime w (QMLifyFile.out_filename f) = Ok output_mtime →
     needs_build w f
     = Ok (bool_decide (input_mtime > output_mtime ∨ script_mtime w > output_mtime)%Z)).
Proof.
  unfold needs_build. split; [by intros ->|]. split.
  - intros -> Hin. cbn [negb]. by rewrite (getmtime_missing _ _ Hin).
  - intros input_mtime output_mtime Hin Hout.
    rewrite (getmtime_path_exists _ _ _ Hout), Hin, Hout. cbn [negb].
    destruct (input_mtime >? output_mtime)%Z eqn:Hcmp.
    + rewrite bool_decide_eq_true_2; [done|]. left. lia.
    + f_equal. destruct (script_mtime w >? output_mtime)%Z eqn:Hcmp2.
      * rewrite bool_decide_eq_true_2; [done|]. right. lia.
      * rewrite bool_decide_eq_false_2; [done|]. lia.
Qed.

(** C5, as the code has it.  [needs_build] is true exactly when the output
    is missing, or both files are there and the input or [qmlify.py] is
    newer than the output; it is false exactly when both files are there
    and neither is newer; and when the output is there and the input is
    not, it raises the error of [getmtime].  When it is false for a [.js]
    file, [build] prints, reads, rewrites and writes nothing, and creates
    no object: with an entry for the file in the cache it returns, and
    the object has the dependencies of the entry, each joined to the
    directory of the file and made absolute, and the globals of the
    entry, everything else being as before; without an entry it raises
    [KeyError] and changes nothing. *)
Theorem build_staleness fuel self st :
  let f := heap st !!! self in
  let w := world st in
  self < length (heap st) →
  (needs_build w f = Ok true ↔
     path_exists w (QMLifyFile.out_filename f) = false ∨
     ∃ input_mtime output_mtime,
       getmtime w (QMLifyFile.filename f) = Ok input_mtime ∧
       getmtime w (QMLifyFile.out_filename f) = Ok output_mtime ∧
       (input_mtime > output_mtime ∨ script_mtime w > output_mtime)%Z) ∧
  (needs_build w f = Ok false ↔
     ∃ input_mtime output_mtime,
       getmtime w (QMLifyFile.filename f) = Ok input_mtime ∧
       getmtime w (QMLifyFile.out_filename f) = Ok output_mtime ∧
       (input_mtime ≤ output_mtime ∧ script_mtime w ≤ output_mtime)%Z) ∧
  (path_exists w (QMLifyFile.out_filename f) = true →
   path_exists w (QMLifyFile.filename f) = false →
   needs_build w f = Raise (OSError (QMLifyFile.filename f)) ∧
   build (S fuel) self st = (Raise (OSError (QMLifyFile.filename f)), st)) ∧
  (needs_build w f = Ok false → Str.endswith (QMLifyFile.filename f) ".js" = true →
   (∀ info, QMLify.cache (qmlify st) !! QMLifyFile.filename f = Some info →
      ∃ st', build (S fuel) self st = (Ok tt, st') ∧
        qmlify st' = qmlify st ∧ world st' = world st ∧
        length (heap st') = length (heap st) ∧
        (∀ i, i ≠ self → heap st' !! i = heap st !! i) ∧
        let f' := heap st' !!! self in
        QMLifyFile.dependencies f'
        = (λ dep, posixpath.abspath (cwd w)
                    (posixpath.join (QMLifyFile.dirname f) [dep]))
            <$> entry_dependencies info ∧
        QMLifyFile.globals f' = list_to_set (entry_globals info) ∧
        QMLifyFile.filename f' = QMLifyFile.filename f ∧
        QMLifyFile.base_dir f' = QMLifyFile.base_dir f ∧
        QMLifyFile.imported_globals f' = QMLifyFile.imported_globals f ∧
        QMLifyFile.dirname f' = QMLifyFile.dirname f ∧
        QMLifyFile.basename f' = QMLifyFile.basename f ∧
        QMLifyFile.rel_filename f' = QMLifyFile.rel_filename f ∧
        QMLifyFile.use_babel f' = QMLifyFile.use_babel f ∧
        QMLifyFile.build_dir f' = QMLifyFile.build_dir f ∧
        QMLifyFile.out_filename f' = QMLifyFile.out_filename f ∧
        QMLifyFile.out_dirname f' = QMLifyFile.out_dirname f ∧
        QMLifyFile.text f' = QMLifyFile.text f ∧
        QMLifyFile.header f' = QMLifyFile.header f ∧
        QMLifyFile.post_header f' = QMLifyFile.post_header f ∧
        QMLifyFile.footer f' = QMLifyFile.footer f) ∧
   (QMLify.cache (qmlify st) !! QMLifyFile.filename f = None →
    build (S fuel) self st = (Raise (KeyError (QMLifyFile.filename f)), st))).
Proof.
  intros f w Hself.
  destruct (needs_build_cases w f) as (Hmissing & Horphan & Hboth).
  assert (∀ r, needs_build w f = r →
            build (S fuel) self st
            = match r with
              | Ok true => build (S fuel) self st
              | Ok false =>
                  if Str.endswith (QMLifyFile.filename f) ".js"
                  then QMLifyFile_load_cache self st else (Ok tt, st)
              | Raise e => (Raise e, st)
              end) as Hbuild.
  { intros r Hr. destruct r as [[|]|e]; [done| |].
    - cbn [build]. unfold QMLifyFile_build.
      unfold bind at 1. unfold get_file at 1.
      unfold bind at 1. unfold get_world at 1.
      unfold bind at 1. unfold lift at 1. fold f w. rewrite Hr. cbn [negb].
      by destruct (Str.endswith _ _).
    - cbn [build]. unfold QMLifyFile_build.
      unfold bind at 1. unfold get_file at 1.
      unfold bind at 1. unfold get_world at 1.
      unfold bind at 1. unfold lift at 1. fold f w. by rewrite Hr. }
  split; [|split; [|split]].
  - destruct (path_exists w (QMLifyFile.out_filename f)) eqn:Hout.
    + destruct (path_exists_getmtime _ _ Hout) as [output_mtime Hom].
      destruct (path_exists w (QMLifyFile.filename f)) eqn:Hin.
      * destruct (path_exists_getmtime _ _ Hin) as [input_mtime Him].
        rewrite (Hboth _ _ Him Hom). split.
        -- intros [= H%bool_decide_eq_true_1]. right. eauto.
        -- intros [?|(t1 & t2 & H1 & H2 & H)]; [done|].
           rewrite Him in H1. rewrite Hom in H2. injection H1 as <-. injection H2 as <-.
           by rewrite bool_decide_eq_true_2.
      * rewrite (Horphan eq_refl eq_refl). split; [done|].
        intros [?|(t1 & t2 & H1 & _)]; [done|].
        by rewrite (getmtime_missing _ _ Hin) in H1.
    + rewrite (Hmissing eq_refl). split; [by left|done].
  - destruct (path_exists w (QMLifyFile.out_filename f)) eqn:Hout.
    + destruct (path_exists_getmtime _ _ Hout) as [output_mtime Hom].
      destruct (path_exists w (QMLifyFile.filename f)) eqn:Hin.
      * destruct (path_exists_getmtime _ _ Hin) as [input_mtime Him].
        rewrite (Hboth _ _ Him Hom). split.
        -- intros [= H%bool_decide_eq_false_1]. exists input_mtime, output_mtime.
           split; [done|]. split; [done|]. lia.
        -- intros (t1 & t2 & H1 & H2 & H).
           rewrite Him in H1. rewrite Hom in H2. injection H1 as <-. injection H2 as <-.
           rewrite bool_decide_eq_false_2; [done|]. lia.
      * rewrite (Horphan eq_refl eq_refl). split; [done|].
        intros (t1 & t2 & H1 & _). by rewrite (getmtime_missing _ _ Hin) in H1.
    + rewrite (Hmissing eq_refl). split; [done|].
      intros (t1 & t2 & _ & H2 & _). by rewrite (getmtime_missing _ _ Hout) in H2.
  - intros Hout Hin. split; [by apply Horphan|].
    by rewrite (Hbuild _ (Horphan Hout Hin)).
  - intros Hfresh Hjs. rewrite (Hbuild _ Hfresh), Hjs.
    unfold QMLifyFile_load_cache.
    unfold bind at 1. unfold get_file at 1.
    unfold bind at 1. unfold get_qmlify at 1.
    unfold bind at 1. unfold get_world at 1. fold f w.
    unfold bind at 1. unfold get_file at 1.
    unfold bind at 1. unfold get_qmlify at 1.
    unfold bind at 1. unfold get_world at 1. fold f w.
    split.
    + intros info ->. unfold modify_file. eexists. split; [reflexivity|].
      cbn [qmlify world heap set_heap].
      split; [done|]. split; [done|]. split; [by rewrite length_alter|].
      split; [by intros i Hi; rewrite list_lookup_alter_ne|].
      rewrite heap_alter_lookup, decide_True by done. fold f. done.
    + by intros ->.
Qed.

Lemma build_staleness_witness :
  let st := Scenario.opened Scenario.fresh_with_entry "src/foo.js" in
  0 < length (heap st) ∧
  needs_build (world st) (heap st !!! 0) = Ok false ∧
  ∃ st', build 1 0 st = (Ok tt, st') ∧
    qmlify st' = qmlify st ∧ world st' = world st ∧
    QMLifyFile.dependencies (heap st' !!! 0) = ["/w/src/bar.js"] ∧
    QMLifyFile.globals (heap st' !!! 0) = {["shared"]}.
Proof.
  intros st.
  assert (0 < length (heap st)) as H by (vm_compute; lia).
  assert (needs_build (world st) (heap st !!! 0) = Ok false) as Hfresh
    by (by vm_compute).
  assert (Str.endswith (QMLifyFile.filename (heap st !!! 0)) ".js" = true) as Hjs
    by (by vm_compute).
  assert (QMLify.cache (qmlify st) !! QMLifyFile.filename (heap st !!! 0)
          = Some Scenario.foo_entry) as Hentry by (by vm_compute).
  split; [exact H|]. split; [exact Hfresh|].
  destruct (build_staleness 0 0 st H) as (_ & _ & _ & Hload).
  destruct (Hload Hfresh Hjs) as [Hwith _].
  destruct (Hwith _ Hentry) as (st' & Hbuild & Hq & Hw & _ & _ & Hdeps & Hglobals & _).
  exists st'. split; [exact Hbuild|]. split; [exact Hq|]. split; [exact Hw|].
  split; [rewrite Hdeps; by vm_compute|rewrite Hglobals; by vm_compute].
Defined.

(** C5 as stated fails on a build unit whose output is there while the
    file itself is gone: [qmlify.py] is newer than the output, yet
    [needs_build] is not true but raises, and so does [build].  It fails
    again on a file that is up to date when the cache has no entry for
    it: nothing is loaded, [build] raises [KeyError]. *)
Lemma build_staleness_counterexample :
  let st := Scenario.opened Scenario.orphan "src/foo.js" in
  let f := heap st !!! 0 in
  let w := world st in
  let st2 := Scenario.opened Scenario.fresh_without_entry "src/foo.js" in
  (path_exists w (QMLifyFile.out_filename f) = true ∧
   getmtime w (QMLifyFile.out_filename f) = Ok 50%Z ∧
   script_mtime w = 60%Z ∧
   path_exists w (QMLifyFile.filename f) = false ∧
   needs_build w f = Raise (OSError "src/foo.js") ∧
   build 1 0 st = (Raise (OSError "src/foo.js"), st)) ∧
  (needs_build (world st2) (heap st2 !!! 0) = Ok false ∧
   QMLifyFile.filename (heap st2 !!! 0) = "src/foo.js" ∧
   build 1 0 st2 = (Raise (KeyError "src/foo.js"), st2)).
Proof. intros st f w st2. split_and!; by vm_compute. Qed.

(** C6, what holds of it: when the cache file is absent, the session starts
    with an empty cache and no error, in an environment left as it was. *)
Theorem load_cache_absent build_dir package_info use_polyfills use_babel w :
  cache_yaml w = None →
  ∃ st, QMLify_init build_dir package_info use_polyfills use_babel w = (Ok tt, st) ∧
        QMLify.cache (qmlify st) = ∅ ∧ world st = w.
Proof.
  intros H. unfold QMLify_init, QMLify_load_cache.
  unfold bind at 1. unfold get_world at 1. cbn [world]. rewrite H.
  eexists. split; [reflexivity|]. done.
Qed.

Lemma load_cache_absent_witness :
  cache_yaml Scenario.twice = None ∧
  ∃ st, QMLify_init "/w/build" ∅ false false Scenario.twice = (Ok tt, st) ∧
        QMLify.cache (qmlify st) = ∅ ∧ world st = Scenario.twice.
Proof.
  split; [done|].
  apply (load_cache_absent "/w/build" ∅ false false Scenario.twice). done.
Defined.

(** C6 as stated fails twice: a cache file that does not parse ends the
    run in the error of the YAML loader, and an up-to-date [.js] file
    without an entry in the cache, be the cache file there or not, ends it
    in a [KeyError]; neither is taken for a first build. *)
Lemma cache_errors_counterexample :
  (Scenario.run Scenario.corrupt_cache "src/foo.js").1 = Raise YAMLError ∧
  (Scenario.run Scenario.fresh_without_entry "src/foo.js").1
  = Raise (KeyError "src/foo.js") ∧
  (Scenario.run Scenario.fresh_without_cache "src/foo.js").1
  = Raise (KeyError "src/foo.js").
Proof. repeat split; by vm_compute. Qed.

(** *** Requiring a sibling file *)

Lemma add_dependency_loop self import_as names : ∀ st,
  for_each names (λ name,
    let* f := get_file self in
    if bool_decide (name ∉ QMLifyFile.imported_globals f) then
      modify_file self (λ f,
        QMLifyFile.set_post_header
          (QMLifyFile.post_header f +:+ global_import name import_as) f)
    else ret tt) st
  = (Ok tt,
     set_heap
       (alter (λ f, QMLifyFile.set_post_header
                 (QMLifyFile.post_header f +:+
                  global_imports import_as
                    (filter (λ name, name ∉ QMLifyFile.imported_globals (heap st !!! self))
                       names)) f)
          self (heap st)) st).
Proof.
  induction names as [|name names IH]; intros st.
  - simpl. unfold ret. f_equal. rewrite heap_alter_id; [by rewrite set_heap_same|].
    simpl. rewrite append_empty_r. by destruct (heap st !!! self).
  - cbn [for_each]. unfold bind at 1. unfold bind at 1. unfold get_file at 1.
    rewrite filter_cons.
    destruct (decide (name ∉ QMLifyFile.imported_globals (heap st !!! self))) as [Hin|Hin].
    + rewrite bool_decide_eq_true_2 by done.
      unfold modify_file at 1. rewrite IH. cbn [heap set_heap qmlify world].
      f_equal. unfold set_heap. cbn [heap qmlify world]. f_equal.
      rewrite heap_alter_alter. rewrite heap_alter_lookup.
      apply heap_alter_ext. unfold compose. cbn [global_imports foldr].
      fold (global_imports import_as
              (filter (λ name0, name0 ∉ QMLifyFile.imported_globals (heap st !!! self)) names)).
      case_decide; cbn [QMLifyFile.imported_globals QMLifyFile.set_post_header QMLifyFile.post_header];
        by rewrite append_assoc.
    + rewrite bool_decide_eq_false_2 by done. unfold ret at 1. by rewrite IH.
Qed.

Lemma add_dependency_file fuel self d import_as st :
  add_dependency fuel self (DepFile d) import_as st
  = QMLify_register_dependency fuel
      (QMLifyFile.out_filename (heap st !!! self))
      (QMLifyFile.filename (heap st !!! d))
      (set_heap
         (alter (with_dependency (world st) (heap st !!! d) import_as) self (heap st))
         st).
Proof.
  unfold add_dependency.
  unfold bind at 1. unfold bind at 1. unfold get_file at 1.
  unfold bind at 1. unfold get_world at 1.
  unfold bind at 1. rewrite add_dependency_loop.
  unfold bind at 1. unfold modify_file at 1.
  unfold bind at 1. unfold modify_file at 1.
  unfold ret at 1.
  unfold bind at 1. unfold modify_file at 1.
  unfold bind at 1. unfold get_file at 1.
  cbn [heap set_heap qmlify world].
  rewrite !heap_alter_alter.
  unfold set_heap. cbn [heap qmlify world].
  match goal with |- context [alter ?g self (heap st)] =>
    assert (alter g self (heap st)
            = alter (with_dependency (world st) (heap st !!! d) import_as) self
                (heap st)) as ->
      by (apply heap_alter_ext; reflexivity) end.
  f_equal. rewrite heap_alter_lookup. by case_decide.
Qed.

Lemma register_dependency_map fuel filename dependency st :
  QMLify.dependency_map (qmlify (QMLify_register_dependency fuel filename dependency st).2)
  = Graph.add_edge (QMLify.dependency_map (qmlify st)) filename dependency.
Proof. reflexivity. Qed.

Lemma register_dependency_rest fuel filename dependency st :
  heap (QMLify_register_dependency fuel filename dependency st).2 = heap st ∧
  world (QMLify_register_dependency fuel filename dependency st).2 = world st.
Proof. done. Qed.

(** C2, as the code has it: a [require_local] that returns has created a
    new object for the target (its reference is the next free one; the
    registry [files] is not looked at), has built that object, and has then
    appended the target's file name to the list of the requiring file in
    the dependency map, whether it was listed there or not; [require_local]
    itself leaves the registry as the nested build left it. *)
Theorem require_local_appends fuel build_rec self filename import_as st r st' :
  require_local fuel build_rec self filename import_as st = (Ok r, st') →
  let object := length (heap st) in
  ∃ record st2,
    QMLifyFile_init
      (posixpath.abspath (cwd (world st))
         (posixpath.join (QMLifyFile.dirname (heap st !!! self)) [filename +:+ ".js"]))
      (QMLifyFile.base_dir (heap st !!! self))
      (Some (QMLifyFile.build_dir (heap st !!! self)))
      (Some (QMLifyFile.use_babel (heap st !!! self))) st
    = (Ok object, set_heap (heap st ++ [record]) st) ∧
    build_rec object (set_heap (heap st ++ [record]) st) = (Ok tt, st2) ∧
    QMLify.dependency_map (qmlify st')
    = Graph.add_edge (QMLify.dependency_map (qmlify st2))
        (QMLifyFile.out_filename (heap st2 !!! self))
        (QMLifyFile.filename (heap st2 !!! object)) ∧
    QMLify.files (qmlify st') = QMLify.files (qmlify st2) ∧
    Scenario.edge_count st' (QMLifyFile.out_filename (heap st2 !!! self))
      (QMLifyFile.filename (heap st2 !!! object))
    = S (Scenario.edge_count st2 (QMLifyFile.out_filename (heap st2 !!! self))
           (QMLifyFile.filename (heap st2 !!! object))).
Proof.
  intros H object. unfold require_local in H.
  destruct (Str.contains filename ".js"); [discriminate H|].
  unfold bind at 1 in H. unfold get_file at 1 in H.
  unfold bind at 1 in H. unfold get_world at 1 in H.
  unfold bind at 1 in H.
  destruct (QMLifyFile_init _ _ _ _ st) as [[o|e] st1] eqn:Hinit; [|discriminate H].
  assert (∃ record, o = object ∧ st1 = set_heap (heap st ++ [record]) st)
    as (record & -> & ->).
  { unfold QMLifyFile_init in Hinit.
    unfold bind at 1 in Hinit. unfold get_world at 1 in Hinit.
    unfold bind at 1 in Hinit. unfold get_qmlify at 1 in Hinit.
    destruct (posixpath.relpath _ _ (cwd (world st))); [|discriminate Hinit].
    destruct (posixpath.relpath _ _ _); [|discriminate Hinit].
    unfold alloc in Hinit. injection Hinit as <- <-. eauto. }
  unfold bind at 1 in H.
  destruct (build_rec object _) as [[[]|e] st2] eqn:Hbuild; [|discriminate H].
  unfold bind at 1 in H. rewrite add_dependency_file in H.
  destruct (QMLify_register_dependency _ _ _ _) as [[[]|e] st3] eqn:Hreg;
    [|discriminate H].
  unfold bind at 1 in H. unfold modify_file at 1 in H. unfold ret in H.
  injection H as <- <-.
  exists record, st2. split; [done|]. split; [done|].
  cbn [qmlify set_heap].
  pose proof (register_dependency_map fuel
    (QMLifyFile.out_filename (heap st2 !!! self))
    (QMLifyFile.filename (heap st2 !!! object))
    (set_heap (alter (with_dependency (world st2) (heap st2 !!! object) import_as)
                 self (heap st2)) st2))
    as Hmap.
  rewrite Hreg in Hmap. cbn [snd] in Hmap. cbn [qmlify set_heap] in Hmap.
  split; [done|]. split.
  - unfold QMLify_register_dependency in Hreg.
    destruct (Graph.register_dependency _ _ _ _) as [m o'].
    injection Hreg as _ <-. done.
  - unfold Scenario.edge_count. cbn [qmlify set_heap]. rewrite Hmap.
    rewrite GraphFacts.lookup_add_edge_eq.
    match goal with |- context [default [] (Some ?l)] =>
      change (default [] (Some l)) with l end.
    rewrite filter_app, length_app. rewrite filter_cons, decide_True by done.
    simpl. lia.
Qed.

Lemma require_local_appends_witness :
  let st := Scenario.opened Scenario.twice "src/a.js" in
  let res := require_local 4 (build 4) 0 "./foo" "QML_foo" st in
  res.1 = Ok "QML_foo.module.exports" ∧
  ∃ record st2,
    QMLifyFile_init
      (posixpath.abspath (cwd (world st))
         (posixpath.join (QMLifyFile.dirname (heap st !!! 0)) ["./foo" +:+ ".js"]))
      (QMLifyFile.base_dir (heap st !!! 0))
      (Some (QMLifyFile.build_dir (heap st !!! 0)))
      (Some (QMLifyFile.use_babel (heap st !!! 0))) st
    = (Ok (length (heap st)), set_heap (heap st ++ [record]) st) ∧
    build 4 (length (heap st)) (set_heap (heap st ++ [record]) st) = (Ok tt, st2) ∧
    QMLify.dependency_map (qmlify res.2)
    = Graph.add_edge (QMLify.dependency_map (qmlify st2))
        (QMLifyFile.out_filename (heap st2 !!! 0))
        (QMLifyFile.filename (heap st2 !!! length (heap st))) ∧
    QMLify.files (qmlify res.2) = QMLify.files (qmlify st2) ∧
    Scenario.edge_count res.2 (QMLifyFile.out_filename (heap st2 !!! 0))
      (QMLifyFile.filename (heap st2 !!! length (heap st)))
    = S (Scenario.edge_count st2 (QMLifyFile.out_filename (heap st2 !!! 0))
           (QMLifyFile.filename (heap st2 !!! length (heap st)))).
Proof.
  intros st res.
  assert (res.1 = Ok "QML_foo.module.exports") as H1 by (by vm_compute).
  split; [exact H1|].
  apply (require_local_appends 4 (build 4) 0 "./foo" "QML_foo" st
           "QML_foo.module.exports" res.2).
  change (res = (Ok "QML_foo.module.exports", res.2)).
  rewrite <- H1. apply surjective_pairing.
Defined.

(** C2 as stated fails on a file that requires [./foo] twice: after its
    build the dependency map lists [src/foo.js] twice under the output of
    [src/a.js], and two objects were created for [src/foo.js], of which the
    registry holds the first. *)
Lemma double_require_counterexample :
  let st := (Scenario.run Scenario.twice "src/a.js").2 in
  (Scenario.run Scenario.twice "src/a.js").1 = Ok 0 ∧
  QMLify.dependency_map (qmlify st) !! "/w/build/a.js"
  = Some ["src/foo.js"; "src/foo.js"] ∧
  Scenario.edge_count st "/w/build/a.js" "src/foo.js" = 2 ∧
  Scenario.records_of st "src/foo.js" = 2 ∧
  QMLifyFile.filename <$> heap st = ["src/a.js"; "src/foo.js"; "src/foo.js"] ∧
  QMLify.files (qmlify st) !! "src/foo.js" = Some 1.
Proof. by vm_compute. Qed.

(** After [add_dependency], no global of the dependency is left for
    [export_globals] to declare. *)
Lemma add_dependency_not_exported fuel self d import_as st name :
  self < length (heap st) →
  name ∈ QMLifyFile.globals (heap st !!! d) →
  ∀ w, name ∉ exported_names w
                (heap (add_dependency fuel self (DepFile d) import_as st).2 !!! self).
Proof.
  intros Hself Hname w. rewrite add_dependency_file.
  destruct (register_dependency_rest fuel
    (QMLifyFile.out_filename (heap st !!! self)) (QMLifyFile.filename (heap st !!! d))
    (set_heap (alter (with_dependency (world st) (heap st !!! d) import_as) self
                 (heap st)) st))
    as [-> _].
  cbn [heap set_heap]. rewrite heap_alter_lookup, decide_True by done.
  unfold exported_names. rewrite list_elem_of_filter.
  cbn [with_dependency QMLifyFile.imported_globals QMLifyFile.set_dependencies
       QMLifyFile.set_imported_globals].
  intros [Hnot _]. apply Hnot. set_solver.
Qed.



(** *** The cache round trip *)





End SessionFacts.

(** ** More on the cycle detector *)

Module GraphChains.
Import Graph GraphFacts.

Lemma for_each_app l1 l2 body :
  for_each (l1 ++ l2) body
  = match for_each l1 body with
    | Returned => for_each l2 body
    | stop => stop
    end.
Proof.
  induction l1 as [|d l1 IH]; [done|]. simpl.
  destruct (body d); [exact IH|done|done].
Qed.

(** The shape of a raised chain, with the chain so far spelled out. *)
Lemma check_dependency_chain m target fuel :
  ∀ name pre c,
    walk m (pre ++ [name]) →
    check_dependency fuel m name target (Some (target :: pre ++ [name])) = DependencyCycle c →
    ∃ mid, c = target :: (pre ++ [name]) ++ mid ++ [target] ∧
           walk m ((pre ++ [name]) ++ mid ++ [target]) ∧
           target ∉ mid.
Proof.
  induction fuel as [|fuel IH]; intros name pre c Hw; simpl; [done|].
  destruct (m !! name) as [deps|] eqn:Hm; [|done].
  intros H. apply for_each_cycle in H as (d & Hd & H).
  assert (walk m ((pre ++ [name]) ++ [d])) as Hw'.
  { apply walk_snoc; [done|by rewrite last_snoc|by exists deps]. }
  destruct (decide (d = target)) as [->|Hne].
  - injection H as <-. exists []. split; [done|]. split; [done|]. by apply not_elem_of_nil.
  - change (target :: pre ++ [name]) with ((target :: pre) ++ [name]) in H.
    rewrite <- app_assoc in H. simpl in H.
    assert (check_dependency fuel m d target (Some (target :: (pre ++ [name]) ++ [d]))
            = DependencyCycle c) as H' by (by rewrite <- app_assoc).
    destruct (IH d (pre ++ [name]) c Hw' H') as (mid & -> & Hwalk & Hmid).
    exists (d :: mid). split; [by rewrite <- !app_assoc|].
    split; [by rewrite <- !app_assoc in *|].
    by apply not_elem_of_cons.
Qed.

(** X1. Whatever the map, a chain that [check_dependency(name, target)]
    raises is [target], then [name], then the files the traversal went
    through, then [target] again: from [name] on each file requires the
    next, and the traversal did not pass through [target] on the way. *)
Theorem check_dependency_chain_shape m fuel name target c :
  check_dependency fuel m name target None = DependencyCycle c →
  ∃ mid, c = target :: name :: mid ++ [target] ∧
         walk m (name :: mid ++ [target]) ∧
         target ∉ mid.
Proof.
  rewrite check_dependency_default. intros H.
  destruct (check_dependency_chain m target fuel name [] c I H) as (mid & -> & Hw & Hmid).
  by exists mid.
Qed.

Lemma check_dependency_chain_shape_witness :
  check_dependency 5 (add_edge chain_map "a" "b") "b" "a" None
  = DependencyCycle ["a"; "b"; "c"; "a"] ∧
  ∃ mid, ["a"; "b"; "c"; "a"] = "a" :: "b" :: mid ++ ["a"] ∧
         walk (add_edge chain_map "a" "b") ("b" :: mid ++ ["a"]) ∧
         "a" ∉ mid.
Proof.
  assert (check_dependency 5 (add_edge chain_map "a" "b") "b" "a" None
          = DependencyCycle ["a"; "b"; "c"; "a"]) as H by (by vm_compute).
  split; [exact H|].
  exact (check_dependency_chain_shape (add_edge chain_map "a" "b") 5 "b" "a"
           ["a"; "b"; "c"; "a"] H).
Defined.

(** A path to [filename] in the map with the edge from [filename] to
    itself added is a path of the map before. *)
Lemma path_self_edge_to m filename d t :
  path (add_edge m filename filename) d t → t = filename → d ≠ filename →
  path m d t.
Proof.
  intros Hp. induction Hp as [d y He|d y z He _ IH]; intros Ht Hne.
  - apply tc_once. apply edge_add_edge in He as [He|[? _]]; done.
  - apply edge_add_edge in He as [He|[? _]]; [|done].
    destruct (decide (y = filename)) as [Hy|Hy].
    + apply tc_once. by rewrite Ht, <- Hy.
    + eapply tc_l; [done|]. by apply IH.
Qed.

Lemma path_self_edge_old m filename d :
  path (add_edge m filename filename) d filename → d ≠ filename →
  path m d filename.
Proof. intros Hp Hne. by apply (path_self_edge_to m filename d filename). Qed.

(** X2. A file that requires itself: when no cycle can be reached from it
    before, [register_dependency(a, a)] raises [DependencyCycle] with the
    chain [a, a, a], and with no other chain. *)
Theorem register_self_dependency m filename :
  no_cycle_from m filename →
  raises_cycle m filename filename [filename; filename; filename] ∧
  ∀ chain, raises_cycle m filename filename chain →
    chain = [filename; filename; filename].
Proof.
  intros Hacyc. set (m' := add_edge m filename filename).
  assert (∀ fuel, S (size m') < fuel →
    check_dependency fuel m' filename filename None
    = DependencyCycle [filename; filename; filename]) as Hraise.
  { intros fuel Hfuel. destruct fuel as [|fuel]; [lia|].
    cbn [check_dependency]. unfold m' at 1. rewrite lookup_add_edge_eq.
    cbn [default]. rewrite for_each_app.
    assert (for_each (default [] (m !! filename))
              (λ dep, if decide (dep = filename)
                      then DependencyCycle ([filename; filename] ++ [dep])
                      else check_dependency fuel m' dep filename
                             (Some ([filename; filename] ++ [dep]))) = Returned) as ->.
    { apply for_each_returned. intros d Hd.
      assert (edge m filename d) as He.
      { destruct (m !! filename) as [old|] eqn:Hm; [by exists old|]. inversion Hd. }
      assert (d ≠ filename) as Hne.
      { intros ->. apply (Hacyc filename); [apply rtc_refl|by apply tc_once]. }
      rewrite decide_False by done.
      assert (check_dependency fuel m' d filename (Some ([filename; filename] ++ [d]))
              ≠ RecursionError) as Hterm.
      { apply check_dependency_terminates_from; [|lia].
        intros x Hx Hc.
        assert (rtc (descend m' filename) filename x) as Hx'.
        { eapply rtc_l; [|exact Hx]. split; [|done]. apply edge_add_edge. by left. }
        apply (descend_reach_old m filename filename) in Hx' as [Hreach Hxf].
        apply (Hacyc x Hreach).
        by apply (descend_path_old m filename filename). }
      destruct (check_dependency fuel m' d filename _) as [|c|] eqn:Hc; [done| |done].
      exfalso. apply check_dependency_cycle in Hc as [Hp _].
      apply (Hacyc filename); [apply rtc_refl|].
      eapply tc_l; [exact He|]. by apply path_self_edge_old. }
    simpl. by rewrite decide_True. }
  split.
  - exists (S (S (size m'))). unfold register_dependency. cbn [snd].
    apply Hraise. lia.
  - intros chain [fuel H]. unfold register_dependency in H. cbn [snd] in H.
    fold m' in H.
    pose proof (Hraise (fuel + S (S (size m'))) ltac:(lia)) as H2.
    rewrite (check_dependency_mono m' filename fuel) in H2; [|lia|by rewrite H].
    rewrite H in H2. by injection H2.
Qed.

Lemma register_self_dependency_witness :
  no_cycle_from chain_map "b" ∧
  raises_cycle chain_map "b" "b" ["b"; "b"; "b"] ∧
  ∀ chain, raises_cycle chain_map "b" "b" chain → chain = ["b"; "b"; "b"].
Proof.
  split.
  - exact (ranked_no_cycle chain_rank chain_map "b" chain_map_ranked).
  - apply (register_self_dependency chain_map "b").
    exact (ranked_no_cycle chain_rank chain_map "b" chain_map_ranked).
Defined.

End GraphChains.

(** ** More on identifiers and on resolution *)

Module ResolutionFacts.
Import StringFacts SessionFacts.

Lemma mem_append ch a b : Str.mem ch (a +:+ b) = Str.mem ch a || Str.mem ch b.
Proof.
  induction a as [|c a IH]; [done|].
  rewrite append_cons. cbn [Str.mem]. by rewrite IH, orb_assoc.
Qed.

Lemma mem_replace_old s old new :
  new ≠ old → Str.mem old (Str.replace s old new) = false.
Proof.
  intros Hne. induction s as [|c s IH]; [done|].
  cbn [Str.replace Str.mem]. rewrite IH, orb_false_r.
  apply bool_decide_eq_false_2. by case_decide.
Qed.

Lemma mem_replace_other s ch old new :
  new ≠ ch → Str.mem ch s = false → Str.mem ch (Str.replace s old new) = false.
Proof.
  intros Hne. induction s as [|c s IH]; [done|].
  cbn [Str.replace Str.mem]. intros [Hc Hs]%orb_false_iff.
  apply bool_decide_eq_false_1 in Hc. rewrite (IH Hs), orb_false_r.
  apply bool_decide_eq_false_2. by case_decide.
Qed.

(** X3. Whatever the specifier, the identifier [module_var] generates
    begins with [QML_] and holds no path separator, no dot and no hyphen. *)
Theorem module_var_identifier import_path :
  Str.startswith (module_var import_path) "QML_" = true ∧
  Str.mem "/" (module_var import_path) = false ∧
  Str.mem "." (module_var import_path) = false ∧
  Str.mem "-" (module_var import_path) = false.
Proof.
  unfold module_var.
  set (p := module_var_loop _ _).
  split; [by apply startswith_append|].
  rewrite !mem_append. change (Str.mem "/" "QML_") with false.
  change (Str.mem "." "QML_") with false. change (Str.mem "-" "QML_") with false.
  cbn [orb]. split; [|split].
  - apply mem_replace_other; [done|]. apply mem_replace_other; [done|].
    by apply mem_replace_old.
  - apply mem_replace_other; [done|]. by apply mem_replace_old.
  - by apply mem_replace_old.
Qed.

(** X4. A specifier that is not relative, holds no [.js], names no package
    that is registered or installed and no registered module, makes
    [require] raise the [NameError] of the unbound [module_name], and
    leaves the state of the session exactly as it was. *)
Theorem require_unresolved_leaves_state fuel build_rec self import_path import_as st :
  Str.startswith import_path "./" = false →
  Str.startswith import_path "../" = false →
  Str.contains import_path ".js" = false →
  QMLify.modules (qmlify st) !! package_of import_path = None →
  NPMModule_exists (world st) (qmlify st) (package_of import_path) = false →
  available_modules (world st) !! import_path = None →
  require fuel build_rec self import_path import_as st
  = (Raise (NameError "module_name"), st).
Proof. apply require_unresolved. Qed.

Lemma require_unresolved_leaves_state_witness :
  let st := Scenario.opened Scenario.unresolved "src/main.js" in
  (Str.startswith "lodash" "./" = false ∧
   Str.startswith "lodash" "../" = false ∧
   Str.contains "lodash" ".js" = false ∧
   QMLify.modules (qmlify st) !! package_of "lodash" = None ∧
   NPMModule_exists (world st) (qmlify st) (package_of "lodash") = false ∧
   available_modules (world st) !! "lodash" = None) ∧
  ∀ fuel build_rec import_as,
    require fuel build_rec 0 "lodash" import_as st = (Raise (NameError "module_name"), st).
Proof.
  intros st.
  assert (QMLify.modules (qmlify st) !! package_of "lodash" = None) as H1
    by (by vm_compute).
  assert (NPMModule_exists (world st) (qmlify st) (package_of "lodash") = false) as H2
    by (by vm_compute).
  assert (available_modules (world st) !! "lodash" = None) as H3 by (by vm_compute).
  split; [repeat split; assumption || reflexivity|].
  intros fuel build_rec import_as.
  exact (require_unresolved_leaves_state fuel build_rec 0 "lodash" import_as st
           eq_refl eq_refl eq_refl H1 H2 H3).
Defined.

(** X5. [add_dependency] records before it checks: whatever the cycle
    check then does, the requiring object has the globals of the
    dependency among its globals and its imported globals, the file name
    of the dependency at the end of its dependencies, and the dependency
    map has the new edge; its prologue has grown by the lines
    [var N = global.N = <import_as>.global.N;], one for each global [N] of
    the dependency that was not imported before, none twice, in the order
    in which the set is iterated. *)
Theorem add_dependency_records fuel self d import_as st :
  self < length (heap st) →
  let dep := heap st !!! d in
  let f := heap st !!! self in
  let st' := (add_dependency fuel self (DepFile d) import_as st).2 in
  let f' := heap st' !!! self in
  let names := filter (λ N, N ∉ QMLifyFile.imported_globals f)
                 (iterate (world st) (QMLifyFile.globals dep)) in
  QMLifyFile.globals f' = QMLifyFile.globals f ∪ QMLifyFile.globals dep ∧
  QMLifyFile.imported_globals f'
  = QMLifyFile.imported_globals f ∪ QMLifyFile.globals dep ∧
  QMLifyFile.dependencies f' = QMLifyFile.dependencies f ++ [QMLifyFile.filename dep] ∧
  QMLifyFile.post_header f'
  = QMLifyFile.post_header f +:+
    foldr (λ N rest,
             ("var " +:+ N +:+ " = global." +:+ N +:+ " = " +:+ import_as
              +:+ ".global." +:+ N +:+ ";" +:+ nl) +:+ rest) "" names ∧
  NoDup names ∧
  (∀ N, N ∈ names
        ↔ N ∈ QMLifyFile.globals dep ∧ N ∉ QMLifyFile.imported_globals f) ∧
  QMLify.dependency_map (qmlify st')
  = Graph.add_edge (QMLify.dependency_map (qmlify st))
      (QMLifyFile.out_filename f) (QMLifyFile.filename dep).
Proof.
  intros Hself dep f st' f' names. unfold f', st'. rewrite add_dependency_file.
  rewrite register_dependency_map.
  destruct (register_dependency_rest fuel
    (QMLifyFile.out_filename (heap st !!! self)) (QMLifyFile.filename (heap st !!! d))
    (set_heap (alter (with_dependency (world st) (heap st !!! d) import_as) self
                 (heap st)) st))
    as [-> _].
  cbn [heap set_heap qmlify]. rewrite heap_alter_lookup, decide_True by done.
  split; [done|]. split; [done|]. split; [done|]. split; [done|].
  split; [apply NoDup_filter, NoDup_iterate|]. split; [|done].
  intros N. unfold names. rewrite list_elem_of_filter, elem_of_iterate. tauto.
Qed.

Lemma add_dependency_records_witness :
  let st := (Scenario.run Scenario.twice "src/a.js").2 in
  0 < length (heap st) ∧
  let dep := heap st !!! 1 in
  let f := heap st !!! 0 in
  let st' := (add_dependency 3 0 (DepFile 1) "QML_foo" st).2 in
  let f' := heap st' !!! 0 in
  let names := filter (λ N, N ∉ QMLifyFile.imported_globals f)
                 (iterate (world st) (QMLifyFile.globals dep)) in
  QMLifyFile.globals f' = QMLifyFile.globals f ∪ QMLifyFile.globals dep ∧
  QMLifyFile.imported_globals f'
  = QMLifyFile.imported_globals f ∪ QMLifyFile.globals dep ∧
  QMLifyFile.dependencies f' = QMLifyFile.dependencies f ++ [QMLifyFile.filename dep] ∧
  QMLifyFile.post_header f'
  = QMLifyFile.post_header f +:+
    foldr (λ N rest,
             ("var " +:+ N +:+ " = global." +:+ N +:+ " = " +:+ "QML_foo"
              +:+ ".global." +:+ N +:+ ";" +:+ nl) +:+ rest) "" names ∧
  NoDup names ∧
  (∀ N, N ∈ names
        ↔ N ∈ QMLifyFile.globals dep ∧ N ∉ QMLifyFile.imported_globals f) ∧
  QMLify.dependency_map (qmlify st')
  = Graph.add_edge (QMLify.dependency_map (qmlify st))
      (QMLifyFile.out_filename f) (QMLifyFile.filename dep).
Proof.
  intros st.
  assert (0 < length (heap st)) as H by (vm_compute; lia).
  split; [exact H|].
  exact (add_dependency_records 3 0 1 "QML_foo" st H).
Defined.

(** The prologue of the file that requires [./foo]: the global [shared] of
    the dependency is taken over by one line. *)
Example prologue_of_a_js :
  let f := heap (Scenario.run Scenario.twice "src/a.js").2 !!! 0 in
  Str.contains (QMLifyFile.header f)
    ("var shared = global.shared = QML_foo.global.shared;" +:+ nl) = true ∧
  QMLifyFile.imported_globals f = {["shared"]}.
Proof. by vm_compute. Qed.

End ResolutionFacts.

(** ** More on the build of one file *)

Module BuildFacts.
Import StringFacts SessionFacts.

(** *** Directories *)

Lemma makedirs_fold_lookup (t : Z) (dirs : list string) (fs : gmap string node) k :
  foldr (λ d fs, match fs !! d with
                 | Some _ => fs
                 | None => <[d := Directory t]> fs
                 end) fs dirs !! k
  = match fs !! k with
    | Some n => Some n
    | None => if decide (k ∈ dirs) then Some (Directory t) else None
    end.
Proof.
  revert k. induction dirs as [|d dirs IH]; intros k; cbn [foldr].
  - destruct (fs !! k); [done|]. rewrite decide_False; [done|]. apply not_elem_of_nil.
  - set (fs' := foldr _ fs dirs) in *.
    assert (match fs' !! d with
            | Some _ => fs'
            | None => <[d:=Directory t]> fs'
            end !! k
            = match fs' !! k with
              | Some n => Some n
              | None => if decide (k = d) then Some (Directory t) else None
              end) as ->.
    { destruct (decide (k = d)) as [->|Hne].
      - destruct (fs' !! d) as [n|] eqn:Hd; [by rewrite Hd|by rewrite lookup_insert_eq].
      - destruct (fs' !! d); [by destruct (fs' !! k)|].
        rewrite lookup_insert_ne by done. by destruct (fs' !! k). }
    rewrite IH. destruct (fs !! k); [done|].
    destruct (decide (k ∈ dirs)) as [Hin|Hin].
    + rewrite decide_True; [done|by right].
    + destruct (decide (k = d)) as [->|Hne].
      * rewrite decide_True; [done|by left].
      * rewrite decide_False; [done|]. by intros [?|?]%elem_of_cons.
Qed.

(** [os.makedirs] leaves every node that is there as it is, and what it
    adds are directories. *)
Lemma makedirs_lookup w p k :
  makedirs_nodes w p !! k
  = match nodes w !! k with
    | Some n => Some n
    | None => if decide (k ∈ ancestors w p) then Some (Directory (now w)) else None
    end.
Proof. apply makedirs_fold_lookup. Qed.

Lemma stat_makedirs w p q :
  stat (set_nodes (makedirs_nodes w p) w) q
  = match stat w q with
    | Some n => Some n
    | None =>
        if bool_decide (q = "") then None
        else if decide (posixpath.abspath (cwd w) q ∈ ancestors w p)
             then Some (Directory (now w)) else None
    end.
Proof.
  unfold stat. cbn [cwd nodes set_nodes].
  case_bool_decide; [done|]. apply makedirs_lookup.
Qed.

Lemma read_text_makedirs w p q :
  (∀ content, read_text w q = Ok content →
     read_text (set_nodes (makedirs_nodes w p) w) q = Ok content) ∧
  (stat w q = None →
     read_text (set_nodes (makedirs_nodes w p) w) q = Raise (OSError q)).
Proof.
  unfold read_text. rewrite stat_makedirs. split.
  - intros content. by destruct (stat w q) as [[]|].
  - intros ->. case_bool_decide; [done|]. by case_decide.
Qed.

Lemma stat_stdout w l q : stat (set_stdout l w) q = stat w q.
Proof. reflexivity. Qed.

(** *** Assets *)

(** X6. A file that is no [.js] file is never rewritten.  When it is up
    to date, [build] does nothing at all.  When it is stale and can be
    read, and the output path lies in the output directory of the object,
    is not the path of the file itself and can be written to, [build]
    prints its name and copies its bytes to the output path, stamped with
    the current time, and returns: no object, no entry of the registry,
    of the cache or of the dependency map changes. *)
Theorem build_asset fuel self st :
  let f := heap st !!! self in
  let w := world st in
  Str.endswith (QMLifyFile.filename f) ".js" = false →
  (needs_build w f = Ok false → build (S fuel) self st = (Ok tt, st)) ∧
  (needs_build w f = Ok true →
   QMLifyFile.out_dirname f = posixpath.dirname (QMLifyFile.out_filename f) →
   QMLifyFile.out_dirname f ≠ "" →
   writable w (QMLifyFile.out_dirname f) (QMLifyFile.out_filename f) →
   posixpath.abspath (cwd w) (QMLifyFile.filename f)
   ≠ posixpath.abspath (cwd w) (QMLifyFile.out_filename f) →
   ∀ content, read_text w (QMLifyFile.filename f) = Ok content →
   ∃ st', build (S fuel) self st = (Ok tt, st') ∧
     qmlify st' = qmlify st ∧ heap st' = heap st ∧
     stdout (world st') = stdout w ++ [" - " +:+ QMLifyFile.filename f] ∧
     nodes (world st') !! posixpath.abspath (cwd w) (QMLifyFile.out_filename f)
     = Some (RegularFile (now w) content)).
Proof.
  intros f w Hjs. subst f w. set (f := heap st !!! self) in *. split.
  - intros Hfresh. cbn [build]. unfold QMLifyFile_build.
    unfold bind at 1. unfold get_file at 1.
    unfold bind at 1. unfold get_world at 1.
    unfold bind at 1. unfold lift at 1. fold f. rewrite Hfresh.
    cbn [negb]. by rewrite Hjs.
  - intros Hstale _ Hdir (Hnodir & Hnotabove & _) Hother content Hread.
    cbn [build]. unfold QMLifyFile_build.
    unfold bind at 1. unfold get_file at 1.
    unfold bind at 1. unfold get_world at 1.
    unfold bind at 1. unfold lift at 1. fold f. rewrite Hstale.
    cbn [negb]. unfold bind at 1. unfold print at 1. unfold modify_world at 1.
    rewrite (bool_decide_eq_false_2 (QMLifyFile.out_dirname _ = "")) by done.
    rewrite Hjs. cbn [negb].
    set (w1 := set_stdout (stdout (world st) ++ [" - " +:+ QMLifyFile.filename f])
                 (world st)).
    unfold bind at 1.
    assert (∃ w2, (w2 = w1 ∨ w2 = set_nodes (makedirs_nodes w1 (QMLifyFile.out_dirname f)) w1)
              ∧ (if negb (path_exists (world st) (QMLifyFile.out_dirname f))
                 then modify_world
                        (λ w, set_nodes (makedirs_nodes w (QMLifyFile.out_dirname f)) w)
                 else ret tt) (set_world w1 st) = (Ok tt, set_world w2 st))
      as (w2 & Hw2 & ->).
    { destruct (path_exists _ _); cbn [negb].
      - exists w1. split; [by left|done].
      - eexists. split; [by right|]. done. }
    assert (cwd w2 = cwd (world st) ∧ now w2 = now (world st)
            ∧ stdout w2 = stdout w1) as (Hcwd & Hnow & Hout).
    { by destruct Hw2 as [->| ->]. }
    assert (read_text w2 (QMLifyFile.filename f) = Ok content) as Hread2.
    { destruct Hw2 as [->| ->]; [exact Hread|].
      by apply read_text_makedirs. }
    assert (isdir w2 (QMLifyFile.out_filename f) = false) as Hnodir2.
    { destruct Hw2 as [->| ->]; [exact Hnodir|].
      unfold isdir in *. rewrite stat_makedirs.
      change (stat w1 (QMLifyFile.out_filename f))
        with (stat (world st) (QMLifyFile.out_filename f)).
      destruct (stat (world st) (QMLifyFile.out_filename f)) as [[]|]; try done.
      case_bool_decide; [done|]. by rewrite decide_False. }
    unfold copy.
    unfold bind at 1. unfold get_world at 1. cbn [world set_world].
    rewrite Hnodir2.
    assert (samefile w2 (QMLifyFile.filename f) (QMLifyFile.out_filename f) = false)
      as ->.
    { unfold samefile. rewrite Hcwd.
      rewrite (bool_decide_eq_false_2 (posixpath.abspath _ _ = _)) by done.
      apply andb_false_r. }
    unfold bind at 1. unfold lift at 1. rewrite Hread2.
    unfold modify_world. eexists. split; [reflexivity|].
    cbn [qmlify heap world set_world write_text set_nodes stdout nodes].
    rewrite Hcwd, Hnow, Hout. repeat split. by rewrite lookup_insert_eq.
Qed.

Lemma build_asset_witness :
  let st := Scenario.opened Scenario.asset "src/logo.png" in
  let f := heap st !!! 0 in
  Str.endswith (QMLifyFile.filename f) ".js" = false ∧
  needs_build (world st) f = Ok true ∧
  QMLifyFile.out_dirname f = posixpath.dirname (QMLifyFile.out_filename f) ∧
  QMLifyFile.out_dirname f ≠ "" ∧
  writable (world st) (QMLifyFile.out_dirname f) (QMLifyFile.out_filename f) ∧
  posixpath.abspath (cwd (world st)) (QMLifyFile.filename f)
  ≠ posixpath.abspath (cwd (world st)) (QMLifyFile.out_filename f) ∧
  read_text (world st) (QMLifyFile.filename f) = Ok "PNG" ∧
  ∃ st', build 1 0 st = (Ok tt, st') ∧
    qmlify st' = qmlify st ∧ heap st' = heap st ∧
    stdout (world st') = stdout (world st) ++ [" - " +:+ QMLifyFile.filename f] ∧
    nodes (world st')
      !! posixpath.abspath (cwd (world st)) (QMLifyFile.out_filename f)
    = Some (RegularFile (now (world st)) "PNG").
Proof.
  intros st f.
  assert (Str.endswith (QMLifyFile.filename f) ".js" = false) as H1 by (by vm_compute).
  assert (needs_build (world st) f = Ok true) as H2 by (by vm_compute).
  assert (QMLifyFile.out_dirname f = posixpath.dirname (QMLifyFile.out_filename f))
    as H2' by (by vm_compute).
  assert (QMLifyFile.out_dirname f ≠ "") as H3 by (by vm_compute).
  assert (writable (world st) (QMLifyFile.out_dirname f) (QMLifyFile.out_filename f))
    as H4 by compute_done.
  assert (posixpath.abspath (cwd (world st)) (QMLifyFile.filename f)
          ≠ posixpath.abspath (cwd (world st)) (QMLifyFile.out_filename f)) as H5
    by (by vm_compute).
  assert (read_text (world st) (QMLifyFile.filename f) = Ok "PNG") as H6
    by (by vm_compute).
  exact (conj H1 (conj H2 (conj H2' (conj H3 (conj H4 (conj H5 (conj H6
           (proj2 (build_asset 0 0 st H1) H2 H2' H3 H4 H5 "PNG" H6)))))))).
Defined.

Example asset_is_copied :
  let st' := (Scenario.run Scenario.asset "src/logo.png").2 in
  (Scenario.run Scenario.asset "src/logo.png").1 = Ok 0 ∧
  nodes (world st') !! "/w/build/logo.png" = Some (RegularFile 100 "PNG") ∧
  stdout (world st') = [" - src/logo.png"].
Proof. by vm_compute. Qed.

(** An asset built into its own directory, by a [qmlify.py] that is newer:
    [shutil.copy] refuses to copy a file onto itself. *)
Example asset_onto_itself :
  (match QMLify_init "/w/src" ∅ false false Scenario.asset_new_script with
   | (Ok _, st) => QMLify_build 5 "src/logo.png" None st
   | (Raise e, st) => (Raise e, st)
   end).1 = Raise (OSError "src/logo.png").
Proof. by vm_compute. Qed.

(** *** A missing source *)

(** X7. The build of a file that does not exist never returns: it raises
    the error of the file system, or of the external compiler that was to
    read the file; no object and nothing of the session changes, and no
    file is written (at most the name is printed and output directories
    are made). *)
Theorem build_missing_input fuel self st :
  let f := heap st !!! self in
  let w := world st in
  nodes w !! posixpath.abspath (cwd w) (QMLifyFile.filename f) = None →
  ∃ e st', build (S fuel) self st = (Raise e, st') ∧
    ((∃ p, e = OSError p) ∨ e = CalledProcessError) ∧
    qmlify st' = qmlify st ∧ heap st' = heap st ∧
    (∀ k t c, nodes (world st') !! k = Some (RegularFile t c) →
              nodes w !! k = Some (RegularFile t c)).
Proof.
  intros f w Hmiss. subst f w.
  set (f := heap st !!! self) in *.
  assert (getmtime (world st) (QMLifyFile.filename f)
          = Raise (OSError (QMLifyFile.filename f))) as Hmtime.
  { unfold getmtime, stat. case_bool_decide; [done|]. by rewrite Hmiss. }
  cbn [build]. unfold QMLifyFile_build.
  unfold bind at 1. unfold get_file at 1.
  unfold bind at 1. unfold get_world at 1.
  unfold bind at 1. unfold lift at 1. fold f.
  unfold needs_build. rewrite Hmtime.
  destruct (path_exists (world st) (QMLifyFile.out_filename f)); cbn [negb].
  { eexists _, _. split; [reflexivity|]. split; [left; by eexists|]. done. }
  unfold bind at 1. unfold print at 1. unfold modify_world at 1.
  set (w1 := set_stdout (stdout (world st) ++ [" - " +:+ QMLifyFile.filename f])
               (world st)).
  assert (stat w1 (QMLifyFile.filename f) = None) as Hmiss1.
  { unfold stat. case_bool_decide; [done|]. exact Hmiss. }
  assert (read_text w1 (QMLifyFile.filename f) = Raise (OSError (QMLifyFile.filename f)))
    as Hread1.
  { unfold read_text. by rewrite Hmiss1. }
  destruct (read_text_makedirs w1 (QMLifyFile.out_dirname f) (QMLifyFile.filename f))
    as (_ & Hread2). specialize (Hread2 Hmiss1).
  assert (∀ w2 dst, (∀ k t c, nodes w2 !! k = Some (RegularFile t c) →
                              nodes (world st) !! k = Some (RegularFile t c)) →
            read_text w2 (QMLifyFile.filename f)
            = Raise (OSError (QMLifyFile.filename f)) →
            ∃ e st', copy (QMLifyFile.filename f) dst (set_world w2 st) = (Raise e, st') ∧
              ((∃ p, e = OSError p) ∨ e = CalledProcessError) ∧
              qmlify st' = qmlify st ∧ heap st' = heap st ∧
              (∀ k t c, nodes (world st') !! k = Some (RegularFile t c) →
                        nodes (world st) !! k = Some (RegularFile t c))) as Hcopy.
  { intros w2 dst Hw2 Hr. unfold copy.
    unfold bind at 1. unfold get_world at 1. cbn [world set_world].
    destruct (samefile w2 _ _).
    - eexists _, _. split; [reflexivity|]. split; [left; by eexists|]. done.
    - unfold bind at 1. unfold lift at 1. rewrite Hr.
      eexists _, _. split; [reflexivity|]. split; [left; by eexists|]. done. }
  assert (∀ k t c,
    makedirs_nodes w1 (QMLifyFile.out_dirname f) !! k = Some (RegularFile t c) →
    nodes (world st) !! k = Some (RegularFile t c)) as Hdirs.
  { intros k t c. rewrite makedirs_lookup. change (nodes w1) with (nodes (world st)).
    destruct (nodes (world st) !! k); [done|]. by case_decide. }
  destruct (path_exists (world st) (QMLifyFile.out_dirname f)); cbn [negb].
  - unfold bind at 1. unfold ret at 1. cbn [world set_world].
    destruct (Str.endswith (QMLifyFile.filename f) ".js"); cbn [negb].
    + destruct (QMLifyFile.use_babel f).
      * unfold bind at 1. unfold babelify. unfold bind at 1. unfold get_file at 1.
        unfold bind at 1. unfold get_world at 1. cbn [heap world set_world]. fold f.
        rewrite Hread1. unfold raise.
        eexists _, _. split; [reflexivity|]. split; [by right|]. done.
      * unfold bind at 1. unfold bind at 1. unfold get_world at 1.
        unfold lift at 1. cbn [world set_world]. rewrite Hread1.
        eexists _, _. split; [reflexivity|]. split; [left; by eexists|]. done.
    + by apply Hcopy.
  - case_bool_decide as Hdir.
    { unfold bind at 1. unfold raise at 1.
      eexists _, _. split; [reflexivity|]. split; [left; by eexists|]. done. }
    unfold bind at 1. unfold modify_world at 1. cbn [world set_world].
    destruct (Str.endswith (QMLifyFile.filename f) ".js"); cbn [negb].
    + destruct (QMLifyFile.use_babel f).
      * unfold bind at 1. unfold babelify. unfold bind at 1. unfold get_file at 1.
        unfold bind at 1. unfold get_world at 1. cbn [heap world set_world]. fold f.
        rewrite Hread2. unfold raise.
        eexists _, _. split; [reflexivity|]. split; [by right|].
        split; [done|]. split; [done|]. exact Hdirs.
      * unfold bind at 1. unfold bind at 1. unfold get_world at 1.
        unfold lift at 1. cbn [world set_world]. rewrite Hread2.
        eexists _, _. split; [reflexivity|]. split; [left; by eexists|].
        split; [done|]. split; [done|]. exact Hdirs.
    + by apply Hcopy.
Qed.

Lemma build_missing_input_witness :
  let st := Scenario.opened Scenario.nothing "src/gone.js" in
  nodes (world st)
    !! posixpath.abspath (cwd (world st)) (QMLifyFile.filename (heap st !!! 0)) = None ∧
  ∃ e st', build 1 0 st = (Raise e, st') ∧
    ((∃ p, e = OSError p) ∨ e = CalledProcessError) ∧
    qmlify st' = qmlify st ∧ heap st' = heap st ∧
    (∀ k t c, nodes (world st') !! k = Some (RegularFile t c) →
              nodes (world st) !! k = Some (RegularFile t c)).
Proof.
  intros st.
  assert (nodes (world st)
            !! posixpath.abspath (cwd (world st)) (QMLifyFile.filename (heap st !!! 0))
          = None) as H by (by vm_compute).
  split; [exact H|]. exact (build_missing_input 0 0 st H).
Defined.

End BuildFacts.

(** ** Registered QML modules *)

Module ImportFacts.
Import StringFacts SessionFacts ResolutionFacts.

Lemma contains_char s ch : Str.contains s (String ch "") = Str.mem ch s.
Proof.
  induction s as [|c s IH]; [done|].
  cbn [Str.contains Str.mem]. rewrite IH, startswith_cons, startswith_nil, andb_true_r.
  f_equal. apply bool_decide_ext. split; by intros ->.
Qed.

(** X8. An entry [Module/Type version] of the registry, with no space and
    no slash inside [Module] and [Type] and no space inside [version], is
    parsed back into its three parts.  A version that the manifest gives
    for the specifier replaces the one of the entry.  When the manifest
    gives a null version, the message about the missing version is
    printed and the version returned is [None]; in the other cases
    nothing is printed and nothing changes. *)
Theorem parse_import_declared import_path qml_module qml_type version st :
  available_modules (world st) !! import_path
  = Some (qml_module +:+ "/" +:+ qml_type +:+ " " +:+ version) →
  Str.mem " " qml_module = false → Str.mem "/" qml_module = false →
  Str.mem " " qml_type = false → Str.mem "/" qml_type = false →
  Str.mem " " version = false →
  parse_import import_path st
  = match QMLify.package_info (qmlify st) !! import_path with
    | None => (Ok (qml_module, qml_type, Some version), st)
    | Some (Some listed) => (Ok (qml_module, qml_type, Some listed), st)
    | Some None =>
        (Ok (qml_module, qml_type, None),
         set_world
           (set_stdout
              (stdout (world st)
               ++ ["No version specified and latest version not specified: "
                   +:+ import_path]) (world st)) st)
    end.
Proof.
  intros Hentry Hm1 Hm2 Ht1 Ht2 Hv.
  unfold parse_import. unfold bind at 1. unfold get_world at 1.
  unfold bind at 1. unfold get_qmlify at 1. rewrite Hentry.
  assert (qml_module +:+ "/" +:+ qml_type +:+ " " +:+ version
          = (qml_module +:+ "/" +:+ qml_type) +:+ String " " version) as ->.
  { by rewrite !append_assoc. }
  rewrite contains_char, mem_append, orb_true_r. cbn [orb].
  rewrite split_app_sep, (split_free _ version Hv).
  rewrite (split_free _ (qml_module +:+ "/" +:+ qml_type)).
  2:{ rewrite !mem_append, Hm1, Ht1. done. }
  cbn [app]. unfold bind at 1. unfold ret at 1.
  change (qml_module +:+ "/" +:+ qml_type) with (qml_module +:+ String "/" qml_type).
  rewrite split_app_sep, (split_free _ _ Hm2), (split_free _ _ Ht2). cbn [app].
  by destruct (QMLify.package_info (qmlify st) !! import_path) as [[listed|]|].
Qed.

Lemma parse_import_declared_witness :
  let st := Scenario.opened Scenario.exporting "src/main.js" in
  available_modules (world st) !! "material"
  = Some ("Material" +:+ "/" +:+ "MaterialJS" +:+ " " +:+ "0.1") ∧
  parse_import "material" st = (Ok ("Material", "MaterialJS", Some "0.1"), st).
Proof.
  intros st.
  assert (available_modules (world st) !! "material"
          = Some ("Material" +:+ "/" +:+ "MaterialJS" +:+ " " +:+ "0.1")) as H
    by (by vm_compute).
  split; [exact H|].
  exact (parse_import_declared "material" "Material" "MaterialJS" "0.1" st H
           eq_refl eq_refl eq_refl eq_refl eq_refl).
Defined.

(** A manifest that lists [material] with a null version: the message is
    printed, and the directive of the import reads [None] for the version. *)
Example null_version :
  let r := match QMLify_init "/w/build" (<["material" := None]> ∅) false false
                   Scenario.exporting with
           | (Ok _, st) =>
               (let* file := QMLifyFile_init "src/main.js" "src" None None in
                let* _ := modify_file file (QMLifyFile.set_header "") in
                let* _ := require_qml 5 file "material" "QML_material" in
                get_file file) st
           | (Raise e, st) => (Raise e, st)
           end in
  stdout (world r.2)
  = ["No version specified and latest version not specified: material"] ∧
  (QMLifyFile.header <$> match r.1 with Ok f => Some f | Raise _ => None end)
  = Some (".import Material None as QML_material" +:+ nl).
Proof. by vm_compute. Qed.

(** X9. A registered module whose entry gives no version, required from a
    project whose manifest does not list it, cannot be imported:
    [require_qml] raises [UnboundLocalError] for the local [version], the
    message about the missing version is not printed, and the session is
    left as it was. *)
Theorem require_qml_without_version fuel self import_path import_as entry st :
  available_modules (world st) !! import_path = Some entry →
  Str.mem " " entry = false →
  QMLify.package_info (qmlify st) !! import_path = None →
  require_qml fuel self import_path import_as st
  = (Raise (UnboundLocalError "version"), st).
Proof.
  intros Hentry Hfree Hdep.
  unfold require_qml. unfold bind at 1. unfold get_world at 1.
  rewrite bool_decide_eq_true_2 by (by rewrite Hentry).
  unfold bind at 1. unfold parse_import.
  unfold bind at 1. unfold get_world at 1.
  unfold bind at 1. unfold get_qmlify at 1. rewrite Hentry.
  rewrite contains_char, Hfree. unfold bind at 1. unfold ret at 1.
  by rewrite Hdep.
Qed.

Lemma require_qml_without_version_witness :
  let st := Scenario.opened Scenario.exporting "src/main.js" in
  available_modules (world st) !! "lodash" = Some "Lodash/Lodash" ∧
  require_qml 5 0 "lodash" "QML_lodash" st = (Raise (UnboundLocalError "version"), st).
Proof.
  intros st.
  assert (available_modules (world st) !! "lodash" = Some "Lodash/Lodash") as H
    by (by vm_compute).
  split; [exact H|].
  exact (require_qml_without_version 5 0 "lodash" "QML_lodash" "Lodash/Lodash" st H
           eq_refl eq_refl).
Defined.

Example lodash_build_fails :
  (Scenario.run Scenario.exporting "src/main.js").1 = Raise (UnboundLocalError "version").
Proof. by vm_compute. Qed.

End ImportFacts.

(** ** What the cycle check is asked *)

Module SeparationFacts.
Import posixpath StringFacts GraphFacts PathFacts SessionFacts.

(** *** Absolute and relative results of [os.path] *)

Lemma isabs_join_step a b : isabs a = true → isabs (join_step a b) = true.
Proof.
  unfold isabs, join_step. intros Ha.
  destruct (Str.startswith b "/") eqn:Hb; [done|].
  destruct (bool_decide (a = "") || Str.endswith a "/"); by apply startswith_append.
Qed.

Lemma isabs_join a l : isabs a = true → isabs (join a l) = true.
Proof.
  unfold join. revert a. induction l as [|b l IH]; intros a Ha; [done|].
  cbn [foldl]. apply IH. by apply isabs_join_step.
Qed.

Lemma isabs_join_last a l b : isabs b = true → isabs (join a (l ++ [b])) = true.
Proof.
  intros Hb. unfold join. rewrite foldl_app. cbn [foldl].
  unfold join_step. unfold isabs in Hb. by rewrite Hb.
Qed.

Lemma isabs_normpath p : isabs p = true → isabs (normpath p) = true.
Proof.
  unfold isabs, normpath. intros Hp.
  rewrite bool_decide_eq_false_2 by (by intros ->).
  unfold initial_slashes. rewrite Hp.
  destruct (Str.startswith p "//" && negb (Str.startswith p "///")).
  - change (slashes_string 2) with "//". rewrite !append_cons.
    rewrite bool_decide_eq_false_2 by done.
    by rewrite startswith_cons, startswith_nil, bool_decide_eq_true_2.
  - change (slashes_string 1) with "/". rewrite !append_cons.
    rewrite bool_decide_eq_false_2 by done.
    by rewrite startswith_cons, startswith_nil, bool_decide_eq_true_2.
Qed.

Lemma isabs_abspath cwd p : isabs p = true → isabs (abspath cwd p) = true.
Proof. intros Hp. unfold abspath. rewrite Hp. by apply isabs_normpath. Qed.

Lemma components_joinable cwd p : Forall joinable (components cwd p).
Proof.
  unfold components. apply Forall_forall. intros x [Hx Hin]%list_elem_of_filter.
  split; [done|].
  pose proof (split_Forall_free "/" (abspath cwd p)) as H.
  rewrite Forall_forall in H. by apply H.
Qed.

(** What [relpath] returns is never absolute. *)
Lemma relpath_relative cwd p s r : relpath cwd p s = Some r → isabs r = false.
Proof.
  unfold relpath. case_bool_decide; [done|]. cbv zeta.
  set (rel := _ ++ _).
  assert (Forall joinable rel) as Hrel.
  { apply Forall_app. split; [by apply Forall_replicate|].
    apply Forall_drop, components_joinable. }
  destruct rel as [|a l]; intros [= <-]; [done|].
  apply Forall_cons in Hrel as [Ha Hl]. rewrite join_joinable by done.
  apply join_startswith; [done|by constructor].
Qed.

(** *** Rules *)

Lemma within_le n n' st : n ≤ n' → within n' st → within n st.
Proof. intros Hle [Hs Hn]. split; [done|lia]. Qed.

Section Rules.
Context {A B : Type}.

Lemma tr_bind P (m : M A) Q (k : A → M B) R :
  tr P m Q → (∀ a, tr (Q a) (k a) R) → tr P (bind m k) R.
Proof.
  intros Hm Hk st HP. unfold bind. specialize (Hm st HP).
  destruct (m st) as [[a|e] st']; [by apply Hk|done].
Qed.

Lemma tr_ret (P : state → Prop) (a : A) (Q : A → state → Prop) :
  (∀ st, P st → Q a st) → tr P (ret a) Q.
Proof. intros H st HP. by apply H. Qed.

Lemma tr_raise (P : state → Prop) e (Q : A → state → Prop) :
  (∀ chain, e ≠ DependencyCycle chain) → tr P (raise e) Q.
Proof. intros H st HP. exact H. Qed.

Lemma tr_lift (P : state → Prop) (r : result A) :
  (∀ chain, r ≠ Raise (DependencyCycle chain)) → tr P (lift r) (λ _, P).
Proof.
  intros H st HP. unfold lift. destruct r as [a|e]; [done|].
  intros chain ->. by apply (H chain).
Qed.

Lemma tr_pre (P : state → Prop) (φ : Prop) P' (m : M A) Q :
  (∀ st, P st → φ ∧ P' st) → (φ → tr P' m Q) → tr P m Q.
Proof. intros H Hm st HP. destruct (H st HP) as [Hφ HP']. by apply Hm. Qed.

Lemma tr_post P (m : M A) (Q Q' : A → state → Prop) :
  tr P m Q → (∀ a st, Q a st → Q' a st) → tr P m Q'.
Proof.
  intros Hm H st HP. specialize (Hm st HP).
  destruct (m st) as [[a|e] st']; [by apply H|done].
Qed.

Lemma tr_get_file n i (k : QMLifyFile.t → M A) Q :
  i < n →
  (∀ f, isabs (QMLifyFile.filename f) = false →
        isabs (QMLifyFile.build_dir f) = true →
        isabs (QMLifyFile.out_filename f) = true → tr (within n) (k f) Q) →
  tr (within n) (bind (get_file i) k) Q.
Proof.
  intros Hi Hk st HP. unfold bind, get_file.
  pose proof HP as [(Hmap & Hheap & Hq & Hw) Hn].
  destruct (lookup_lt_is_Some_2 (heap st) i ltac:(lia)) as [f Hf].
  rewrite (list_lookup_total_correct _ _ _ Hf).
  rewrite Forall_lookup in Hheap. destruct (Hheap i f Hf) as (H1 & H2 & H3).
  exact (Hk f H1 H2 H3 st HP).
Qed.

Lemma tr_get_world n (k : World → M A) Q :
  (∀ w, map_Forall (λ k _, isabs k = false) (available_modules w) →
        tr (within n) (k w) Q) →
  tr (within n) (bind get_world k) Q.
Proof.
  intros Hk st HP. unfold bind, get_world.
  apply (Hk (world st)); [|done]. by destruct HP as [(_ & _ & _ & Hw) _].
Qed.

Lemma tr_get_qmlify n (k : QMLify.t → M A) Q :
  (∀ q, isabs (QMLify.build_dir q) = true → tr (within n) (k q) Q) →
  tr (within n) (bind get_qmlify k) Q.
Proof.
  intros Hk st HP. unfold bind, get_qmlify.
  apply (Hk (qmlify st)); [|done]. by destruct HP as [(_ & _ & Hq & _) _].
Qed.

End Rules.

Lemma tr_modify_file n i g :
  (∀ f, QMLifyFile.filename (g f) = QMLifyFile.filename f ∧
        QMLifyFile.build_dir (g f) = QMLifyFile.build_dir f ∧
        QMLifyFile.out_filename (g f) = QMLifyFile.out_filename f) →
  tr (within n) (modify_file i g) (λ _, within n).
Proof.
  intros Hg st [(Hmap & Hheap & Hq & Hw) Hn]. unfold modify_file.
  split; [|cbn [heap set_heap]; by rewrite length_alter].
  split; [done|]. split; [|done]. cbn [heap set_heap].
  apply Forall_alter; [done|]. intros f Hf HPf.
  by destruct (Hg f) as (-> & -> & ->).
Qed.

Lemma tr_modify_world n g :
  (∀ w, available_modules (g w) = available_modules w) →
  tr (within n) (modify_world g) (λ _, within n).
Proof.
  intros Hg st [(Hmap & Hheap & Hq & Hw) Hn]. unfold modify_world.
  split; [|done]. split; [done|]. split; [done|]. split; [done|].
  cbn [world set_world]. by rewrite Hg.
Qed.

Lemma tr_modify_qmlify n g :
  (∀ q, QMLify.build_dir (g q) = QMLify.build_dir q ∧
        QMLify.dependency_map (g q) = QMLify.dependency_map q) →
  tr (within n) (modify_qmlify g) (λ _, within n).
Proof.
  intros Hg st [(Hmap & Hheap & Hq & Hw) Hn]. unfold modify_qmlify.
  destruct (Hg (qmlify st)) as [Hb Hd].
  split; [|done]. split; [|split; [done|split; [|done]]]; cbn [qmlify set_qmlify].
  - by rewrite Hd.
  - by rewrite Hb.
Qed.

Lemma tr_print n line : tr (within n) (print line) (λ _, within n).
Proof. by apply tr_modify_world. Qed.

Lemma tr_for_each {A} (P : state → Prop) (l : list A) body :
  (∀ x, tr P (body x) (λ _, P)) → tr P (for_each l body) (λ _, P).
Proof.
  intros Hbody. induction l as [|x l IH]; [by apply tr_ret|].
  cbn [for_each]. eapply tr_bind; [apply Hbody|]. intros ?. exact IH.
Qed.

Lemma tr_sub_with (P : state → Prop) segs tail replacement :
  (∀ m, tr P (replacement m) (λ _, P)) →
  tr P (sub_with segs tail replacement) (λ _, P).
Proof.
  intros Hr. induction segs as [|[pre m] segs IH]; [by apply tr_ret|].
  cbn [sub_with]. eapply tr_bind; [apply Hr|]. intros r.
  eapply tr_bind; [apply IH|]. intros acc. by apply tr_ret.
Qed.

Lemma tr_frame_le {A} n n' (m : M A) :
  n ≤ n' → tr (within n') m (λ _, within n') → tr (within n') m (λ _, within n).
Proof. intros Hle Hm. eapply tr_post; [exact Hm|]. intros a st. by apply within_le. Qed.

Ltac tr_seq rule := eapply tr_bind; [rule|intros ?; cbv beta].
Ltac tr_modify := apply tr_modify_file; intros ?; done.

(** *** The errors of the environment *)

Lemma read_text_error w p chain : read_text w p ≠ Raise (DependencyCycle chain).
Proof. unfold read_text. by destruct (stat w p) as [[]|]. Qed.

Lemma getmtime_error w p e : getmtime w p = Raise e → e = OSError p.
Proof. unfold getmtime. destruct (stat w p); [done|]. by intros [= <-]. Qed.

Lemma needs_build_error w f chain : needs_build w f ≠ Raise (DependencyCycle chain).
Proof.
  unfold needs_build. destruct (negb _); [done|].
  destruct (getmtime w (QMLifyFile.filename f)) as [t1|e1] eqn:H1.
  2:{ apply getmtime_error in H1 as ->. done. }
  destruct (getmtime w (QMLifyFile.out_filename f)) as [t2|e2] eqn:H2.
  2:{ apply getmtime_error in H2 as ->. done. }
  by destruct (t1 >? t2)%Z.
Qed.

Lemma NPMModule_main_error module chain :
  NPMModule_main module ≠ Raise (DependencyCycle chain).
Proof. unfold NPMModule_main. by destruct (NPMModule.package_info module). Qed.

(** *** The methods *)

Lemma tr_QMLifyFile_init n filename base_dir build_dir use_babel :
  (∀ d, build_dir = Some d → isabs d = true) →
  tr (within n) (QMLifyFile_init filename base_dir build_dir use_babel)
     (λ file st, n ≤ file ∧ within (S file) st).
Proof.
  intros Hd. unfold QMLifyFile_init.
  apply tr_get_world; intros w _. apply tr_get_qmlify; intros q Hq.
  destruct (relpath (cwd w) filename (cwd w)) as [self_filename|] eqn:H1;
    [|by apply tr_raise].
  destruct (relpath (cwd w) filename base_dir) as [rel|] eqn:H2; [|by apply tr_raise].
  cbv zeta. intros st [(Hmap & Hheap & Hq' & Hw) Hn]. unfold alloc.
  split; [lia|]. split; [|cbn [heap set_heap]; rewrite length_app; simpl; lia].
  split; [done|]. split; [|done]. cbn [heap set_heap].
  apply Forall_app. split; [done|]. apply Forall_singleton.
  cbn [QMLifyFile.filename QMLifyFile.build_dir QMLifyFile.out_filename].
  assert (isabs (default (QMLify.build_dir q) build_dir) = true) as Hb.
  { destruct build_dir as [d|]; [by apply Hd|done]. }
  split; [by eapply relpath_relative|]. split; [done|by apply isabs_join].
Qed.

Lemma tr_register_dependency fuel n filename dependency :
  isabs filename = true → isabs dependency = false →
  tr (within n) (QMLify_register_dependency fuel filename dependency) (λ _, within n).
Proof.
  intros Hf Hd st [(Hmap & Hheap & Hq & Hw) Hn].
  unfold QMLify_register_dependency, Graph.register_dependency. cbv beta iota zeta.
  set (m := QMLify.dependency_map (qmlify st)) in *.
  assert (Graph.add_edge m filename dependency !! dependency = None) as Hnone.
  { rewrite lookup_add_edge_ne by (intros ->; congruence).
    destruct (m !! dependency) as [deps|] eqn:E; [|done].
    apply Hmap in E. congruence. }
  destruct fuel as [|fuel]; [done|].
  cbn [Graph.check_dependency]. rewrite Hnone.
  split; [|done]. split; [|done]. cbn [qmlify set_qmlify QMLify.dependency_map
    QMLify.set_dependency_map].
  intros k v Hk. destruct (decide (k = filename)) as [->|Hne]; [done|].
  rewrite lookup_add_edge_ne in Hk by done. by apply (Hmap k v).
Qed.

Lemma tr_add_dependency fuel n self dep import_as :
  self < n →
  match dep with
  | DepFile object => object < n
  | DepName name => isabs name = false
  end →
  tr (within n) (add_dependency fuel self dep import_as) (λ _, within n).
Proof.
  intros Hself Hdep. unfold add_dependency.
  eapply tr_bind with (Q := λ filename st, isabs filename = false ∧ within n st).
  - destruct dep as [object|name].
    + apply tr_get_file; [done|]. intros d Hd _ _.
      apply tr_get_world; intros w _.
      tr_seq ltac:(apply tr_for_each; intros name; apply tr_get_file; [done|];
                   intros f _ _ _; case_bool_decide; [tr_modify|by apply tr_ret]).
      tr_seq tr_modify. tr_seq tr_modify. by apply tr_ret.
    + by apply tr_ret.
  - intros filename. apply (tr_pre _ (isabs filename = false) (within n)); [done|].
    intros Hfn. tr_seq tr_modify. apply tr_get_file; [done|]. intros f _ _ Hout.
    by apply tr_register_dependency.
Qed.

Lemma tr_parse_import n import_path :
  tr (within n) (parse_import import_path) (λ _, within n).
Proof.
  unfold parse_import. apply tr_get_world; intros w _. apply tr_get_qmlify; intros q _.
  destruct (available_modules w !! import_path) as [module|]; [|by apply tr_raise].
  eapply tr_bind with (Q := λ _, within n).
  { destruct (Str.contains module " "); [|by apply tr_ret].
    destruct (Str.split module " ") as [|a [|b [|c l]]]; try (by apply tr_raise).
    by apply tr_ret. }
  intros [module' version]. cbv zeta.
  assert (∀ v : option string,
    tr (within n)
       (let* _ := match v with
                  | None =>
                      print ("No version specified and latest version not specified: "
                             +:+ import_path)
                  | Some _ => ret tt
                  end in
        match Str.split module' "/" with
        | [qml_module; qml_type] => ret (qml_module, qml_type, v)
        | _ => raise ValueError
        end) (λ _, within n)) as Hrest.
  { intros v. eapply tr_bind with (Q := λ _, within n).
    { destruct v; [by apply tr_ret|apply tr_print]. }
    intros ?. destruct (Str.split module' "/") as [|x [|y [|z l]]];
      try (by apply tr_raise). by apply tr_ret. }
  destruct (QMLify.package_info q !! import_path) as [v|]; [apply Hrest|].
  destruct version as [v|]; [apply Hrest|by apply tr_raise].
Qed.

Lemma tr_require_qml fuel n self import_path import_as :
  self < n →
  tr (within n) (require_qml fuel self import_path import_as) (λ _, within n).
Proof.
  intros Hself. unfold require_qml. apply tr_get_world; intros w Hw.
  case_bool_decide as Hin; [|by apply tr_ret].
  eapply tr_bind; [apply tr_parse_import|]. intros [[qml_module qml_type] version].
  tr_seq ltac:(apply tr_add_dependency; [done|]; destruct Hin as [v Hv];
               exact (Hw _ _ Hv)).
  tr_seq tr_modify. cbv zeta. by apply tr_ret.
Qed.

Lemma tr_NPMModule_init n name : tr (within n) (NPMModule_init name) (λ _, within n).
Proof.
  unfold NPMModule_init. apply tr_get_world; intros w _.
  apply tr_get_qmlify; intros q _.
  destruct (NPMModule_exists w q name); [|by apply tr_ret]. cbv zeta.
  eapply tr_bind; [apply tr_lift; intros ?; apply read_text_error|]. intros source.
  destruct (json_main w source); [by apply tr_ret|by apply tr_raise].
Qed.

Lemma tr_QMLifyFile_save_cache n self :
  self < n → tr (within n) (QMLifyFile_save_cache self) (λ _, within n).
Proof.
  intros Hself. unfold QMLifyFile_save_cache.
  apply tr_get_file; [done|]. intros f _ _ _. apply tr_get_world; intros w _.
  destruct (cache_entry_of w f); [|by apply tr_raise].
  by apply tr_modify_qmlify.
Qed.

Lemma tr_QMLifyFile_load_cache n self :
  self < n → tr (within n) (QMLifyFile_load_cache self) (λ _, within n).
Proof.
  intros Hself. unfold QMLifyFile_load_cache.
  apply tr_get_file; [done|]. intros f _ _ _. apply tr_get_qmlify; intros q _.
  apply tr_get_world; intros w _.
  destruct (QMLify.cache q !! QMLifyFile.filename f); [|by apply tr_raise].
  tr_modify.
Qed.

Lemma tr_QMLify_save_cache n : tr (within n) QMLify_save_cache (λ _, within n).
Proof.
  unfold QMLify_save_cache. apply tr_get_qmlify; intros q _. by apply tr_modify_world.
Qed.

Lemma tr_copy n src dst : tr (within n) (copy src dst) (λ _, within n).
Proof.
  unfold copy. apply tr_get_world; intros w _. cbv zeta.
  destruct (samefile w src _); [by apply tr_raise|].
  eapply tr_bind; [apply tr_lift; intros ?; apply read_text_error|].
  intros content. by apply tr_modify_world.
Qed.

Lemma tr_babelify n self : self < n → tr (within n) (babelify self) (λ _, within n).
Proof.
  intros Hself. unfold babelify. apply tr_get_file; [done|]. intros f _ _ _.
  apply tr_get_world; intros w _.
  destruct (read_text w (QMLifyFile.filename f)); [|by apply tr_raise].
  destruct (babel w _); [by apply tr_ret|by apply tr_raise].
Qed.

Lemma tr_add_polyfills n self :
  self < n → tr (within n) (add_polyfills self) (λ _, within n).
Proof.
  intros Hself. unfold add_polyfills. tr_seq tr_modify. tr_seq tr_modify.
  apply tr_for_each. intros polyfill. tr_modify.
Qed.

Lemma tr_export_globals n self :
  self < n → tr (within n) (export_globals self) (λ _, within n).
Proof.
  intros Hself. unfold export_globals. apply tr_get_world; intros w _.
  eapply tr_bind with (Q := λ _, within n).
  { apply tr_get_file; [done|]. intros f _ _ _. by apply tr_ret. }
  intros names. apply tr_for_each. intros name.
  apply tr_get_file; [done|]. intros f _ _ _.
  case_bool_decide; [tr_modify|by apply tr_ret].
Qed.

Lemma tr_replace_template n self p template :
  tr (within n) (replace_template self p template) (λ _, within n).
Proof. unfold replace_template. tr_modify. Qed.

Lemma tr_fix_exports n self : tr (within n) (fix_exports self) (λ _, within n).
Proof.
  unfold fix_exports. tr_seq ltac:(apply tr_replace_template).
  apply tr_replace_template.
Qed.

Lemma tr_replace_with n self p replacement :
  self < n → (∀ m, tr (within n) (replacement m) (λ _, within n)) →
  tr (within n) (replace_with self p replacement) (λ _, within n).
Proof.
  intros Hself Hr. unfold replace_with. apply tr_get_file; [done|]. intros f _ _ _.
  destruct (Re.segments p (QMLifyFile.text f)) as [segs tail].
  eapply tr_bind; [by apply tr_sub_with|]. intros new_text. tr_modify.
Qed.

Section Methods.
Context (fuel : nat) (build_rec : nat → M unit).
Hypothesis Hrec : ∀ n file, file < n → tr (within n) (build_rec file) (λ _, within n).

Lemma tr_require_local n self filename import_as :
  self < n →
  tr (within n) (require_local fuel build_rec self filename import_as) (λ _, within n).
Proof.
  intros Hself. unfold require_local.
  destruct (Str.contains filename ".js"); [by apply tr_raise|]. cbv zeta.
  apply tr_get_file; [done|]. intros f Hf1 Hf2 Hf3.
  apply tr_get_world; intros w _.
  eapply tr_bind; [apply tr_QMLifyFile_init; by intros d [= <-]|].
  intros file. apply (tr_pre _ (n ≤ file) (within (S file))); [done|]. intros Hle.
  apply tr_frame_le; [lia|].
  tr_seq ltac:(apply Hrec; lia).
  tr_seq ltac:(apply tr_add_dependency; lia).
  tr_seq tr_modify. by apply tr_ret.
Qed.

Lemma tr_NPMModule_require n module filename :
  tr (within n) (NPMModule_require build_rec module filename)
     (λ file st, n ≤ file ∧ within (S file) st).
Proof.
  unfold NPMModule_require. apply tr_get_world; intros w _.
  apply tr_get_qmlify; intros q Hq.
  eapply tr_bind with (Q := λ _, within n).
  { destruct filename; [by apply tr_ret|].
    apply tr_lift; intros ?; apply NPMModule_main_error. }
  intros filename'. cbv zeta.
  eapply tr_bind.
  { apply tr_QMLifyFile_init. intros d [= <-]. unfold NPMModule_dirname.
    by apply isabs_abspath, isabs_join. }
  intros file. apply (tr_pre _ (n ≤ file) (within (S file))); [done|]. intros Hle.
  eapply tr_bind; [apply Hrec; lia|]. intros ?. by apply tr_ret.
Qed.

Lemma tr_require_npm n self import_path import_as :
  self < n →
  tr (within n) (require_npm fuel build_rec self import_path import_as) (λ _, within n).
Proof.
  intros Hself. unfold require_npm.
  match goal with
  | |- tr _ (let '(a, b) := ?x in _) _ => destruct x as [module_name filename]
  end.
  apply tr_get_qmlify; intros q Hq.
  eapply tr_bind with (Q := λ _, within n).
  { destruct (QMLify.modules q !! module_name); [by apply tr_ret|].
    eapply tr_bind; [apply tr_NPMModule_init|]. intros module. cbv beta.
    apply tr_get_world; intros w _.
    destruct (negb _); [by apply tr_ret|].
    tr_seq ltac:(by apply tr_modify_qmlify). by apply tr_ret. }
  intros [module|]; [|by apply tr_ret].
  apply tr_get_world; intros w _.
  eapply tr_bind with (Q := λ r st, n ≤ r.2 ∧ within (S r.2) st).
  { destruct filename as [filename|].
    - eapply tr_bind; [apply tr_NPMModule_require|]. intros file. by apply tr_ret.
    - eapply tr_bind; [apply tr_lift; intros ?; apply NPMModule_main_error|].
      intros main. cbv zeta.
      eapply tr_bind; [apply tr_NPMModule_require|]. intros file. by apply tr_ret. }
  intros [filename' file]. cbn [snd].
  apply (tr_pre _ (n ≤ file) (within (S file))); [done|]. intros Hle.
  apply tr_frame_le; [lia|].
  tr_seq ltac:(apply tr_add_dependency; lia).
  apply tr_get_file; [lia|]. intros f _ _ _. apply tr_get_world; intros w' _.
  destruct (relpath _ _ _); [|by apply tr_raise].
  tr_seq tr_modify. by apply tr_ret.
Qed.

Lemma tr_require n self import_path import_as :
  self < n →
  tr (within n) (require fuel build_rec self import_path import_as) (λ _, within n).
Proof.
  intros Hself. unfold require.
  destruct (_ || _); [by apply tr_require_local|].
  destruct (Str.contains import_path ".js"); [by apply tr_raise|].
  eapply tr_bind; [by apply tr_require_npm|]. intros r1.
  eapply tr_bind with (Q := λ _, within n).
  { destruct r1; [by apply tr_ret|]. unfold require_qpm. by apply tr_ret. }
  intros r2.
  eapply tr_bind with (Q := λ _, within n).
  { destruct r2; [by apply tr_ret|by apply tr_require_qml]. }
  intros [r3|]; [by apply tr_ret|].
  apply tr_get_file; [done|]. intros f _ _ _. apply tr_get_world; intros w _.
  destruct (path_exists _ _); by apply tr_raise.
Qed.

Lemma tr_replace_require n self m :
  self < n →
  tr (within n) (replace_require fuel build_rec self m) (λ _, within n).
Proof.
  intros Hself. unfold replace_require. cbv zeta.
  match goal with
  | |- tr _ (let '(a, b) := ?x in _) _ => destruct x as [import_path import_as]
  end.
  eapply tr_bind; [by apply tr_require|]. intros r.
  destruct (bool_decide _); by apply tr_ret.
Qed.

Lemma tr_build_imports n self :
  self < n → tr (within n) (build_imports fuel build_rec self) (λ _, within n).
Proof.
  intros Hself. unfold build_imports.
  tr_seq ltac:(apply tr_replace_with; [done|]; intros m; by apply tr_replace_require).
  apply tr_get_file; [done|]. intros f _ _ _.
  tr_seq ltac:(apply tr_for_each; intros m;
               eapply tr_bind; [by apply tr_replace_require|]; intros ?;
               by apply tr_ret).
  do 4 (tr_seq ltac:(apply tr_replace_template)).
  apply tr_replace_with; [done|]. intros m. by apply tr_replace_require.
Qed.

Lemma tr_QMLifyFile_build n self :
  self < n → tr (within n) (QMLifyFile_build fuel build_rec self) (λ _, within n).
Proof.
  intros Hself. unfold QMLifyFile_build.
  apply tr_get_file; [done|]. intros f _ _ _. apply tr_get_world; intros w _.
  eapply tr_bind; [apply tr_lift; intros ?; apply needs_build_error|]. intros stale.
  destruct (negb stale).
  { destruct (Str.endswith _ _); [by apply tr_QMLifyFile_load_cache|by apply tr_ret]. }
  tr_seq ltac:(apply tr_print).
  eapply tr_bind with (Q := λ _, within n).
  { destruct (negb (path_exists _ _)); [|by apply tr_ret].
    case_bool_decide; [by apply tr_raise|]. by apply tr_modify_world. }
  intros ?. cbv beta.
  destruct (negb (Str.endswith _ _)).
  { apply tr_copy. }
  eapply tr_bind with (Q := λ _, within n).
  { destruct (QMLifyFile.use_babel f); [by apply tr_babelify|].
    apply tr_get_world; intros w' _. apply tr_lift; intros ?; apply read_text_error. }
  intros text. do 5 (tr_seq tr_modify).
  apply tr_get_qmlify; intros q _.
  eapply tr_bind with (Q := λ _, within n).
  { destruct (QMLify.use_polyfills q); [by apply tr_add_polyfills|by apply tr_ret]. }
  intros ?. cbv beta.
  tr_seq ltac:(by apply tr_build_imports).
  tr_seq ltac:(apply tr_fix_exports).
  tr_seq ltac:(by apply tr_export_globals).
  do 3 (tr_seq tr_modify).
  apply tr_get_file; [done|]. intros f' _ _ _.
  tr_seq ltac:(by apply tr_modify_world).
  tr_seq ltac:(by apply tr_modify_qmlify).
  tr_seq ltac:(by apply tr_QMLifyFile_save_cache).
  apply tr_QMLify_save_cache.
Qed.

End Methods.

Lemma tr_build fuel : ∀ n self,
  self < n → tr (within n) (build fuel self) (λ _, within n).
Proof.
  induction fuel as [|fuel IH]; intros n self Hself; [by apply tr_raise|].
  cbn [build]. by apply tr_QMLifyFile_build.
Qed.

Lemma QMLify_init_separated build_dir package_info use_polyfills use_babel w st :
  isabs build_dir = true →
  map_Forall (λ k _, isabs k = false) (available_modules w) →
  QMLify_init build_dir package_info use_polyfills use_babel w = (Ok tt, st) →
  separated st.
Proof.
  intros Hb Hw. unfold QMLify_init, QMLify_load_cache, bind, get_world, modify_qmlify.
  cbn [world]. destruct (cache_yaml w) as [[| |files]|]; try done.
  - intros [= <-]. split; [apply map_Forall_empty|]. by split; [constructor|].
  - intros [= <-]. split; [apply map_Forall_empty|]. by split; [constructor|].
Qed.

(** X10. In a session whose build directory is absolute, as [main] makes
    it, and whose registered module names are not, a build never raises
    [DependencyCycle]: the map is keyed by absolute output paths while the
    check is asked about the relative name of the required file, which is
    no key.  When the build returns, the session is again such a one. *)
Theorem build_never_raises_cycle fuel path base_dir st :
  separated st →
  match QMLify_build fuel path base_dir st with
  | (Ok _, st') => separated st'
  | (Raise e, _) => ∀ chain, e ≠ DependencyCycle chain
  end.
Proof.
  intros Hs.
  assert (tr (within 0) (QMLify_build fuel path base_dir) (λ _ st', separated st'))
    as Hbuild.
  { unfold QMLify_build. cbv zeta.
    eapply tr_bind; [apply tr_QMLifyFile_init; by intros d [=]|].
    intros file. apply (tr_pre _ (0 ≤ file) (within (S file))); [done|]. intros _.
    eapply tr_bind; [apply tr_build; lia|]. intros ?. apply tr_ret.
    by intros st' [Hs' _]. }
  apply (Hbuild st). split; [done|lia].
Qed.

Lemma build_never_raises_cycle_witness :
  let st := Scenario.session Scenario.mutual in
  separated st ∧
  match QMLify_build 5 "src/ping.js" None st with
  | (Ok _, st') => separated st'
  | (Raise e, _) => ∀ chain, e ≠ DependencyCycle chain
  end.
Proof.
  intros st.
  assert (separated st) as H by (by vm_compute).
  split; [exact H|]. exact (build_never_raises_cycle 5 "src/ping.js" None st H).
Defined.

(** Two files that require each other: the build does not end with the
    report of a cycle but by exhausting the stack. *)
Example mutual_requires_overflow :
  (Scenario.run Scenario.mutual "src/ping.js").1 = Raise RecursionError.
Proof. by vm_compute. Qed.

End SeparationFacts.

(** ** The footer of a built file *)

Module FooterFacts.
Import StringFacts SessionFacts.

(** *** What a method touches *)

Lemma frame_refl n i φ `{!Reflexive φ} st : frame n i φ st st.
Proof. intros Hn. by split_and!. Qed.

Lemma frame_trans n i φ `{!Transitive φ} st1 st2 st3 :
  frame n i φ st1 st2 → frame n i φ st2 st3 → frame n i φ st1 st3.
Proof.
  intros H12 H23 Hn. destruct (H12 Hn) as (Hn2 & Hj2 & Hi2).
  destruct (H23 Hn2) as (Hn3 & Hj3 & Hi3). split_and!; [done| |].
  - intros j Hj Hne. by rewrite Hj3, Hj2.
  - intros Hi. by etrans; [apply Hi2|apply Hi3].
Qed.

(** A state with the same objects. *)
Lemma frame_heap n i φ `{!Reflexive φ} st st' : heap st' = heap st → frame n i φ st st'.
Proof. intros Hh Hn. rewrite Hh. by split_and!. Qed.

(** What touches only an object that is not below [n] touches none below. *)
Lemma frame_new n i φ `{!Reflexive φ} file st st' :
  n ≤ file → frame n file any_change st st' → frame n i φ st st'.
Proof.
  intros Hle H Hn. destruct (H Hn) as (Hn' & Hj & _). split_and!; [done| |].
  - intros j Hj' _. apply Hj; lia.
  - intros Hi. rewrite !list_lookup_total_alt, Hj by lia. done.
Qed.

Section Rules.
Context (n i : nat) (φ : QMLifyFile.t → QMLifyFile.t → Prop).
Context `{!Reflexive φ} `{!Transitive φ}.

Lemma touches_same {A} (m : M A) : (∀ st, heap (m st).2 = heap st) → touches n i φ m.
Proof. intros H st. apply frame_heap; [done|apply H]. Qed.

Lemma touches_bind {A B} (m : M A) (k : A → M B) :
  touches n i φ m → (∀ a, touches n i φ (k a)) → touches n i φ (bind m k).
Proof.
  intros Hm Hk st. unfold bind. specialize (Hm st).
  destruct (m st) as [[a|e] st1]; [|done].
  eapply frame_trans; [done|exact Hm|apply Hk].
Qed.

Lemma touches_modify_file g : (∀ f, φ f (g f)) → touches n i φ (modify_file i g).
Proof.
  intros Hg st Hn. cbn [modify_file snd heap set_heap].
  split_and!; [by rewrite length_alter| |].
  - intros j Hj Hne. by rewrite list_lookup_alter_ne.
  - intros Hi. rewrite heap_alter_lookup, decide_True by lia. apply Hg.
Qed.

Lemma touches_alloc f : touches n i φ (alloc f).
Proof.
  intros st Hn. cbn [alloc snd heap set_heap].
  split_and!; [rewrite length_app; lia| |].
  - intros j Hj Hne. apply lookup_app_l. lia.
  - intros Hi. rewrite !list_lookup_total_alt, lookup_app_l by lia. done.
Qed.

Lemma touches_for_each {A} (l : list A) body :
  (∀ x, touches n i φ (body x)) → touches n i φ (for_each l body).
Proof.
  intros Hbody. induction l as [|x l IH]; [by apply touches_same|].
  cbn [for_each]. apply touches_bind; [apply Hbody|]. intros ?. exact IH.
Qed.

Lemma touches_sub_with segs tail replacement :
  (∀ m, touches n i φ (replacement m)) →
  touches n i φ (sub_with segs tail replacement).
Proof.
  intros Hr. induction segs as [|[pre m] segs IH]; [by apply touches_same|].
  cbn [sub_with]. apply touches_bind; [apply Hr|]. intros r.
  apply touches_bind; [apply IH|]. intros acc. by apply touches_same.
Qed.

(** The object that [__init__] creates is not below [n]. *)
Lemma touches_init {A} filename base_dir build_dir use_babel (k : nat → M A) :
  (∀ file, n ≤ file → touches n i φ (k file)) →
  touches n i φ (bind (QMLifyFile_init filename base_dir build_dir use_babel) k).
Proof.
  intros Hk st Hn. revert Hn. unfold bind, QMLifyFile_init, bind, get_world, get_qmlify.
  destruct (posixpath.relpath _ _ (cwd (world st))); [|by apply frame_refl].
  destruct (posixpath.relpath _ _ _); [|by apply frame_refl].
  cbv zeta. unfold alloc. intros Hn.
  eapply frame_trans; [done|apply touches_alloc|apply Hk; lia|done].
Qed.

Lemma touches_new {A} file (m : M A) :
  n ≤ file → touches n file any_change m → touches n i φ m.
Proof. intros Hle Hm st. eapply frame_new; [done|done|apply Hm]. Qed.

End Rules.

#[local] Instance any_change_refl : Reflexive any_change.
Proof. by intros f. Qed.
#[local] Instance any_change_trans : Transitive any_change.
Proof. by intros f1 f2 f3 _ _. Qed.
#[local] Instance keeps_footer_refl : Reflexive keeps_footer.
Proof. by intros f. Qed.
#[local] Instance keeps_footer_trans : Transitive keeps_footer.
Proof. unfold keeps_footer. intros f1 f2 f3 H1 H2. congruence. Qed.
#[local] Instance keeps_exports_refl : Reflexive keeps_exports.
Proof. by intros f. Qed.
#[local] Instance keeps_exports_trans : Transitive keeps_exports.
Proof.
  unfold keeps_exports. intros f1 f2 f3 (?&?&?) (?&?&?). split_and!; congruence.
Qed.

Lemma touches_quiet n i φ g :
  (∀ f f', QMLifyFile.footer f' = QMLifyFile.footer f → φ f f') →
  (∀ f, QMLifyFile.footer (g f) = QMLifyFile.footer f) → touches n i φ (modify_file i g).
Proof. intros Hφ Hg. apply touches_modify_file. intros f. apply Hφ, Hg. Qed.

Ltac touches_rule lem := apply lem; try (solve [apply _]).

Ltac touches_step :=
  lazymatch goal with
  | |- touches _ _ _ (bind (QMLifyFile_init _ _ _ _) _) =>
      touches_rule touches_init; intros ? ?
  | |- touches _ _ _ (bind _ _) => touches_rule touches_bind; [|intros ?]
  | |- touches _ _ _ (ret _) => by touches_rule touches_same
  | |- touches _ _ _ (raise _) => by touches_rule touches_same
  | |- touches _ _ _ (lift _) => by touches_rule touches_same
  | |- touches _ _ _ get_world => by touches_rule touches_same
  | |- touches _ _ _ get_qmlify => by touches_rule touches_same
  | |- touches _ _ _ (get_file _) => by touches_rule touches_same
  | |- touches _ _ _ (modify_world _) => by touches_rule touches_same
  | |- touches _ _ _ (modify_qmlify _) => by touches_rule touches_same
  | |- touches _ _ _ (print _) => by touches_rule touches_same
  | |- touches _ _ _ (QMLify_register_dependency _ _ _) => by touches_rule touches_same
  | |- touches _ _ _ (modify_file _ _) =>
      first [apply touches_quiet; [eassumption|intros ?; reflexivity]
            |touches_rule touches_modify_file; intros ?;
             first [exact I|by unfold keeps_exports]]
  | |- touches _ _ _ (for_each _ _) => touches_rule touches_for_each; intros ?
  | |- touches _ _ _ (sub_with _ _ _) => touches_rule touches_sub_with; intros ?
  | |- touches _ _ _ (if ?b then _ else _) => destruct b
  | |- touches _ _ _ (match ?x with _ => _ end) => destruct x
  end.

Ltac touches_auto := repeat touches_step.

(** The methods that leave the footer alone. *)
Section Quiet.
Context (fuel : nat) (build_rec : nat → M unit).
Hypothesis Hrec : ∀ n file, touches n file any_change (build_rec file).
Context (n self : nat) (φ : QMLifyFile.t → QMLifyFile.t → Prop).
Context `{!Reflexive φ} `{!Transitive φ}.
Hypothesis Hφ : ∀ f f', QMLifyFile.footer f' = QMLifyFile.footer f → φ f f'.

Lemma touches_add_polyfills : touches n self φ (add_polyfills self).
Proof. unfold add_polyfills. touches_auto. Qed.

Lemma touches_replace_template p template :
  touches n self φ (replace_template self p template).
Proof. unfold replace_template. touches_auto. Qed.

Lemma touches_fix_exports : touches n self φ (fix_exports self).
Proof. unfold fix_exports. touches_auto; apply touches_replace_template. Qed.

Lemma touches_replace_with p replacement :
  (∀ m, touches n self φ (replacement m)) →
  touches n self φ (replace_with self p replacement).
Proof. intros Hr. unfold replace_with. touches_auto; apply Hr. Qed.

Lemma touches_add_dependency dep import_as :
  touches n self φ (add_dependency fuel self dep import_as).
Proof. unfold add_dependency. touches_auto. Qed.

Lemma touches_parse_import import_path : touches n self φ (parse_import import_path).
Proof. unfold parse_import. touches_auto. Qed.

Lemma touches_require_qml import_path import_as :
  touches n self φ (require_qml fuel self import_path import_as).
Proof.
  unfold require_qml. touches_auto;
    first [apply touches_parse_import|apply touches_add_dependency].
Qed.

Lemma touches_NPMModule_init name : touches n self φ (NPMModule_init name).
Proof. unfold NPMModule_init. touches_auto. Qed.

Lemma touches_require_local filename import_as :
  touches n self φ (require_local fuel build_rec self filename import_as).
Proof.
  unfold require_local. touches_auto;
    first [eapply touches_new; [apply _|eassumption|apply Hrec]
          |apply touches_add_dependency].
Qed.

Lemma touches_NPMModule_require module filename :
  touches n self φ (NPMModule_require build_rec module filename).
Proof.
  unfold NPMModule_require. touches_auto.
  eapply touches_new; [apply _|eassumption|apply Hrec].
Qed.

Lemma touches_require_npm import_path import_as :
  touches n self φ (require_npm fuel build_rec self import_path import_as).
Proof.
  unfold require_npm. touches_auto;
    first [apply touches_NPMModule_init|apply touches_NPMModule_require
          |apply touches_add_dependency].
Qed.

Lemma touches_require import_path import_as :
  touches n self φ (require fuel build_rec self import_path import_as).
Proof.
  unfold require, require_qpm. touches_auto;
    first [apply touches_require_local|apply touches_require_npm
          |apply touches_require_qml].
Qed.

Lemma touches_replace_require m :
  touches n self φ (replace_require fuel build_rec self m).
Proof. unfold replace_require. touches_auto; apply touches_require. Qed.

Lemma touches_build_imports : touches n self φ (build_imports fuel build_rec self).
Proof.
  unfold build_imports. touches_auto;
    first [apply touches_replace_with; intros ?; apply touches_replace_require
          |apply touches_replace_require|apply touches_replace_template].
Qed.

End Quiet.

(** The other methods. *)
Section Build.
Context (fuel : nat) (build_rec : nat → M unit).
Hypothesis Hrec : ∀ n file, touches n file any_change (build_rec file).
Context (n self : nat).

Lemma touches_QMLifyFile_build :
  touches n self any_change (QMLifyFile_build fuel build_rec self).
Proof.
  unfold QMLifyFile_build, QMLifyFile_load_cache, copy, babelify, export_globals,
    QMLifyFile_save_cache, QMLify_save_cache.
  touches_auto;
    first [by apply touches_add_polyfills|by apply touches_build_imports
          |by apply touches_fix_exports].
Qed.

End Build.

Lemma touches_build fuel : ∀ n self, touches n self any_change (build fuel self).
Proof.
  induction fuel as [|fuel IH]; intros n self; [by apply touches_same|].
  cbn [build]. by apply touches_QMLifyFile_build.
Qed.

(** *** A run, step by step *)

Lemma bind_Ok {A B} (m : M A) (k : A → M B) st b st' :
  bind m k st = (Ok b, st') → ∃ a st1, m st = (Ok a, st1) ∧ k a st1 = (Ok b, st').
Proof. unfold bind. destruct (m st) as [[a|e] st1]; [eauto|done]. Qed.

Lemma run_frame {A} n i φ (m : M A) st r st1 :
  touches n i φ m → m st = (r, st1) → frame n i φ st st1.
Proof. intros Hm Hrun. specialize (Hm st). by rewrite Hrun in Hm. Qed.

Lemma run_length {A} n i (m : M A) st r st1 :
  touches n i any_change m → m st = (r, st1) →
  n ≤ length (heap st) → n ≤ length (heap st1).
Proof. intros Hm Hrun Hn. by destruct (run_frame _ _ _ _ _ _ _ Hm Hrun Hn). Qed.

(** *** Declarations *)

Lemma append_inj_length (a a' b b' : string) :
  String.length a = String.length a' → a +:+ b = a' +:+ b' → a = a' ∧ b = b'.
Proof.
  revert a'. induction a as [|c a IH]; intros [|c' a'] Hl H; try done.
  rewrite !append_cons in H. injection H as -> H. simpl in Hl.
  by destruct (IH a' ltac:(lia) H) as [-> ->].
Qed.

Lemma declaration_inj N N' :
  "var " +:+ N +:+ " = global." +:+ N +:+ ";" +:+ nl
  = "var " +:+ N' +:+ " = global." +:+ N' +:+ ";" +:+ nl → N = N'.
Proof.
  intros H.
  change ("var " +:+ N +:+ " = global." +:+ N +:+ ";" +:+ nl)
    with (String "v" (String "a" (String "r" (String " "
            (N +:+ " = global." +:+ N +:+ ";" +:+ nl))))) in H.
  change ("var " +:+ N' +:+ " = global." +:+ N' +:+ ";" +:+ nl)
    with (String "v" (String "a" (String "r" (String " "
            (N' +:+ " = global." +:+ N' +:+ ";" +:+ nl))))) in H.
  injection H as H.
  assert (String.length N = String.length N') as Hl.
  { apply (f_equal String.length) in H. rewrite !length_append in H.
    change (String.length " = global.") with 10 in H.
    change (String.length ";") with 1 in H. lia. }
  by destruct (append_inj_length _ _ _ _ Hl H).
Qed.

Lemma declarations_count (names : list string) N :
  NoDup names →
  length (filter (λ line, line = "var " +:+ N +:+ " = global." +:+ N +:+ ";" +:+ nl)
            ((λ N, "var " +:+ N +:+ " = global." +:+ N +:+ ";" +:+ nl) <$> names))
  = if decide (N ∈ names) then 1 else 0.
Proof.
  intros Hnd. rewrite <- (NoDup_count_name names N Hnd).
  clear Hnd. induction names as [|x names IH]; [done|].
  rewrite fmap_cons, !filter_cons.
  destruct (decide (x = N)) as [->|Hne].
  - rewrite decide_True by done. simpl. by rewrite IH.
  - rewrite decide_False; [done|]. intros Heq. by apply declaration_inj in Heq.
Qed.

(** *** The footer *)

(** C9.  The footer of a file that [build] has rewritten consists of lines
    that are declarations [var N = global.N;], and of nothing else: for
    each name [N] among the globals of the file that is not among the
    globals imported from its dependencies, the declaration of [N] is
    exactly one of the lines, and for every other name it is none of
    them. *)
Theorem export_globals_footer fuel self st st' :
  self < length (heap st) →
  Str.endswith (QMLifyFile.filename (heap st !!! self)) ".js" = true →
  needs_build (world st) (heap st !!! self) = Ok true →
  build (S fuel) self st = (Ok tt, st') →
  let f' := heap st' !!! self in
  let declaration := λ N, "var " +:+ N +:+ " = global." +:+ N +:+ ";" +:+ nl in
  ∃ names,
    let lines := declaration <$> names in
    QMLifyFile.footer f' = foldr (λ line rest, line +:+ rest) "" lines ∧
    (∀ N, length (filter (λ line, line = declaration N) lines)
          = if decide (N ∈ QMLifyFile.globals f'
                       ∧ N ∉ QMLifyFile.imported_globals f') then 1 else 0) ∧
    NoDup names ∧
    (∀ N, N ∈ names
          ↔ N ∈ QMLifyFile.globals f' ∧ N ∉ QMLifyFile.imported_globals f').
Proof.
  intros Hself Hjs Hstale H f' declaration.
  pose proof (touches_build fuel) as Hrec.
  assert (∀ f1 f2, QMLifyFile.footer f2 = QMLifyFile.footer f1 → keeps_footer f1 f2)
    as Hquiet by done.
  cbn [build] in H. unfold QMLifyFile_build in H.
  unfold bind at 1 in H. unfold get_file at 1 in H.
  unfold bind at 1 in H. unfold get_world at 1 in H.
  unfold bind at 1 in H. unfold lift at 1 in H.
  rewrite Hstale in H. cbn [negb] in H. rewrite Hjs in H. cbn [negb] in H.
  apply bind_Ok in H as (u1 & st1 & H1 & H).
  apply bind_Ok in H as (u2 & st2 & H2 & H).
  apply bind_Ok in H as (text & st3 & H3 & H).
  apply bind_Ok in H as (u4 & st4 & H4 & H).
  apply bind_Ok in H as (u5 & st5 & H5 & H).
  apply bind_Ok in H as (u6 & st6 & H6 & H).
  apply bind_Ok in H as (u7 & st7 & H7 & H).
  apply bind_Ok in H as (u8 & st8 & H8 & H).
  unfold bind at 1 in H. unfold get_qmlify at 1 in H.
  apply bind_Ok in H as (u9 & st9 & H9 & H).
  apply bind_Ok in H as (u10 & st10 & H10 & H).
  apply bind_Ok in H as (u11 & st11 & H11 & H).
  apply bind_Ok in H as (u12 & st12 & H12 & H).
  (* up to the point where the footer is emptied *)
  assert (S self ≤ length (heap st7)) as Hlen7.
  { assert (S self ≤ length (heap st1)) as Hlen1
      by (eapply (run_length _ self); [|exact H1|lia]; clear; touches_auto).
    assert (S self ≤ length (heap st2)) as Hlen2
      by (eapply (run_length _ self); [|exact H2|done]; clear; touches_auto).
    assert (S self ≤ length (heap st3)) as Hlen3
      by (eapply (run_length _ self); [|exact H3|done]; clear;
          unfold babelify; touches_auto).
    assert (S self ≤ length (heap st4)) as Hlen4
      by (eapply (run_length _ self); [|exact H4|done]; clear; touches_auto).
    assert (S self ≤ length (heap st5)) as Hlen5
      by (eapply (run_length _ self); [|exact H5|done]; clear; touches_auto).
    assert (S self ≤ length (heap st6)) as Hlen6
      by (eapply (run_length _ self); [|exact H6|done]; clear; touches_auto).
    eapply (run_length _ self); [|exact H7|done]. clear. touches_auto. }
  unfold modify_file in H8. injection H8 as _ <-.
  set (st8 := set_heap _ st7) in *.
  assert (S self ≤ length (heap st8)) as Hlen8.
  { unfold st8. cbn [heap set_heap]. by rewrite length_alter. }
  assert (QMLifyFile.footer (heap st8 !!! self) = "") as Hempty8.
  { unfold st8. cbn [heap set_heap]. by rewrite heap_alter_lookup, decide_True by lia. }
  (* the prologue, the imports and the exports leave it empty *)
  assert (frame (S self) self keeps_footer st8 st11) as Hmiddle.
  { eapply frame_trans; [apply _| |eapply frame_trans; [apply _| |]].
    - eapply run_frame; [|exact H9]. touches_auto.
      apply touches_add_polyfills; first [apply _|exact Hquiet].
    - eapply run_frame; [|exact H10].
      apply touches_build_imports; first [apply _|exact Hquiet|exact Hrec].
    - eapply run_frame; [|exact H11].
      apply touches_fix_exports; first [apply _|exact Hquiet]. }
  destruct (Hmiddle Hlen8) as (Hlen11 & _ & Hfooter11).
  specialize (Hfooter11 ltac:(lia)). unfold keeps_footer in Hfooter11.
  rewrite Hempty8 in Hfooter11.
  (* the declarations are appended *)
  rewrite export_globals_appends in H12. injection H12 as _ <-.
  set (f11 := heap st11 !!! self) in *.
  set (names := exported_names (world st11) f11).
  set (st12 := set_heap _ st11) in *.
  assert (S self ≤ length (heap st12)) as Hlen12.
  { unfold st12. cbn [heap set_heap]. by rewrite length_alter. }
  assert (QMLifyFile.footer (heap st12 !!! self) = declarations names
          ∧ QMLifyFile.globals (heap st12 !!! self) = QMLifyFile.globals f11
          ∧ QMLifyFile.imported_globals (heap st12 !!! self)
            = QMLifyFile.imported_globals f11) as (Hfooter12 & Hglobals12 & Himported12).
  { unfold st12. cbn [heap set_heap]. rewrite heap_alter_lookup, decide_True by lia.
    fold f11. cbn [QMLifyFile.footer QMLifyFile.set_footer QMLifyFile.globals
                   QMLifyFile.imported_globals].
    by rewrite Hfooter11. }
  (* and what follows leaves them alone *)
  assert (frame (S self) self keeps_exports st12 st') as Hsuffix.
  { eapply run_frame; [|exact H]. clear.
    unfold QMLifyFile_save_cache, QMLify_save_cache. touches_auto. }
  destruct (Hsuffix Hlen12) as (_ & _ & Hexports).
  destruct (Hexports ltac:(lia)) as (Hfooter & Hglobals & Himported).
  fold f' in Hfooter, Hglobals, Himported.
  assert (∀ N, N ∈ names
               ↔ N ∈ QMLifyFile.globals f' ∧ N ∉ QMLifyFile.imported_globals f') as Hin.
  { intros N. rewrite Hglobals, Himported, Hglobals12, Himported12.
    apply elem_of_exported_names. }
  assert (NoDup names) as Hnd by apply exported_names_NoDup.
  exists names. cbv zeta. split_and!; [|  |done|done].
  { rewrite Hfooter, Hfooter12. unfold declarations. clear.
    induction names as [|N names IH]; [done|]. rewrite fmap_cons. cbn [foldr].
    by rewrite IH. }
  intros N. unfold declaration. rewrite (declarations_count names N Hnd).
  destruct (decide (N ∈ names)) as [HN|HN].
  - rewrite decide_True; [done|]. by apply Hin.
  - rewrite decide_False; [done|]. intros Hc. by apply HN, Hin.
Qed.

Lemma export_globals_footer_witness :
  let st := Scenario.opened Scenario.sharing "src/app.js" in
  let st' := (build 5 0 st).2 in
  let f' := heap st' !!! 0 in
  let declaration := λ N, "var " +:+ N +:+ " = global." +:+ N +:+ ";" +:+ nl in
  (0 < length (heap st) ∧
   Str.endswith (QMLifyFile.filename (heap st !!! 0)) ".js" = true ∧
   needs_build (world st) (heap st !!! 0) = Ok true ∧
   build 5 0 st = (Ok tt, st')) ∧
  ∃ names,
    let lines := declaration <$> names in
    QMLifyFile.footer f' = foldr (λ line rest, line +:+ rest) "" lines ∧
    (∀ N, length (filter (λ line, line = declaration N) lines)
          = if decide (N ∈ QMLifyFile.globals f'
                       ∧ N ∉ QMLifyFile.imported_globals f') then 1 else 0) ∧
    NoDup names ∧
    (∀ N, N ∈ names
          ↔ N ∈ QMLifyFile.globals f' ∧ N ∉ QMLifyFile.imported_globals f').
Proof.
  intros st st' f' declaration.
  assert (0 < length (heap st)) as H1 by (vm_compute; lia).
  assert (Str.endswith (QMLifyFile.filename (heap st !!! 0)) ".js" = true) as H2
    by (by vm_compute).
  assert (needs_build (world st) (heap st !!! 0) = Ok true) as H3 by (by vm_compute).
  assert ((build 5 0 st).1 = Ok tt) as H4 by (by vm_compute).
  assert (build 5 0 st = (Ok tt, st')) as H5.
  { unfold st'. rewrite <- H4. apply surjective_pairing. }
  split; [exact (conj H1 (conj H2 (conj H3 H5)))|].
  exact (export_globals_footer 4 0 st st' H1 H2 H3 H5).
Defined.

(** The file that requires two files which both set [shared]: the footer
    declares the three globals of the file itself, by increasing rank, and
    neither [shared] nor [extra]. *)
Example footer_of_app_js :
  let f' := heap (Scenario.run Scenario.sharing "src/app.js").2 !!! 0 in
  QMLifyFile.footer f'
  = "var first = global.first;" +:+ nl +:+
    "var second = global.second;" +:+ nl +:+
    "var third-one = global.third-one;" +:+ nl ∧
  QMLifyFile.imported_globals f' = {["shared"; "extra"]}.
Proof. by vm_compute. Qed.

End FooterFacts.
